(** * Smart Travel Assistant: the core of [smart_app.py] in Rocq

    A shallow embedding of the provider store, the phrase translator, the
    language detector, the matcher and the booking and review operations of
    [smart_app.py], with the properties its specification states about them.

    Modelling conventions.
    - Python [str] values are byte strings ([string]); [strip], [lower],
      [title], [split], [isdigit] and the punctuation table act on the ASCII
      range and leave every other byte alone. On ASCII strings they are the
      methods of [str]; a property that depends on what they do elsewhere is
      stated for ASCII strings.
    - A Python number (a rating, a score) is the exact value of a finite
      binary64 float, a rational ([Q]); every arithmetic operation rounds
      its exact result to the nearest binary64 value, as the hardware does.
      Infinities, NaN, the sign of zero and overflow are not modelled, and
      an [int] stands for its value (exact below 2^53).
    - A provider [dict] is a record; a key the source reads with [.get] or
      [setdefault] is an [option] field, [None] standing for an absent key.
    - The clock ([datetime.utcnow]) and [uuid.uuid4] are inputs of the
      operations that read them; a timestamp is a number of microseconds.
    - The module-level lists [providers] and [bookings] and the two JSON
      files live in one explicit [state] that every operation threads. *)

From Stdlib Require Import ZArith QArith Qpower Qround Lqa Lia Bool Ascii String.
From stdpp Require Import base option list sorting gmap strings.

Local Open Scope string_scope.
Local Open Scope list_scope.
Local Open Scope nat_scope.

(** ** Text utilities ([str] methods used by the program) *)

Module Text.

Definition code (c : ascii) : nat := nat_of_ascii c.

(** [str.isspace] on the ASCII range: TAB..CR, FS..US and the space. *)
Definition is_space (c : ascii) : bool :=
  let n := code c in
  ((9 <=? n) && (n <=? 13)) || ((28 <=? n) && (n <=? 32)).

Definition is_upper (c : ascii) : bool :=
  let n := code c in (65 <=? n) && (n <=? 90).

Definition is_lower (c : ascii) : bool :=
  let n := code c in (97 <=? n) && (n <=? 122).

(** Membership in [string.punctuation]: the 32 printable ASCII characters
    that are neither alphanumeric nor the space. *)
Definition is_punctuation (c : ascii) : bool :=
  let n := code c in
  ((33 <=? n) && (n <=? 47)) || ((58 <=? n) && (n <=? 64)) ||
  ((91 <=? n) && (n <=? 96)) || ((123 <=? n) && (n <=? 126)).

Definition to_lower (c : ascii) : ascii :=
  if is_upper c then ascii_of_nat (code c + 32) else c.

Definition to_upper (c : ascii) : ascii :=
  if is_lower c then ascii_of_nat (code c - 32) else c.

Definition chars (s : string) : list ascii := list_ascii_of_string s.
Definition text (l : list ascii) : string := string_of_list_ascii l.

(** [s.lower()] *)
Definition lower (s : string) : string := text (map to_lower (chars s)).

Fixpoint lstrip_chars (l : list ascii) : list ascii :=
  match l with
  | c :: r => if is_space c then lstrip_chars r else l
  | [] => []
  end.

(** [s.strip()] *)
Definition strip (s : string) : string :=
  text (rev (lstrip_chars (rev (lstrip_chars (chars s))))).

(** [s.title()]: a cased character that follows an uncased one is put in
    upper case, a cased character that follows a cased one in lower case. *)
Fixpoint title_chars (previous_is_cased : bool) (l : list ascii) : list ascii :=
  match l with
  | [] => []
  | c :: r =>
      if is_lower c then
        (if previous_is_cased then c else to_upper c) :: title_chars true r
      else if is_upper c then
        (if previous_is_cased then to_lower c else c) :: title_chars true r
      else c :: title_chars false r
  end.

Definition title (s : string) : string := text (title_chars false (chars s)).

(** [s.translate(str.maketrans("", "", string.punctuation))] *)
Definition remove_punctuation (s : string) : string :=
  text (List.filter (fun c => negb (is_punctuation c)) (chars s)).

(** [s.split()]: the maximal runs of non-space characters. [cur] is the run
    being read, in reverse. *)
Fixpoint split_chars (cur : list ascii) (l : list ascii) : list string :=
  match l with
  | [] => match cur with [] => [] | _ => [text (rev cur)] end
  | c :: r =>
      if is_space c then
        match cur with
        | [] => split_chars [] r
        | _ => text (rev cur) :: split_chars [] r
        end
      else split_chars (c :: cur) r
  end.

Definition split (s : string) : list string := split_chars [] (chars s).

(** [sep.join(words)] *)
Fixpoint join (sep : string) (words : list string) : string :=
  match words with
  | [] => ""
  | [w] => w
  | w :: ws => w +:+ sep +:+ join sep ws
  end.

(** [sub in s] for strings. *)
Fixpoint contains (sub s : string) : bool :=
  String.prefix sub s ||
  match s with
  | EmptyString => false
  | String _ r => contains sub r
  end.

(** Truthiness of a string: [bool(s)]. *)
Definition truthy (s : string) : bool :=
  match s with EmptyString => false | _ => true end.

(** [s or ""] for a value that is a string or [None]. *)
Definition or_empty (s : option string) : string := default "" s.

(** [s.isascii()]: on such strings the definitions above are the methods
    of [str]; on others Python consults the Unicode tables. *)
Definition is_ascii (s : string) : bool :=
  forallb (fun c => code c <? 128) (chars s).

End Text.

(** [normalize_text] (source lines 79-82). *)
Definition normalize_text (s : option string) : string :=
  let s1 := Text.lower (Text.strip (Text.or_empty s)) in
  let s2 := Text.remove_punctuation s1 in
  Text.join " " (Text.split s2).

(** ** Numbers *)

Module Num.

(** [x < y] *)
Definition ltb (x y : Q) : bool := (Qnum x * QDen y <? Qnum y * QDen x)%Z.

(** [x >= y] *)
Definition geb (x y : Q) : bool := Qle_bool y x.

Definition of_nat (n : nat) : Q := inject_Z (Z.of_nat n).

(** [min(x, y)]: the first argument unless the second is smaller. *)
Definition min (x y : Q) : Q := if ltb y x then y else x.

(** Rounding to the nearest integer, a tie going to the even neighbour. *)
Definition round_half_even (q : Q) : Z :=
  let f := Qfloor q in
  match (q - inject_Z f ?= 1 # 2)%Q with
  | Lt => f
  | Gt => (f + 1)%Z
  | Eq => if Z.even f then f else (f + 1)%Z
  end.

(** The integer part of the binary logarithm of a positive rational. *)
Definition ilog2 (q : Q) : Z :=
  let k := (Z.log2 (Qnum q) - Z.log2 (Zpos (Qden q)))%Z in
  if Qle_bool (2 ^ k) q then k else (k - 1)%Z.

(** The exponent of the binary64 numbers around a positive rational: the
    mantissa has 53 bits, and the least exponent is -1074. *)
Definition exponent (q : Q) : Z := Z.max (ilog2 q - 52) (-1074).

(** The binary64 number nearest to a positive rational, a tie going to the
    even mantissa. *)
Definition nearest (q : Q) : Q :=
  let e := exponent q in
  Qred (inject_Z (round_half_even (q * 2 ^ (- e))) * 2 ^ e).

(** The binary64 number nearest to a rational: what a float literal
    denotes, and the rounding of every float operation. *)
Definition binary64 (q : Q) : Q :=
  match Qnum q with
  | Z0 => 0%Q
  | Zpos _ => nearest q
  | Zneg _ => Qred (- nearest (- q))
  end.

(** [x + y], [x * y] and [x / y] on floats. *)
Definition add (x y : Q) : Q := binary64 (x + y).
Definition mul (x y : Q) : Q := binary64 (x * y).
Definition div (x y : Q) : Q := binary64 (x / y).

(** The literal [0.1]. *)
Definition tenth : Q := binary64 (1 # 10).

(** [sum(l)]: the additions are made left to right, from 0, each of them
    rounded (CPython up to 3.11; later versions compensate the rounding
    errors of a sum of floats). *)
Definition sum (l : list Q) : Q := fold_left add l 0%Q.

(** [sum(l) / len(l)] *)
Definition mean (l : list Q) : Q := div (sum l) (of_nat (length l)).

(** [round(q, 2)] on a float: the decimal with two digits nearest to the
    exact value of [q], a tie going to the even digit, and then the
    binary64 number nearest to that decimal. *)
Definition round2 (q : Q) : Q := binary64 (round_half_even (q * 100) # 100).

End Num.

(** ** Data model *)

(** A timestamp, in microseconds; the source stores its ISO rendering. *)
Definition time : Type := Z.

Definition one_hour : Z := 3600000000.

Module Location.
Record t := mk { lat : Q; lng : Q }.
End Location.

Module Review.
Record t := mk { rating : Q; comment : string; ts : time }.
End Review.

Module Provider.
Record t := mk {
  id : string;
  name : string;
  service : string;
  language : option string;
  rating : option Q;
  reviews : option (list Review.t);
  available : option bool;
  next_available : option time;
  location : option Location.t
}.

(** [p.get("rating", 0)] *)
Definition get_rating (p : t) : Q := default 0%Q (rating p).
(** [p.get("language", "")] *)
Definition get_language (p : t) : string := default "" (language p).
(** [p.get("available", True)] *)
Definition get_available (p : t) : bool := default true (available p).
(** [p.get("reviews")] read as a list: an absent key counts as no review. *)
Definition get_reviews (p : t) : list Review.t := default [] (reviews p).

Definition set_availability (a : bool) (n : option time) (p : t) : t :=
  mk (id p) (name p) (service p) (language p) (rating p) (reviews p)
     (Some a) n (location p).

Definition set_reviews_rating (rs : list Review.t) (r : Q) (p : t) : t :=
  mk (id p) (name p) (service p) (language p) (Some r) (Some rs)
     (available p) (next_available p) (location p).
End Provider.

Module History.
Record t := mk { ts : time; status : string }.
End History.

Module Booking.
Record t := mk {
  id : string;
  tourist : string;
  provider_id : string;
  provider_name : string;
  service : string;
  language : option string;
  phone : option string;
  status : string;
  created_at : time;
  history : list History.t
}.
End Booking.

(** [default_providers] (source lines 37-44). *)
Definition default_providers : list Provider.t :=
  [ Provider.mk "p1" "Ravi" "Taxi Driver" (Some "Telugu")
      (Some (Num.binary64 (48 # 10))) (Some []) (Some true) None
      (Some (Location.mk (Num.binary64 (1745 # 100))
               (Num.binary64 (7845 # 100))));
    Provider.mk "p2" "Maria" "Tour Guide" (Some "French")
      (Some (Num.binary64 (49 # 10))) (Some []) (Some true) None
      (Some (Location.mk (Num.binary64 (4885 # 100))
               (Num.binary64 (235 # 100))));
    Provider.mk "p3" "Carlos" "City Tour" (Some "Spanish")
      (Some (Num.binary64 (47 # 10))) (Some []) (Some true) None
      (Some (Location.mk (Num.binary64 (1943 # 100))
               (Num.binary64 (- 9913 # 100)))) ].

(** [phrasebook] (source lines 47-53): a dict, in insertion order. *)
Definition phrasebook : list (string * list (string * string)) :=
  [ ("hello", [("French", "Bonjour"); ("Spanish", "Hola"); ("Telugu", "Namaskaram")]);
    ("thank you", [("French", "Merci"); ("Spanish", "Gracias"); ("Telugu", "Dhanyavadalu")]);
    ("how much", [("French", "Combien"); ("Spanish", "Cu√°nto"); ("Telugu", "Enta")]);
    ("where is", [("French", "O√π est"); ("Spanish", "D√≥nde est√°"); ("Telugu", "Ekkada undi")]);
    ("i need a taxi", [("French", "J'ai besoin d'un taxi"); ("Spanish", "Necesito un taxi");
                       ("Telugu", "Naku taxi kavali")]) ].

(** [d.get(k)] on a dict kept as an association list. *)
Fixpoint dict_get {V : Type} (k : string) (d : list (string * V)) : option V :=
  match d with
  | [] => None
  | (k', v) :: r => if String.eqb k' k then Some v else dict_get k r
  end.

(** ** Storage *)

(** What a JSON file holds: one of the two documents the program writes. *)
Inductive document :=
| ProvidersDoc (ps : list Provider.t)
| BookingsDoc (bs : list Booking.t).

(** The content of a file: the document [json.load] reads from it, or text
    on which [json.load] raises. *)
Inductive file_content :=
| Json (d : document)
| Unparsable.

Record filesystem := mkfs {
  data_dir : bool;                          (* the directory DATA_DIR exists *)
  files : gmap string file_content
}.

Definition DATA_DIR : string := "data".
Definition BOOKINGS_FILE : string := "data/bookings.json".
Definition PROVIDERS_FILE : string := "data/providers.json".

(** [ensure_data_dir] (source lines 56-57). [os.makedirs] is taken to
    succeed: the name [data] is free or names a directory that can be
    written to. *)
Definition ensure_data_dir (fs : filesystem) : filesystem :=
  mkfs true (files fs).

(** [load_json] (source lines 59-67): the document, and the file system
    after the call (which may have created the directory). *)
Definition load_json (path : string) (default : document) (fs : filesystem)
  : filesystem * document :=
  let fs := ensure_data_dir fs in
  match files fs !! path with
  | Some (Json d) => (fs, d)
  | Some Unparsable => (fs, default)
  | None => (fs, default)
  end.

(** [save_json] (source lines 69-72): [json.dump] of [data] replaces the
    content of the file; [json.load] reads back what [json.dump] wrote. *)
Definition save_json (path : string) (data : document) (fs : filesystem)
  : filesystem :=
  let fs := ensure_data_dir fs in
  mkfs (data_dir fs) (<[path := Json data]> (files fs)).

(** The program state: the module-level lists and the disk. *)
Record state := mkstate {
  providers : list Provider.t;
  bookings : list Booking.t;
  disk : filesystem
}.

(** ** Sorting *)

(** [l.sort(reverse=True)]: a stable sort in descending order. [lt x y] is
    the comparison [x < y] of the sort keys; an element goes in front of the
    first element that is not greater than it, so that elements the
    comparison does not separate keep their order. *)
Section Sort.
Context {A : Type} (lt : A -> A -> bool).

Fixpoint insert_reverse (x : A) (l : list A) : list A :=
  match l with
  | [] => [x]
  | y :: r => if lt x y then y :: insert_reverse x r else x :: l
  end.

Fixpoint sort_reverse (l : list A) : list A :=
  match l with
  | [] => []
  | x :: r => insert_reverse x (sort_reverse r)
  end.
End Sort.

(** ** [difflib]: the similarity ratio behind [get_close_matches] *)

Module Difflib.

Definition same (x y : option ascii) : bool :=
  match x, y with
  | Some c, Some d => Ascii.eqb c d
  | _, _ => false
  end.

Definition best : Type := nat * nat * nat.

Section SequenceMatcher.
(** The two sequences, [seq1] and [seq2], of a [SequenceMatcher] built
    without a junk predicate. *)
Variables a b : list ascii.

Definition count (c : ascii) : nat := length (List.filter (Ascii.eqb c) b).

(** [__chain_b]: with [autojunk], in a sequence of 200 elements or more,
    an element that makes up more than 1% of it is left out of [b2j]. *)
Definition popular (c : ascii) : bool :=
  (200 <=? length b) && (length b / 100 + 1 <? count c).

Fixpoint indices (c : ascii) (j : nat) (l : list ascii) : list nat :=
  match l with
  | [] => []
  | x :: r =>
      if Ascii.eqb x c then j :: indices c (S j) r else indices c (S j) r
  end.

(** [b2j.get(c, [])] *)
Definition b2j (c : ascii) : list nat :=
  if popular c then [] else indices c 0 b.

(** The inner loop of [find_longest_match], over the positions [js] of
    [a[i]] in [b]. *)
Fixpoint scan_row (blo bhi i : nat) (j2len : gmap nat nat) (js : list nat)
  (newj2len : gmap nat nat) (bst : best) : gmap nat nat * best :=
  match js with
  | [] => (newj2len, bst)
  | j :: r =>
      if j <? blo then scan_row blo bhi i j2len r newj2len bst
      else if bhi <=? j then (newj2len, bst)
      else
        let k := S (match j with
                    | 0 => 0
                    | S j' => default 0 (j2len !! j')
                    end) in
        let '(_, _, bestsize) := bst in
        scan_row blo bhi i j2len r (<[j := k]> newj2len)
          (if bestsize <? k then (i + 1 - k, j + 1 - k, k) else bst)
  end.

(** The outer loop, [for i in range(alo, ahi)]. *)
Fixpoint scan (blo bhi : nat) (range : list nat) (j2len : gmap nat nat)
  (bst : best) : best :=
  match range with
  | [] => bst
  | i :: r =>
      let js := match a !! i with Some c => b2j c | None => [] end in
      let '(newj2len, bst) := scan_row blo bhi i j2len js ∅ bst in
      scan blo bhi r newj2len bst
  end.

(** The two loops that extend the best match by equal elements on each
    end (the loops over junk elements never run: there is no junk). *)
Fixpoint extend_left (alo blo besti bestj bestsize : nat) {struct besti}
  : best :=
  match besti, bestj with
  | S i', S j' =>
      if (alo <? besti) && (blo <? bestj) && same (a !! i') (b !! j')
      then extend_left alo blo i' j' (S bestsize)
      else (besti, bestj, bestsize)
  | _, _ => (besti, bestj, bestsize)
  end.

Fixpoint extend_right (steps ahi bhi besti bestj bestsize : nat) : best :=
  match steps with
  | 0 => (besti, bestj, bestsize)
  | S steps' =>
      if (besti + bestsize <? ahi) && (bestj + bestsize <? bhi)
         && same (a !! (besti + bestsize)) (b !! (bestj + bestsize))
      then extend_right steps' ahi bhi besti bestj (S bestsize)
      else (besti, bestj, bestsize)
  end.

Definition find_longest_match (alo ahi blo bhi : nat) : best :=
  let '(besti, bestj, bestsize) :=
    scan blo bhi (seq alo (ahi - alo)) ∅ (alo, blo, 0) in
  let '(besti, bestj, bestsize) :=
    extend_left alo blo besti bestj bestsize in
  extend_right (ahi - (besti + bestsize)) ahi bhi besti bestj bestsize.

(** The total size of the blocks of [get_matching_blocks]: the longest
    match of the region, then the regions on its left and on its right.
    [depth] bounds the nesting of regions. *)
Fixpoint matching (depth alo ahi blo bhi : nat) : nat :=
  match depth with
  | 0 => 0
  | S depth' =>
      let '(i, j, k) := find_longest_match alo ahi blo bhi in
      if k =? 0 then 0
      else
        k
        + (if (alo <? i) && (blo <? j)
           then matching depth' alo i blo j else 0)
        + (if (i + k <? ahi) && (j + k <? bhi)
           then matching depth' (i + k) ahi (j + k) bhi else 0)
  end.

Definition matches : nat :=
  matching (S (length a)) 0 (length a) 0 (length b).

(** [_calculate_ratio]. The quotient is kept exact: for sequences of fewer
    than 2^26 elements two distinct quotients round to distinct floats in
    the same order, and a quotient is at least the float 0.6 or 0.4 exactly
    when it is at least 6/10 or 4/10. *)
Definition calculate_ratio (m len : nat) : Q :=
  if len =? 0 then 1%Q else (2 * Num.of_nat m / Num.of_nat len)%Q.

Definition ratio : Q := calculate_ratio matches (length a + length b).

(** [quick_ratio]: the size of the multiset intersection. *)
Fixpoint quick_matches (l : list ascii) (avail : gmap ascii Z) (m : nat)
  : nat :=
  match l with
  | [] => m
  | elt :: r =>
      let numb := match avail !! elt with
                  | Some n => n
                  | None => Z.of_nat (count elt)
                  end in
      quick_matches r (<[elt := (numb - 1)%Z]> avail)
        (if (0 <? numb)%Z then S m else m)
  end.

Definition quick_ratio : Q :=
  calculate_ratio (quick_matches a ∅ 0) (length a + length b).

Definition real_quick_ratio : Q :=
  calculate_ratio (Nat.min (length a) (length b)) (length a + length b).
End SequenceMatcher.

(** The order of the pairs [(score, x)]: by score, then by string. *)
Definition pair_ltb (x y : Q * string) : bool :=
  if Qeq_bool (fst x) (fst y) then String.ltb (snd x) (snd y)
  else Num.ltb (fst x) (fst y).

Definition scored (word : string) (cutoff : Q) (x : string)
  : option (Q * string) :=
  let a := Text.chars x in
  let b := Text.chars word in
  if Num.geb (real_quick_ratio a b) cutoff
     && Num.geb (quick_ratio a b) cutoff
     && Num.geb (ratio a b) cutoff
  then Some (ratio a b, x) else None.

(** [get_close_matches(word, possibilities, n, cutoff)] *)
Definition get_close_matches (word : string) (possibilities : list string)
  (n : nat) (cutoff : Q) : list string :=
  let result := omap (scored word cutoff) possibilities in
  map snd (take n (sort_reverse pair_ltb result)).

End Difflib.

(** ** Phrase lookup and translation *)

(** [fuzzy_match_phrase] (source lines 84-88). *)
Definition fuzzy_match_phrase (phrase : option string) : option string :=
  let keys := map fst phrasebook in
  let phrase_norm := normalize_text phrase in
  match Difflib.get_close_matches phrase_norm keys 1 (6 # 10)%Q with
  | c :: _ => Some c
  | [] => None
  end.

(** [translate_phrase] (source lines 113-121): the translation and the
    matched key. *)
Definition translate_phrase (phrase target_lang : option string)
  : option string * option string :=
  match fuzzy_match_phrase phrase with
  | None => (None, None)
  | Some key =>
      if negb (Text.truthy key) then (None, None)
      else
        let translations := default [] (dict_get key phrasebook) in
        let lang := Text.title (Text.strip (Text.or_empty target_lang)) in
        match dict_get lang translations with
        | Some t => (Some t, Some key)
        | None => (None, Some key)
        end
  end.

(** ** Language detection *)

(** A call of foreign code returns a value or raises an exception. *)
Inductive outcome (A : Type) :=
| Returns (x : A)
| Raises.
Arguments Returns {A} x.
Arguments Raises {A}.

(** [try: body / except Exception: return fallback] *)
Definition try_except {A : Type} (body : outcome A) (fallback : A) : outcome A :=
  match body with
  | Returns x => Returns x
  | Raises => Returns fallback
  end.

(** [mapping.get(code, None)] of [detect_language]. *)
Definition mapping : list (string * string) :=
  [("fr", "French"); ("es", "Spanish"); ("te", "Telugu"); ("en", "English")].

Definition french_markers : list string := ["bonjour"; "merci"; "o√π"; "combien"].
Definition spanish_markers : list string := ["hola"; "gracias"; "d√≥nde"; "cu√°nto"].
Definition telugu_markers : list string :=
  ["namaskaram"; "dhanyavadalu"; "enta"; "ekkada"].

(** [any(w in t for w in markers)] *)
Definition any_in (markers : list string) (t : string) : bool :=
  existsb (fun w => Text.contains w t) markers.

Section Detector.
(** Whether [langdetect] could be imported, and its [detect]. *)
Variable LANGDETECT_AVAILABLE : bool.
Variable detect : string -> outcome string.

(** [detect_language] (source lines 91-110); [None] is the "unknown"
    result. *)
Definition detect_language (text : option string) : outcome (option string) :=
  let text := Text.strip (Text.or_empty text) in
  if negb (Text.truthy text) then Returns None
  else if LANGDETECT_AVAILABLE then
    try_except
      (match detect text with
       | Returns code => Returns (dict_get code mapping)
       | Raises => Raises
       end)
      None
  else
    let t := Text.lower text in
    if any_in french_markers t then Returns (Some "French")
    else if any_in spanish_markers t then Returns (Some "Spanish")
    else if any_in telugu_markers t then Returns (Some "Telugu")
    else Returns None.
End Detector.

(** ** Provider matching and scoring *)

(** The normalization [s.strip().title()] of a language label. *)
Definition normalize_language (s : string) : string :=
  Text.title (Text.strip s).

(** [lang] of [match_providers] (source line 125). *)
Definition preferred_lang (preferred_language : option string) : option string :=
  match preferred_language with
  | Some s => if Text.truthy s then Some (normalize_language s) else None
  | None => None
  end.

(** The test of source line 132. *)
Definition language_matches (lang : option string) (p : Provider.t) : bool :=
  match lang with
  | Some l =>
      Text.truthy l
      && String.eqb (normalize_language (Provider.get_language p)) l
  | None => false
  end.

(** The score of one candidate (source lines 131-136). *)
Definition score (lang : option string) (p : Provider.t) : Q :=
  let score := Provider.get_rating p in
  let score := if language_matches lang p then Num.add score 100 else score in
  match Provider.reviews p with
  | Some (r :: rs) =>
      Num.add score
        (Num.min (Num.mul (Num.of_nat (length (r :: rs))) Num.tenth) 1)
  | _ => score
  end.

(** The filter of source line 126. *)
Definition service_matches (service_filter : option string) (p : Provider.t)
  : bool :=
  match service_filter with
  | None => true
  | Some f => Text.contains (Text.lower f) (Text.lower (Provider.service p))
  end.

(** The candidates (source lines 126-128). *)
Definition candidates (service_filter : option string) (only_available : bool)
  (providers : list Provider.t) : list Provider.t :=
  let candidates := List.filter (service_matches service_filter) providers in
  if only_available then List.filter Provider.get_available candidates
  else candidates.

(** [match_providers] (source lines 124-139), on the list [providers]. *)
Definition match_providers (preferred_language service_filter : option string)
  (only_available : bool) (providers : list Provider.t) : list Provider.t :=
  let lang := preferred_lang preferred_language in
  let candidates := candidates service_filter only_available providers in
  let scored := map (fun p => (score lang p, p)) candidates in
  let scored := sort_reverse (fun x y => Num.ltb (fst x) (fst y)) scored in
  map snd scored.

(** ** Bookings, availability and reviews *)

(** [language or provider.get("language")] *)
Definition booking_language (language : option string) (provider : Provider.t)
  : option string :=
  match language with
  | Some l => if Text.truthy l then Some l else Provider.language provider
  | None => Provider.language provider
  end.

(** [create_booking] (source lines 142-157). [uuid] is [str(uuid.uuid4())];
    [now_created] and [now_history] are the two readings of the clock. *)
Definition create_booking (tourist : string) (provider : Provider.t)
  (language phone : option string)
  (uuid : string) (now_created now_history : time) (st : state)
  : state * Booking.t :=
  let booking :=
    Booking.mk (String.substring 0 8 uuid) tourist
      (Provider.id provider) (Provider.name provider) (Provider.service provider)
      (booking_language language provider) phone "Confirmed" now_created
      [History.mk now_history "Confirmed"] in
  let bookings := bookings st ++ [booking] in
  (mkstate (providers st) bookings
     (save_json BOOKINGS_FILE (BookingsDoc bookings) (disk st)),
   booking).

(** The loop [for p in providers: if p["id"] == provider_id: ...; return]:
    the first provider with the id is replaced by [f p]; the new list and
    the new provider are returned, or [None] when the loop runs to its end. *)
Fixpoint update_first (provider_id : string) (f : Provider.t -> Provider.t)
  (ps : list Provider.t) : option (list Provider.t * Provider.t) :=
  match ps with
  | [] => None
  | p :: r =>
      if String.eqb (Provider.id p) provider_id then Some (f p :: r, f p)
      else
        match update_first provider_id f r with
        | Some (r', q) => Some (p :: r', q)
        | None => None
        end
  end.

(** [update_provider_availability] (source lines 159-166). *)
Definition update_provider_availability (provider_id : string)
  (available : bool) (next_available : option time) (st : state)
  : state * bool :=
  match update_first provider_id
          (Provider.set_availability available next_available) (providers st)
  with
  | Some (ps, _) =>
      (mkstate ps (bookings st)
         (save_json PROVIDERS_FILE (ProvidersDoc ps) (disk st)),
       true)
  | None => (st, false)
  end.

(** The body of the loop of [add_review] (source lines 172-174). *)
Definition with_review (rating : Q) (comment : string) (now : time)
  (p : Provider.t) : Provider.t :=
  let reviews := Provider.get_reviews p ++ [Review.mk rating comment now] in
  let ratings := map Review.rating reviews in
  Provider.set_reviews_rating reviews (Num.round2 (Num.mean ratings)) p.

(** [add_review] (source lines 169-177). *)
Definition add_review (provider_id : string) (rating : Q) (comment : string)
  (now : time) (st : state) : state * option Q :=
  match update_first provider_id (with_review rating comment now) (providers st)
  with
  | Some (ps, p) =>
      (mkstate ps (bookings st)
         (save_json PROVIDERS_FILE (ProvidersDoc ps) (disk st)),
       Some (Provider.get_rating p))
  | None => (st, None)
  end.

(** ** The availability toggle of the admin menu *)

Definition is_digit (c : ascii) : bool :=
  let n := Text.code c in (48 <=? n) && (n <=? 57).

(** [s.isdigit()], for an ASCII string. *)
Definition isdigit (s : string) : bool :=
  Text.truthy s && forallb is_digit (Text.chars s).

(** A line as it is typed at the console: ASCII, and of at most 4300
    characters, the number of digits up to which [int] converts. *)
Definition typed (line : string) : bool :=
  Text.is_ascii line && (String.length line <=? 4300).

(** [int(s)] for a string of at most 4300 ASCII digits. *)
Definition int_of_digits (s : string) : Z :=
  fold_left (fun n c => (10 * n + Z.of_nat (Text.code c - 48))%Z) (Text.chars s) 0%Z.

(** Choice 2 of [admin_menu] (source lines 325-341): [sel] is the line read
    from the console, [now] the reading of the clock. *)
Definition toggle_provider_availability (sel : string) (now : time) (st : state)
  : state :=
  if negb (isdigit sel) then st
  else
    let idx := (int_of_digits sel - 1)%Z in
    if (0 <=? idx)%Z && (idx <? Z.of_nat (length (providers st)))%Z then
      match providers st !! Z.to_nat idx with
      | Some p =>
          let new_avail := negb (Provider.get_available p) in
          let next_av := if negb new_avail then Some (now + one_hour)%Z
                         else None in
          fst (update_provider_availability (Provider.id p) new_avail next_av st)
      | None => st
      end
    else st.

(** The providers can be listed: [show_providers] (source lines 212-217)
    reads the key "language" of each and raises [KeyError] without it. *)
Definition listable (ps : list Provider.t) : bool :=
  forallb (fun p => bool_decide (is_Some (Provider.language p))) ps.

(** [admin_menu] (source lines 316-345), without its console output: the
    state that the call leaves, whether it returns or raises. Choice 2
    lists the providers before it reads the selection [sel]; when the
    listing raises, nothing is toggled. *)
Definition admin_menu (choice sel : string) (now : time) (st : state) : state :=
  if String.eqb choice "2" then
    if listable (providers st) then toggle_provider_availability sel now st
    else st
  else st.

(** ** What the specification says of a ranking *)

Section Ranking.
Context {A : Type} (key : A -> Q).

(** The comparison of two elements by their keys. *)
Definition key_ltb (x y : A) : bool := Num.ltb (key x) (key y).

(** [x] may stand before [y] in a descending order. *)
Definition descending (x y : A) : Prop := (key y <= key x)%Q.

Definition has_key (k : Q) (x : A) : bool := Qeq_bool (key x) k.

(** [l'] is [l] sorted by descending key, the elements of equal key being
    in the order they have in [l]. *)
Definition stable_descending (l l' : list A) : Prop :=
  StronglySorted descending l' /\
  forall k, List.filter (has_key k) l' = List.filter (has_key k) l.
End Ranking.


(** ** What the specification says of the score *)

(** "The provider's language equals the preferred language, both
    normalized." *)
Definition language_equal (preferred_language : option string)
  (p : Provider.t) : bool :=
  match preferred_language with
  | Some l =>
      String.eqb (normalize_language (Provider.get_language p))
                 (normalize_language l)
  | None => false
  end.

(** "min(0.1 x number of reviews, 1.0)" *)
Definition experience (p : Provider.t) : Q :=
  Num.min (Num.mul Num.tenth (Num.of_nat (length (Provider.get_reviews p)))) 1.

(** "rating + 100 (added exactly when [bonus]) + the experience (added only
    when the provider has at least one review)", in float arithmetic. *)
Definition score_with (bonus : bool) (p : Provider.t) : Q :=
  let score := Provider.get_rating p in
  let score := if bonus then Num.add score 100 else score in
  if 1 <=? length (Provider.get_reviews p)
  then Num.add score (experience p) else score.

(** The score in the words of the specification: the bonus of 100 goes to
    every provider whose normalized language equals the normalized preferred
    language. *)
Definition spec_score (preferred_language : option string) (p : Provider.t) : Q :=
  score_with (language_equal preferred_language p) p.

(** The same score, the bonus of 100 being given only for a preferred
    language whose normalized form is not empty. *)
Definition guarded_score (preferred_language : option string) (p : Provider.t) : Q :=
  score_with
    (match preferred_language with
     | Some l => Text.truthy (normalize_language l)
     | None => false
     end && language_equal preferred_language p)
    p.

(** A ranking puts the providers of the preferred language first: of two
    ranked providers with ratings between 0 and 5, one whose normalized
    language is the normalized preferred language stands before one whose
    normalized language is not. *)
Definition ranks_language_first (preferred_language : string)
  (ranking : list Provider.t) : Prop :=
  forall (i j : nat) (p q : Provider.t),
    ranking !! i = Some p -> ranking !! j = Some q ->
    normalize_language (Provider.get_language p)
      = normalize_language preferred_language ->
    normalize_language (Provider.get_language q)
      <> normalize_language preferred_language ->
    (0 <= Provider.get_rating p)%Q /\ (Provider.get_rating p <= 5)%Q ->
    (0 <= Provider.get_rating q)%Q /\ (Provider.get_rating q <= 5)%Q ->
    i < j.

(** Two providers apart from the seed data: one without a language label,
    one that speaks French. *)
Definition anna : Provider.t :=
  Provider.mk "a1" "Anna" "Tour Guide" (Some "") (Some 1%Q) (Some [])
    (Some true) None None.

Definition bruno : Provider.t :=
  Provider.mk "b1" "Bruno" "Tour Guide" (Some "French") (Some 5%Q) (Some [])
    (Some true) None None.


(** ** What the specification says of the other operations *)

(** The results of [detect_language]: the four labels and "unknown". *)
Definition detect_results : list (option string) :=
  [Some "French"; Some "Spanish"; Some "Telugu"; Some "English"; None].

(** The state of a first run: the seed providers, no booking, no file. *)
Definition initial_state : state :=
  mkstate default_providers [] (mkfs false ∅).

(** "Every provider whose reviews list is empty has the default rating
    [d]." *)
Definition empty_reviews_have_rating (d : Q) (ps : list Provider.t) : Prop :=
  forall p, p ∈ ps -> Provider.get_reviews p = [] -> Provider.get_rating p == d.

(** "The provider with the id [pid] has a next-available time strictly
    after the call time [now]." *)
Definition next_available_after (now : time) (pid : string) (st : state)
  : Prop :=
  exists p t,
    p ∈ providers st /\ Provider.id p = pid /\
    Provider.next_available p = Some t /\ (now < t)%Z.

(** [i] is the position of the first provider of [ps] with the id [pid],
    the one the loops over [providers] stop at. *)
Definition first_with_id (pid : string) (ps : list Provider.t) (i : nat)
  (p : Provider.t) : Prop :=
  ps !! i = Some p /\ Provider.id p = pid /\
  forall j q, j < i -> ps !! j = Some q -> Provider.id q <> pid.

(** ** Invariants of the longest-match search *)

(** The best match so far lies in [a[alo:ahi]]. *)
Definition within (alo ahi : nat) (bst : Difflib.best) : Prop :=
  let '(besti, _, bestsize) := bst in alo <= besti /\ besti + bestsize <= ahi.

(** No match recorded in [j2len] is longer than [n]. *)
Definition lengths_below (n : nat) (j2len : gmap nat nat) : Prop :=
  forall j v, j2len !! j = Some v -> v <= n.


(** ** Start-up *)

(** The module-level initialisation (source lines 75-76): the two lists are
    read from their files, the seed providers and the empty list being the
    defaults. A file that holds the document of the other list is outside
    what the records represent: [None]. *)
Definition load_state (fs : filesystem) : option state :=
  let '(fs, d1) := load_json PROVIDERS_FILE (ProvidersDoc default_providers) fs in
  let '(fs, d2) := load_json BOOKINGS_FILE (BookingsDoc []) fs in
  match d1, d2 with
  | ProvidersDoc ps, BookingsDoc bs => Some (mkstate ps bs fs)
  | _, _ => None
  end.

(** The two [save_json] calls before [main()] (source lines 378-379). *)
Definition save_state (st : state) : state :=
  let fs := save_json PROVIDERS_FILE (ProvidersDoc (providers st)) (disk st) in
  let fs := save_json BOOKINGS_FILE (BookingsDoc (bookings st)) fs in
  mkstate (providers st) (bookings st) fs.

(** The files hold the two lists of the state. *)
Definition synced (st : state) : Prop :=
  files (disk st) !! PROVIDERS_FILE = Some (Json (ProvidersDoc (providers st)))
  /\ files (disk st) !! BOOKINGS_FILE = Some (Json (BookingsDoc (bookings st))).

(** The fields of a provider that no operation writes. *)
Definition identity (p : Provider.t)
  : string * string * string * option string * option Location.t :=
  (Provider.id p, Provider.name p, Provider.service p, Provider.language p,
   Provider.location p).


(** ** Analytics *)

Section Counter.
Context {K : Type} `{EqDecision K}.

(** [c[k] += 1] on a [Counter] kept in the order of first occurrence. *)
Fixpoint counter_add (k : K) (c : list (K * nat)) : list (K * nat) :=
  match c with
  | [] => [(k, 1)]
  | (k', n) :: r =>
      if bool_decide (k' = k) then (k', S n) :: r
      else (k', n) :: counter_add k r
  end.

(** [Counter(l)] *)
Definition Counter (l : list K) : list (K * nat) :=
  fold_left (fun c k => counter_add k c) l [].

(** [c.most_common(n)]: the [n] greatest counts, ties in the order of the
    counter. *)
Definition most_common (n : nat) (c : list (K * nat)) : list (K * nat) :=
  take n (sort_reverse (fun x y => snd x <? snd y) c).

(** [c[k]] *)
Fixpoint counter_get (k : K) (c : list (K * nat)) : nat :=
  match c with
  | [] => 0
  | (k', n) :: r => if bool_decide (k' = k) then n else counter_get k r
  end.

(** The number of occurrences of [k] in [l]. *)
Definition occurrences (k : K) (l : list K) : nat :=
  length (List.filter (fun x => bool_decide (x = k)) l).
End Counter.

(** The three tables that [analytics_summary] prints. *)
Record tables := mktables {
  langs : list (option string * nat);
  top_services : list (string * nat);
  top_providers : list (string * nat)
}.

(** [analytics_summary] (source lines 197-209): nothing but a notice when
    there is no booking; otherwise the tables that are printed, and then the
    average rating, whose computation divides by the number of providers
    and raises when there is none. A booking always has the key
    "language"; [None] is the null that [create_booking] stores. *)
Definition analytics_summary (st : state) : option (tables * outcome Q) :=
  match bookings st with
  | [] => None
  | _ =>
      let langs := Counter (map Booking.language (bookings st)) in
      let services := Counter (map Booking.service (bookings st)) in
      let top_providers := Counter (map Booking.provider_name (bookings st)) in
      Some (mktables langs (most_common 3 services) (most_common 3 top_providers),
            match providers st with
            | [] => Raises
            | _ => Returns (Num.round2
                              (Num.mean (map Provider.get_rating (providers st))))
            end)
  end.


(** ** The booking flow *)

(** The console. [input()] takes the next line of the standard input and
    raises [EOFError] at its end. A flow runs on the program state and on the
    lines that are left; it ends in a state and either a result with the
    lines it has not read, or [None] for an exception that leaves the flow. *)
Definition flow (A : Type) : Type :=
  state -> list string -> state * option (A * list string).

Definition ret {A : Type} (x : A) : flow A :=
  fun st lines => (st, Some (x, lines)).

Definition bind {A B : Type} (m : flow A) (k : A -> flow B) : flow B :=
  fun st lines =>
    match m st lines with
    | (st', Some (x, lines')) => k x st' lines'
    | (st', None) => (st', None)
    end.

Notation "x <- m ;; k" := (bind m (fun x => k))
  (at level 100, m at next level, right associativity).

Definition raise {A : Type} : flow A := fun st _ => (st, None).

(** [try: body / except Exception: handler] around a body whose only
    exception is the [EOFError] of [input]: when the handler runs no line is
    left. *)
Definition flow_try {A : Type} (body handler : flow A) : flow A :=
  fun st lines =>
    match body st lines with
    | (st', None) => handler st' []
    | r => r
    end.

(** [input(prompt).strip()] *)
Definition input_strip : flow string :=
  fun st lines =>
    match lines with
    | [] => (st, None)
    | line :: rest => (st, Some (Text.strip line, rest))
    end.

Definition get_state : flow state := fun st lines => (st, Some (st, lines)).

(** A call of an operation on the program state. *)
Definition call {A : Type} (f : state -> state * A) : flow A :=
  fun st lines => let '(st', x) := f st in (st', Some (x, lines)).

(** [show_providers] (source lines 212-217), without its output: it reads
    the key "language" of every provider it lists, and raises [KeyError]
    when one has none. *)
Definition show_providers (listing : list Provider.t) : flow unit :=
  if listable listing then ret tt else raise.

(** [s or None] *)
Definition or_none (s : string) : option string :=
  if Text.truthy s then Some s else None.

(** The providers with their positions in the list. *)
Fixpoint enumerate_from (i : nat) (ps : list Provider.t)
  : list (nat * Provider.t) :=
  match ps with
  | [] => []
  | p :: r => (i, p) :: enumerate_from (S i) r
  end.

(** [match_providers] returns the provider objects of the list, not copies:
    the booking flow writes to the one it picks. This is [match_providers]
    with each provider given by its position in [providers]. *)
Definition match_provider_refs (preferred_language service_filter : option string)
  (only_available : bool) (providers : list Provider.t) : list nat :=
  let lang := preferred_lang preferred_language in
  let candidates :=
    List.filter (fun ip => service_matches service_filter (snd ip))
      (enumerate_from 0 providers) in
  let candidates :=
    if only_available
    then List.filter (fun ip => Provider.get_available (snd ip)) candidates
    else candidates in
  let scored := map (fun ip => (score lang (snd ip), fst ip)) candidates in
  map snd (sort_reverse (fun x y => Num.ltb (fst x) (fst y)) scored).

(** The providers that the booking flow offers (source lines 252-255):
    the available matches, or all matches when none is available. *)
Definition offered (pref_lang service_want : option string)
  (providers : list Provider.t) : list nat :=
  let matched := match_provider_refs pref_lang service_want true providers in
  match matched with
  | [] => match_provider_refs pref_lang service_want false providers
  | _ => matched
  end.

(** What [float(s)] gives: a finite number, an infinity or a NaN, or a
    [ValueError]. *)
Inductive parsed_float :=
| Finite (r : Q)
| NotFinite
| NotAFloat.

(** How the rating step of the flow ends. *)
Inductive review_end :=
| NotCompleted
| Reviewed (new_avg : option Q)
| OutOfRange
| InvalidRating.

(** How the booking flow ends. *)
Inductive flow_end :=
| NameEmpty
| Cancelled
| InvalidInput
| InvalidSelection
| Booked (booking : Booking.t) (review : review_end).

Section BookingFlow.
(** [float], and what [uuid.uuid4] and the four readings of the clock give. *)
Variable float : string -> parsed_float.
Variable uuid : string.
Variables now_schedule now_created now_history now_review : time.

(** The rating step (source lines 294-304). Its [try] catches the
    [ValueError] of [float], raised before any line is read inside the
    [try], and the [EOFError] of the second [input]. *)
Definition rate_experience (provider_id : string) : flow review_end :=
  rating <- input_strip ;;
  match float rating with
  | Finite r =>
      if Qle_bool 1 r && Qle_bool r 5 then
        flow_try
          (comment <- input_strip ;;
           new_avg <- call (add_review provider_id r comment now_review) ;;
           ret (Reviewed new_avg))
          (ret InvalidRating)
      else ret OutOfRange
  | NotFinite => ret OutOfRange
  | NotAFloat => ret InvalidRating
  end.

(** The scheduling of a busy provider (source lines 268-277): [None] when
    the user declines, the provider as it is afterwards otherwise. *)
Definition schedule_provider (i : nat) (provider : Provider.t)
  : flow (option Provider.t) :=
  if negb (Provider.get_available provider) then
    schedule <- input_strip ;;
    if negb (String.eqb (Text.lower schedule) "y") then ret None
    else
      let provider :=
        Provider.set_availability false (Some (now_schedule + one_hour)%Z)
          provider in
      call (fun st =>
              let ps := <[i := provider]> (providers st) in
              (mkstate ps (bookings st)
                 (save_json PROVIDERS_FILE (ProvidersDoc ps) (disk st)),
               Some provider))
  else ret (Some provider).

(** What follows the booking (source lines 287-304): the offer of the map,
    then the trip completion and the rating. *)
Definition complete_trip (provider : Provider.t) (booking : Booking.t)
  : flow flow_end :=
  open_map <- input_strip ;;
  complete <- input_strip ;;
  if String.eqb (Text.lower complete) "y" then
    review <- rate_experience (Provider.id provider) ;;
    ret (Booked booking review)
  else ret (Booked booking NotCompleted).

(** The booking of the provider at position [i] (source lines 266-304). *)
Definition book_provider (name : string) (phone pref_lang : option string)
  (i : nat) : flow flow_end :=
  st <- get_state ;;
  match providers st !! i with
  | None => ret InvalidSelection
  | Some provider =>
      scheduled <- schedule_provider i provider ;;
      match scheduled with
      | None => ret Cancelled
      | Some provider =>
          booking <- call (create_booking name provider pref_lang phone uuid
                             now_created now_history) ;;
          complete_trip provider booking
      end
  end.

(** [book_service_flow] (source lines 244-306), without its console
    output, the notification and the map. *)
Definition book_service_flow : flow flow_end :=
  name <- input_strip ;;
  if negb (Text.truthy name) then ret NameEmpty
  else
    phone <- input_strip ;;
    pref_lang <- input_strip ;;
    service_want <- input_strip ;;
    let phone := or_none phone in
    let pref_lang := or_none (Text.title pref_lang) in
    let service_want := or_none (Text.lower service_want) in
    st <- get_state ;;
    let matched := offered pref_lang service_want (providers st) in
    shown <- show_providers (omap (fun i => providers st !! i) matched) ;;
    choice <- input_strip ;;
    if String.eqb (Text.lower choice) "c" then ret Cancelled
    else if negb (isdigit choice) then ret InvalidInput
    else
      let idx := (int_of_digits choice - 1)%Z in
      if (0 <=? idx)%Z && (idx <? Z.of_nat (length matched))%Z then
        match matched !! Z.to_nat idx with
        | Some i => book_provider name phone pref_lang i
        | None => ret InvalidSelection
        end
      else ret InvalidSelection.
End BookingFlow.


(** The state after the scheduling of the busy provider at position [i]. *)
Definition scheduled_state (i : nat) (p : Provider.t) (t : time) (st : state)
  : state :=
  let ps := <[i := Provider.set_availability false (Some (t + one_hour)%Z) p]>
              (providers st) in
  mkstate ps (bookings st)
    (save_json PROVIDERS_FILE (ProvidersDoc ps) (disk st)).

(** Every review of every provider has a rating between 1 and 5. *)
Definition reviews_in_range (ps : list Provider.t) : Prop :=
  Forall (fun p =>
            Forall (fun rv => 1 <= Review.rating rv /\ Review.rating rv <= 5)%Q
              (Provider.get_reviews p)) ps.

(** The rating of every provider that has a review is the rounded mean of
    the ratings of its reviews. *)
Definition ratings_consistent (ps : list Provider.t) : Prop :=
  Forall (fun p =>
            Provider.get_reviews p <> [] ->
            Provider.rating p
            = Some (Num.round2
                      (Num.mean (map Review.rating (Provider.get_reviews p)))))
    ps.

(** One change of the state by the booking flow: the scheduling of a busy
    provider, a booking, or a review with a rating between 1 and 5. *)
Inductive flow_step : state -> state -> Prop :=
| step_schedule (st : state) (i : nat) (p : Provider.t) (t : time) :
    providers st !! i = Some p ->
    flow_step st (scheduled_state i p t st)
| step_booking (st : state) tourist p language phone uuid t1 t2 :
    flow_step st (fst (create_booking tourist p language phone uuid t1 t2 st))
| step_review (st : state) pid (r : Q) comment t :
    (1 <= r)%Q -> (r <= 5)%Q ->
    flow_step st (fst (add_review pid r comment t st)).


(** The end of a booking flow once the booking [b] is made, from the state
    [st2] after [create_booking]: either nothing more changes and no review
    is recorded, or one review with a rating between 1 and 5 is added for
    the id [pid]. *)
Definition review_run (pid : string) (now_review : time) (b : Booking.t)
  (st2 st' : state) (r : option (flow_end * list string)) : Prop :=
  (st' = st2 /\
   (r = None \/
    exists rest e, r = Some (Booked b e, rest) /\ forall x, e <> Reviewed x))
  \/
  (exists q c rest,
     (1 <= q)%Q /\ (q <= 5)%Q /\
     st' = fst (add_review pid q c now_review st2) /\
     r = Some (Booked b (Reviewed (snd (add_review pid q c now_review st2))),
               rest)).

(** A booking flow that books the provider [p] at position [i]: a busy
    provider is first scheduled, then the booking is created, then the flow
    ends as [review_run] says. *)
Definition booking_run (uuid : string)
  (now_schedule now_created now_history now_review : time)
  (name : string) (phone pref_lang : option string) (i : nat) (p : Provider.t)
  (st st' : state) (r : option (flow_end * list string)) : Prop :=
  exists p1 st1,
    ((Provider.get_available p = true /\ p1 = p /\ st1 = st) \/
     (Provider.get_available p = false /\
      p1 = Provider.set_availability false (Some (now_schedule + one_hour)%Z) p /\
      st1 = scheduled_state i p now_schedule st)) /\
    review_run (Provider.id p) now_review
      (snd (create_booking name p1 pref_lang phone uuid now_created now_history st1))
      (fst (create_booking name p1 pref_lang phone uuid now_created now_history st1))
      st' r.

(** A flow that ends without a booking: an exception, or one of the four
    early returns. *)
Definition no_booking (r : option (flow_end * list string)) : Prop :=
  r = None \/
  exists rest e, r = Some (e, rest) /\
    (e = NameEmpty \/ e = Cancelled \/ e = InvalidInput \/ e = InvalidSelection).


(** What a change of the state by the booking flow keeps: the providers'
    identities, the agreement of files and memory, the range of the review
    ratings, the consistency of the stored ratings, and the bookings made
    so far. *)
Definition kept (st st' : state) : Prop :=
  map identity (providers st') = map identity (providers st) /\
  (synced st -> synced st') /\
  (reviews_in_range (providers st) -> reviews_in_range (providers st')) /\
  (ratings_consistent (providers st) -> ratings_consistent (providers st')) /\
  exists bs, bookings st' = bookings st ++ bs.


(** ** What [normalize_text] produces *)

(** A character of a normalized word: not an upper-case letter, not a
    punctuation character, not a space. *)
Definition plain (c : ascii) : bool :=
  negb (Text.is_upper c) && negb (Text.is_punctuation c)
  && negb (Text.is_space c).

(** A list of non-empty words of plain characters. *)
Definition plain_words (ws : list string) : Prop :=
  Forall (fun w => w <> "" /\ Forall (fun c => plain c = true) (Text.chars w)) ws.

(** The characters of the words joined by single spaces. *)
Fixpoint join_chars (ws : list string) : list ascii :=
  match ws with
  | [] => []
  | [w] => Text.chars w
  | w :: ws' => Text.chars w ++ " "%char :: join_chars ws'
  end.


(** ** The other console flows and the main loop *)

(** How [translate_message_flow] ends. *)
Inductive translate_end :=
| NoInput
| Translated (key : option string) (target translated : string)
| NoTranslation (key target : string)
| DidYouMean (close : list string)
| NotAvailable.

(** Truthiness of a value that is a string or [None]. *)
Definition truthy_opt (o : option string) : bool :=
  Text.truthy (Text.or_empty o).

(** What [uuid.uuid4] and the clock give during one turn of the main loop. *)
Record readings := mkreadings {
  uuid4 : string;
  now_schedule : time;
  now_created : time;
  now_history : time;
  now_review : time;
  now_toggle : time
}.

(** How the main loop ends: by the option 6, or by an exception that
    [main] does not catch. *)
Inductive session_end :=
| Exited
| Crashed.

Section Console.
Variable LANGDETECT_AVAILABLE : bool.
Variable detect : string -> outcome string.
Variable float : string -> parsed_float.
(** The readings of the [n]-th turn of the main loop. *)
Variable env : nat -> readings.

(** [translate_message_flow] (source lines 219-242), without its output. *)
Definition translate_message_flow : flow translate_end :=
  phrase <- input_strip ;;
  if negb (Text.truthy phrase) then ret NoInput
  else
    match detect_language LANGDETECT_AVAILABLE detect (Some phrase) with
    | Raises => raise
    | Returns detected =>
        target <- input_strip ;;
        let target :=
          if negb (Text.truthy target) && truthy_opt detected
          then Text.or_empty detected else target in
        let '(translated, matched_key) :=
          translate_phrase (Some phrase) (Some target) in
        if truthy_opt translated
        then ret (Translated matched_key (normalize_language target)
                    (Text.or_empty translated))
        else if truthy_opt matched_key
        then ret (NoTranslation (Text.or_empty matched_key)
                    (normalize_language target))
        else
          let keys := map fst phrasebook in
          match Difflib.get_close_matches (normalize_text (Some phrase))
                  keys 3 (4 # 10)%Q with
          | [] => ret NotAvailable
          | close => ret (DidYouMean close)
          end
    end.

(** [admin_menu] (source lines 316-345) as a flow: it reads its choice and
    its selection from the console, and the analytics and the listing of
    the providers can raise. *)
Definition admin_menu_flow (now : time) : flow unit :=
  choice <- input_strip ;;
  st <- get_state ;;
  if String.eqb choice "1" then
    match analytics_summary st with
    | Some (_, Raises) => raise
    | _ => ret tt
    end
  else if String.eqb choice "2" then
    shown <- show_providers (providers st) ;;
    sel <- input_strip ;;
    call (fun st => (toggle_provider_availability sel now st, tt))
  else if String.eqb choice "3" then show_providers (providers st)
  else ret tt.

(** The loop of [main] (source lines 349-372). [turns] bounds the number
    of turns and [n] counts them; each turn reads at least one line. *)
Fixpoint main_loop (turns n : nat) : flow session_end :=
  match turns with
  | 0 => ret Crashed
  | S turns' =>
      option <- input_strip ;;
      if String.eqb option "1" then
        translated <- translate_message_flow ;; main_loop turns' (S n)
      else if String.eqb option "2" then
        st <- get_state ;;
        shown <- show_providers (providers st) ;; main_loop turns' (S n)
      else if String.eqb option "3" then
        booked <- book_service_flow float (uuid4 (env n))
                    (now_schedule (env n)) (now_created (env n))
                    (now_history (env n)) (now_review (env n)) ;;
        main_loop turns' (S n)
      else if String.eqb option "4" then main_loop turns' (S n)
      else if String.eqb option "5" then
        done <- admin_menu_flow (now_toggle (env n)) ;; main_loop turns' (S n)
      else if String.eqb option "6" then ret Exited
      else main_loop turns' (S n)
  end.

(** The program (source lines 376-380, 347-374) on the standard input
    [lines], from the state loaded at import: the final state and the way
    the loop ended. An exception other than [KeyboardInterrupt] leaves
    [main]; the state it leaves behind is the state of that moment. *)
Definition main (st : state) (lines : list string) : state * session_end :=
  match main_loop (S (length lines)) 0 (save_state st) lines with
  | (st', Some (e, _)) => (st', e)
  | (st', None) => (st', Crashed)
  end.
End Console.


(** A flow reads the lines in order: what it leaves is not longer than what
    it was given. *)
Definition consumes {A : Type} (m : flow A) : Prop :=
  forall st lines st' x rest,
    m st lines = (st', Some (x, rest)) -> length rest <= length lines.

(** A flow keeps what [kept] lists, however it ends. *)
Definition keeps {A : Type} (m : flow A) : Prop :=
  forall st lines, kept st (fst (m st lines)).


(** What [show_providers] and [analytics_summary] need of the providers:
    there is one, and each has the key "language". *)
Definition listed (st : state) : Prop :=
  providers st <> [] /\
  Forall (fun p => is_Some (Provider.language p)) (providers st).

(** A run on [lines] that read at most [n] of them, in order, and that no
    exception ended unless fewer than [n] lines were left. *)
Definition reads {A : Type} (n : nat) (lines : list string)
  (r : state * option (A * list string)) : Prop :=
  match r with
  | (_, None) => length lines < n
  | (_, Some (_, rest)) =>
      rest `suffix_of` lines /\ length lines <= length rest + n
  end.

(** A flow that runs so from every state. *)
Definition runs {A : Type} (n : nat) (m : flow A) : Prop :=
  forall st lines, reads n lines (m st lines).

(** * Properties *)

(** ** Facts about the text utilities *)

Lemma prefix_app (sub s : string) :
  String.prefix sub s = true <-> exists post, s = sub +:+ post.
Proof.
  revert s. induction sub as [|c sub IH]; intros s; simpl.
  - split; [intros _; exists s; reflexivity | by destruct s].
  - destruct s as [|d s]; simpl.
    + split; [discriminate | intros [post H]; discriminate].
    + destruct (ascii_dec c d) as [->|Hne].
      * rewrite IH. split; intros [post H]; exists post; [by rewrite H|].
        by injection H.
      * split; [discriminate | intros [post H]]. injection H as H1 H2.
        by destruct Hne.
Qed.

Lemma contains_empty (sub : string) :
  Text.contains sub "" = String.prefix sub "" || false.
Proof. reflexivity. Qed.

Lemma contains_String (sub : string) (c : ascii) (s : string) :
  Text.contains sub (String c s)
  = String.prefix sub (String c s) || Text.contains sub s.
Proof. reflexivity. Qed.

(** [Text.contains sub s] decides that [sub] occurs in [s]. *)
Lemma contains_spec (sub s : string) :
  Text.contains sub s = true <-> exists pre post, s = pre +:+ sub +:+ post.
Proof.
  induction s as [|c s IH].
  - rewrite contains_empty, orb_false_r, prefix_app. split.
    + intros [post H]. exists "", post. exact H.
    + intros [pre [post H]]. destruct pre; simpl in H; [|discriminate].
      exists post. exact H.
  - rewrite contains_String, orb_true_iff, prefix_app, IH. split.
    + intros [[post H] | [pre [post H]]].
      * exists "", post. exact H.
      * exists (String c pre), post. simpl. by rewrite H.
    + intros [pre [post H]]. destruct pre as [|d pre]; simpl in H.
      * left. exists post. exact H.
      * right. exists pre, post. by injection H.
Qed.

(** ** Facts about numbers *)

Lemma ltb_lt (x y : Q) : Num.ltb x y = true <-> (x < y)%Q.
Proof. unfold Num.ltb, Qlt. apply Z.ltb_lt. Qed.

Lemma ltb_ge (x y : Q) : Num.ltb x y = false <-> (y <= x)%Q.
Proof. unfold Num.ltb, Qle. apply Z.ltb_ge. Qed.

Lemma min_le_r (x y : Q) : (Num.min x y <= y)%Q.
Proof.
  unfold Num.min. destruct (Num.ltb y x) eqn:E.
  - apply Qle_refl.
  - by apply ltb_ge in E.
Qed.

Lemma min_nonneg (x y : Q) : (0 <= x)%Q -> (0 <= y)%Q -> (0 <= Num.min x y)%Q.
Proof. unfold Num.min. by destruct (Num.ltb y x). Qed.

Lemma of_nat_nonneg (n : nat) : (0 <= Num.of_nat n)%Q.
Proof.
  unfold Num.of_nat, Qle. simpl. lia.
Qed.

(** ** Rounding to the nearest integer *)

Lemma round_half_even_bounds (q : Q) (m : Z) :
  ((inject_Z m <= q)%Q -> (m <= Num.round_half_even q)%Z) /\
  ((q <= inject_Z m)%Q -> (Num.round_half_even q <= m)%Z).
Proof.
  pose proof (Qfloor_le q) as Hfloor. pose proof (Qlt_floor q) as Hnext.
  rewrite inject_Z_plus in Hnext. change (inject_Z 1) with 1%Q in Hnext.
  unfold Num.round_half_even.
  assert ((inject_Z m <= q)%Q -> (m <= Qfloor q)%Z) as Hlow.
  { intros H. rewrite <- (Qfloor_Z m). by apply Qfloor_resp_le. }
  assert ((q <= inject_Z m)%Q -> (Qfloor q <= m)%Z) as Hup.
  { intros H. rewrite <- (Qfloor_Z m). by apply Qfloor_resp_le. }
  assert ((q <= inject_Z m)%Q -> (inject_Z (Qfloor q) < q)%Q ->
          (Qfloor q + 1 <= m)%Z) as Hup'.
  { intros H1 H2. assert (Qfloor q < m)%Z; [|lia].
    rewrite Zlt_Qlt. by apply Qlt_le_trans with q. }
  destruct (q - inject_Z (Qfloor q) ?= 1 # 2)%Q eqn:C.
  - apply Qeq_alt in C. destruct (Z.even (Qfloor q)).
    + split; auto.
    + split; intros H; [specialize (Hlow H); lia|]. apply Hup'; [done|lra].
  - split; auto.
  - apply Qgt_alt in C.
    split; intros H; [specialize (Hlow H); lia|]. apply Hup'; [done|lra].
Qed.

Lemma round_half_even_error (q : Q) :
  (- (1 # 2) <= inject_Z (Num.round_half_even q) - q /\
   inject_Z (Num.round_half_even q) - q <= 1 # 2)%Q.
Proof.
  pose proof (Qfloor_le q) as Hfloor. pose proof (Qlt_floor q) as Hnext.
  rewrite inject_Z_plus in Hnext. change (inject_Z 1) with 1%Q in Hnext.
  unfold Num.round_half_even.
  destruct (q - inject_Z (Qfloor q) ?= 1 # 2)%Q eqn:C.
  - apply Qeq_alt in C. destruct (Z.even (Qfloor q));
      rewrite ?inject_Z_plus; change (inject_Z 1) with 1%Q; split; lra.
  - apply Qlt_alt in C. split; lra.
  - apply Qgt_alt in C. rewrite inject_Z_plus.
    change (inject_Z 1) with 1%Q. split; lra.
Qed.

(** ** Rounding to binary64 *)

Lemma pow2_pos (e : Z) : (0 < 2 ^ e)%Q.
Proof. by apply Qpower_0_lt. Qed.

Lemma pow2_le (a b : Z) : (a <= b)%Z -> (2 ^ a <= 2 ^ b)%Q.
Proof. intros H. apply Qpower_le_compat_l; [done|discriminate]. Qed.

Lemma pow2_plus (a b : Z) : (2 ^ (a + b) == 2 ^ a * 2 ^ b)%Q.
Proof. by apply Qpower_plus. Qed.

Lemma pow2_cancel (e : Z) : (2 ^ (- e) * 2 ^ e == 1)%Q.
Proof. rewrite <- pow2_plus. by replace (- e + e)%Z with 0%Z by lia. Qed.

Lemma pow2_Z (a : Z) : (0 <= a)%Z -> (inject_Z (2 ^ a) == 2 ^ a)%Q.
Proof. intros H. by rewrite Zpower_Qpower. Qed.

Lemma round_half_even_proper (x y : Q) :
  (x == y)%Q -> Num.round_half_even x = Num.round_half_even y.
Proof.
  intros H. unfold Num.round_half_even.
  assert (Qfloor x = Qfloor y) as -> by (by rewrite H).
  assert ((x - inject_Z (Qfloor y) ?= 1 # 2)%Q
          = (y - inject_Z (Qfloor y) ?= 1 # 2)%Q) as ->; [|done].
  apply Qcompare_comp; [by rewrite H|done].
Qed.

Lemma round_half_even_Z (z : Z) : Num.round_half_even (inject_Z z) = z.
Proof.
  destruct (round_half_even_bounds (inject_Z z) z) as [H1 H2].
  specialize (H1 (Qle_refl _)). specialize (H2 (Qle_refl _)). lia.
Qed.

Lemma round_half_even_mono (x y : Q) :
  (x <= y)%Q -> (Num.round_half_even x <= Num.round_half_even y)%Z.
Proof.
  intros Hxy.
  destruct (Z.le_gt_cases (Num.round_half_even x) (Num.round_half_even y))
    as [H|H]; [done|].
  destruct (round_half_even_error x) as [_ Hx].
  destruct (round_half_even_error y) as [Hy _].
  assert (Num.round_half_even y + 1 <= Num.round_half_even x)%Z as H' by lia.
  rewrite Zle_Qle, inject_Z_plus in H'. change (inject_Z 1) with 1%Q in H'.
  assert (x == y)%Q as Heq by lra.
  apply round_half_even_proper in Heq. lia.
Qed.

Lemma ilog2_spec (q : Q) :
  (0 < q)%Q -> (2 ^ Num.ilog2 q <= q /\ q < 2 ^ (Num.ilog2 q + 1))%Q.
Proof.
  intros Hq. destruct q as [n d]. unfold Num.ilog2. cbn [Qnum Qden].
  assert (0 < n)%Z as Hn by (unfold Qlt in Hq; simpl in Hq; lia).
  set (a := Z.log2 n). set (b := Z.log2 (Z.pos d)).
  destruct (Z.log2_spec n Hn) as [Ha1 Ha2]. fold a in Ha1, Ha2.
  destruct (Z.log2_spec (Z.pos d) (Pos2Z.is_pos d)) as [Hb1 Hb2].
  fold b in Hb1, Hb2.
  assert (0 <= a)%Z as Ha0 by apply Z.log2_nonneg.
  assert (0 <= b)%Z as Hb0 by apply Z.log2_nonneg.
  rewrite Zle_Qle in Ha1. rewrite Zle_Qle in Hb1.
  rewrite Zlt_Qlt in Ha2. rewrite Zlt_Qlt in Hb2.
  rewrite pow2_Z in Ha1 by lia. rewrite pow2_Z in Hb1 by lia.
  rewrite pow2_Z in Ha2 by lia. rewrite pow2_Z in Hb2 by lia.
  assert (0 < inject_Z (Z.pos d))%Q as Hd
    by (change 0%Q with (inject_Z 0); rewrite <- Zlt_Qlt; lia).
  assert (n # d == inject_Z n / inject_Z (Z.pos d))%Q as Hdiv
    by apply Qmake_Qdiv.
  destruct (Qle_bool (2 ^ (a - b)) (n # d)) eqn:E.
  - apply Qle_bool_iff in E. split; [done|]. rewrite Hdiv.
    apply Qlt_shift_div_r; [done|].
    apply Qlt_le_trans with (2 ^ (Z.succ a))%Q; [done|].
    replace (Z.succ a) with ((a - b + 1) + b)%Z by lia. rewrite pow2_plus.
    apply Qmult_le_l; [apply pow2_pos|done].
  - assert (n # d < 2 ^ (a - b))%Q as E'.
    { apply Qnot_le_lt. intros H. apply Qle_bool_iff in H. congruence. }
    replace (a - b - 1 + 1)%Z with (a - b)%Z by lia. split; [|done].
    rewrite Hdiv. apply Qle_shift_div_l; [done|].
    apply Qle_trans with (2 ^ a)%Q; [|done].
    replace a with ((a - b - 1) + Z.succ b)%Z at 2 by lia. rewrite pow2_plus.
    apply Qmult_le_l; [apply pow2_pos|]. by apply Qlt_le_weak.
Qed.

Lemma ilog2_mono (x y : Q) :
  (0 < x)%Q -> (x <= y)%Q -> (Num.ilog2 x <= Num.ilog2 y)%Z.
Proof.
  intros Hx Hxy.
  destruct (ilog2_spec x Hx) as [H1 _].
  destruct (ilog2_spec y) as [_ H2]; [by apply Qlt_le_trans with x|].
  assert (2 ^ Num.ilog2 x < 2 ^ (Num.ilog2 y + 1))%Q as H.
  { apply Qle_lt_trans with x; [done|]. by apply Qle_lt_trans with y. }
  apply Qpower_lt_compat_l_inv in H; [lia|done].
Qed.

Lemma exponent_mono (x y : Q) :
  (0 < x)%Q -> (x <= y)%Q -> (Num.exponent x <= Num.exponent y)%Z.
Proof.
  intros Hx Hxy. pose proof (ilog2_mono x y Hx Hxy). unfold Num.exponent. lia.
Qed.

Lemma nearest_value (q : Q) :
  (Num.nearest q
   == inject_Z (Num.round_half_even (q * 2 ^ (- Num.exponent q)))
      * 2 ^ Num.exponent q)%Q.
Proof. unfold Num.nearest. apply Qred_correct. Qed.

(** The mantissa has at most 53 bits, and exactly 53 for a normal number. *)
Lemma mantissa_le (q : Q) :
  (0 < q)%Q ->
  (Num.round_half_even (q * 2 ^ (- Num.exponent q)) <= 2 ^ 53)%Z.
Proof.
  intros Hq. apply round_half_even_bounds.
  destruct (ilog2_spec q Hq) as [_ H].
  rewrite pow2_Z by done.
  apply Qle_trans with (2 ^ (Num.ilog2 q + 1) * 2 ^ (- Num.exponent q))%Q.
  - apply Qmult_le_compat_r; [by apply Qlt_le_weak|].
    apply Qlt_le_weak, pow2_pos.
  - rewrite <- pow2_plus. apply pow2_le. unfold Num.exponent. lia.
Qed.

Lemma mantissa_ge (q : Q) :
  (0 < q)%Q -> Num.exponent q = (Num.ilog2 q - 52)%Z ->
  (2 ^ 52 <= Num.round_half_even (q * 2 ^ (- Num.exponent q)))%Z.
Proof.
  intros Hq He. apply round_half_even_bounds.
  destruct (ilog2_spec q Hq) as [H _].
  rewrite pow2_Z by done.
  apply Qle_trans with (2 ^ Num.ilog2 q * 2 ^ (- Num.exponent q))%Q.
  - rewrite <- pow2_plus. apply pow2_le. lia.
  - apply Qmult_le_compat_r; [done|]. apply Qlt_le_weak, pow2_pos.
Qed.

Lemma nearest_mono (x y : Q) :
  (0 < x)%Q -> (x <= y)%Q -> (Num.nearest x <= Num.nearest y)%Q.
Proof.
  intros Hx Hxy. assert (0 < y)%Q as Hy by (by apply Qlt_le_trans with x).
  rewrite !nearest_value.
  pose proof (exponent_mono x y Hx Hxy) as He.
  destruct (Z.eq_dec (Num.exponent x) (Num.exponent y)) as [Heq|Hne].
  - rewrite Heq. apply Qmult_le_compat_r; [|apply Qlt_le_weak, pow2_pos].
    rewrite <- Zle_Qle. apply round_half_even_mono.
    apply Qmult_le_compat_r; [done|]. apply Qlt_le_weak, pow2_pos.
  - pose proof (mantissa_le x Hx) as Hmx.
    pose proof (mantissa_ge y Hy) as Hmy.
    assert (Num.exponent y = (Num.ilog2 y - 52)%Z) as Hey.
    { unfold Num.exponent in *. lia. }
    specialize (Hmy Hey).
    rewrite Zle_Qle, pow2_Z in Hmx, Hmy by done.
    apply Qle_trans with (2 ^ 53 * 2 ^ Num.exponent x)%Q.
    { apply Qmult_le_compat_r; [done|]. apply Qlt_le_weak, pow2_pos. }
    apply Qle_trans with (2 ^ 52 * 2 ^ Num.exponent y)%Q.
    { rewrite <- !pow2_plus. apply pow2_le. lia. }
    apply Qmult_le_compat_r; [done|]. apply Qlt_le_weak, pow2_pos.
Qed.

Lemma nearest_nonneg (q : Q) : (0 < q)%Q -> (0 <= Num.nearest q)%Q.
Proof.
  intros Hq. rewrite nearest_value.
  apply Qmult_le_0_compat; [|apply Qlt_le_weak, pow2_pos].
  change 0%Q with (inject_Z 0). rewrite <- Zle_Qle.
  apply round_half_even_bounds. change (inject_Z 0) with 0%Q.
  apply Qmult_le_0_compat; [by apply Qlt_le_weak|].
  apply Qlt_le_weak, pow2_pos.
Qed.

Lemma binary64_pos (q : Q) : (0 < q)%Q -> Num.binary64 q = Num.nearest q.
Proof.
  destruct q as [[|n|n] d]; unfold Qlt; simpl; intros H; try lia.
  reflexivity.
Qed.

Lemma binary64_zero (q : Q) : (q == 0)%Q -> Num.binary64 q = 0%Q.
Proof.
  destruct q as [[|n|n] d]; unfold Qeq; simpl; intros H; try lia.
  reflexivity.
Qed.

Lemma binary64_neg (q : Q) :
  (q < 0)%Q -> (Num.binary64 q == - Num.nearest (- q))%Q.
Proof.
  destruct q as [[|n|n] d]; unfold Qlt; simpl; intros H; try lia.
  unfold Num.binary64. cbn [Qnum]. apply Qred_correct.
Qed.

(** Rounding to binary64 is monotone. *)
Lemma binary64_mono (x y : Q) :
  (x <= y)%Q -> (Num.binary64 x <= Num.binary64 y)%Q.
Proof.
  intros Hxy.
  destruct (Q_dec x 0) as [[Hx|Hx]|Hx]; destruct (Q_dec y 0) as [[Hy|Hy]|Hy].
  - rewrite (binary64_neg x Hx), (binary64_neg y Hy).
    apply Qopp_le_compat, nearest_mono; lra.
  - rewrite (binary64_neg x Hx), (binary64_pos y Hy).
    pose proof (nearest_nonneg y Hy). pose proof (nearest_nonneg (- x)).
    lra.
  - rewrite (binary64_neg x Hx), (binary64_zero y Hy).
    pose proof (nearest_nonneg (- x)). lra.
  - lra.
  - rewrite (binary64_pos x Hx), (binary64_pos y Hy). by apply nearest_mono.
  - lra.
  - lra.
  - rewrite (binary64_zero x Hx), (binary64_pos y Hy). by apply nearest_nonneg.
  - rewrite (binary64_zero x Hx), (binary64_zero y Hy). lra.
Qed.

Lemma ilog2_Z (z : Z) : (0 < z)%Z -> Num.ilog2 (inject_Z z) = Z.log2 z.
Proof.
  intros Hz. unfold Num.ilog2, inject_Z. cbn [Qnum Qden].
  change (Z.log2 1) with 0%Z. rewrite Z.sub_0_r.
  destruct (Z.log2_spec z Hz) as [H _].
  assert (Qle_bool (2 ^ Z.log2 z) (z # 1) = true) as ->; [|done].
  apply Qle_bool_iff. rewrite <- pow2_Z by apply Z.log2_nonneg.
  change (z # 1) with (inject_Z z). by rewrite <- Zle_Qle.
Qed.

Lemma nearest_Z (z : Z) :
  (0 < z < 2 ^ 53)%Z -> (Num.nearest (inject_Z z) == inject_Z z)%Q.
Proof.
  intros [Hz Hlt]. rewrite nearest_value.
  assert (Num.exponent (inject_Z z) = (Z.log2 z - 52)%Z) as ->.
  { unfold Num.exponent. rewrite ilog2_Z by done.
    pose proof (Z.log2_nonneg z). lia. }
  assert (Z.log2 z < 53)%Z as Hlog by (apply Z.log2_lt_pow2; lia).
  pose proof (Z.log2_nonneg z) as Hlog0.
  assert (inject_Z z * 2 ^ (- (Z.log2 z - 52))
          == inject_Z (z * 2 ^ (52 - Z.log2 z)))%Q as Hscaled.
  { rewrite inject_Z_mult, pow2_Z by lia.
    by replace (- (Z.log2 z - 52))%Z with (52 - Z.log2 z)%Z by lia. }
  rewrite (round_half_even_proper _ _ Hscaled).
  rewrite round_half_even_Z, inject_Z_mult, pow2_Z by lia.
  rewrite <- Qmult_assoc, <- pow2_plus.
  replace (52 - Z.log2 z + (Z.log2 z - 52))%Z with 0%Z by lia.
  apply Qmult_1_r.
Qed.

(** The integers below 2^53 are binary64 numbers. *)
Lemma binary64_Z (z : Z) :
  (Z.abs z < 2 ^ 53)%Z -> (Num.binary64 (inject_Z z) == inject_Z z)%Q.
Proof.
  intros Hz. destruct (Z.lt_trichotomy z 0) as [H|[->|H]].
  - rewrite binary64_neg by (change 0%Q with (inject_Z 0); by rewrite <- Zlt_Qlt).
    rewrite <- inject_Z_opp, nearest_Z by lia.
    rewrite inject_Z_opp. ring.
  - reflexivity.
  - rewrite binary64_pos by (change 0%Q with (inject_Z 0); by rewrite <- Zlt_Qlt).
    apply nearest_Z. lia.
Qed.

Lemma binary64_le (q : Q) (z : Z) :
  (Z.abs z < 2 ^ 53)%Z -> (q <= inject_Z z)%Q ->
  (Num.binary64 q <= inject_Z z)%Q.
Proof.
  intros Hz H. rewrite <- (binary64_Z z Hz). by apply binary64_mono.
Qed.

Lemma binary64_ge (q : Q) (z : Z) :
  (Z.abs z < 2 ^ 53)%Z -> (inject_Z z <= q)%Q ->
  (inject_Z z <= Num.binary64 q)%Q.
Proof.
  intros Hz H. rewrite <- (binary64_Z z Hz). by apply binary64_mono.
Qed.

(** ** Facts about the stable descending sort *)

Section SortFacts.
Context {A : Type}.

Lemma insert_reverse_perm (lt : A -> A -> bool) (x : A) (l : list A) :
  insert_reverse lt x l ≡ₚ x :: l.
Proof.
  induction l as [|y r IH]; simpl; [done|].
  destruct (lt x y); [|done].
  rewrite IH. apply perm_swap.
Qed.

Lemma sort_reverse_perm (lt : A -> A -> bool) (l : list A) :
  sort_reverse lt l ≡ₚ l.
Proof.
  induction l as [|x r IH]; simpl; [done|].
  by rewrite insert_reverse_perm, IH.
Qed.

(** Elements that the comparison does not separate keep their order. *)
Lemma insert_reverse_filter (lt : A -> A -> bool) (f : A -> bool) x l :
  (forall y, f x = true -> f y = true -> lt x y = false) ->
  List.filter f (insert_reverse lt x l) = List.filter f (x :: l).
Proof.
  intros Hsep. induction l as [|y r IH]; [done|].
  cbn [insert_reverse]. destruct (lt x y) eqn:Hlt; [|done].
  cbn [List.filter] in *. rewrite IH.
  destruct (f x) eqn:Hx, (f y) eqn:Hy; try done.
  by rewrite Hsep in Hlt.
Qed.

Lemma sort_reverse_filter (lt : A -> A -> bool) (f : A -> bool) l :
  (forall x y, f x = true -> f y = true -> lt x y = false) ->
  List.filter f (sort_reverse lt l) = List.filter f l.
Proof.
  intros Hsep. induction l as [|x r IH]; [done|].
  cbn [sort_reverse]. rewrite insert_reverse_filter by eauto.
  cbn [List.filter]. by rewrite IH.
Qed.

Context (key : A -> Q).

Lemma insert_reverse_sorted x l :
  StronglySorted (descending key) l ->
  StronglySorted (descending key) (insert_reverse (key_ltb key) x l).
Proof.
  induction 1 as [|y r Hr IH Hy]; simpl.
  - repeat constructor.
  - unfold key_ltb at 1. destruct (Num.ltb (key x) (key y)) eqn:Hlt.
    + constructor; [done|]. rewrite insert_reverse_perm.
      constructor; [|done]. apply ltb_lt in Hlt.
      unfold descending. by apply Qlt_le_weak.
    + apply ltb_ge in Hlt. constructor; [by constructor|].
      constructor; [done|].
      eapply Forall_impl; [exact Hy|]. unfold descending. intros z Hz.
      by apply Qle_trans with (key y).
Qed.

Lemma sort_reverse_sorted l :
  StronglySorted (descending key) (sort_reverse (key_ltb key) l).
Proof.
  induction l as [|x r IH]; simpl; [constructor|].
  by apply insert_reverse_sorted.
Qed.

(** The sort is the stable descending sort the specification describes. *)
Lemma sort_reverse_stable l :
  stable_descending key l (sort_reverse (key_ltb key) l).
Proof.
  split; [apply sort_reverse_sorted|].
  intros k. apply sort_reverse_filter. unfold has_key, key_ltb.
  intros x y Hx%Qeq_bool_iff Hy%Qeq_bool_iff.
  apply ltb_ge. rewrite Hx, Hy. apply Qle_refl.
Qed.

(** Sorting the pairs [(key p, p)] by their first component and dropping
    it is sorting by [key]. *)
Lemma insert_reverse_decorated x (l : list A) :
  map snd (insert_reverse (fun u v : Q * A => Num.ltb (fst u) (fst v))
             (key x, x) (map (fun p => (key p, p)) l))
  = insert_reverse (key_ltb key) x l.
Proof.
  induction l as [|y r IH]; [done|].
  cbn [map insert_reverse fst snd]. unfold key_ltb at 1.
  destruct (Num.ltb (key x) (key y)).
  - cbn [map snd]. by rewrite IH.
  - cbn [map snd]. by rewrite map_map, map_id.
Qed.

Lemma sort_reverse_decorated_eq (l : list A) :
  sort_reverse (fun u v : Q * A => Num.ltb (fst u) (fst v))
    (map (fun p => (key p, p)) l)
  = map (fun p => (key p, p)) (sort_reverse (key_ltb key) l).
Proof.
  induction l as [|x r IH]; [done|].
  cbn [map sort_reverse]. rewrite IH.
  generalize (sort_reverse (key_ltb key) r). intros s.
  induction s as [|y s IHs]; [done|].
  cbn [map insert_reverse fst]. unfold key_ltb at 1.
  destruct (Num.ltb (key x) (key y)); [|done].
  cbn [map]. by rewrite IHs.
Qed.

Lemma sort_reverse_decorated (l : list A) :
  map snd (sort_reverse (fun u v : Q * A => Num.ltb (fst u) (fst v))
             (map (fun p => (key p, p)) l))
  = sort_reverse (key_ltb key) l.
Proof.
  rewrite sort_reverse_decorated_eq, map_map. apply map_id.
Qed.

(** In a descending list a strictly greater key stands first. *)
Lemma descending_lookup (l : list A) (i j : nat) (x y : A) :
  StronglySorted (descending key) l ->
  l !! i = Some x -> l !! j = Some y -> (key y < key x)%Q -> i < j.
Proof.
  intros Hs. revert i j. induction Hs as [|z r Hr IH Hz]; intros i j Hi Hj Hlt.
  - by rewrite lookup_nil in Hi.
  - destruct i as [|i], j as [|j]; simpl in *.
    + simplify_eq. by apply Qlt_irrefl in Hlt.
    + lia.
    + simplify_eq. rewrite Forall_forall in Hz.
      assert (descending key y x) as Hd.
      { apply Hz. eapply list_elem_of_lookup_2. exact Hi. }
      unfold descending in Hd. exfalso.
      apply (Qlt_irrefl (key x)). by apply Qle_lt_trans with (key y).
    + specialize (IH i j Hi Hj Hlt). lia.
Qed.
End SortFacts.

(** ** The matcher *)

Lemma stable_descending_ext {A : Type} (key key' : A -> Q) (l l' : list A) :
  (forall x, key x == key' x) ->
  stable_descending key l l' -> stable_descending key' l l'.
Proof.
  intros Hext [Hs Hf]. split.
  - clear Hf. induction Hs as [|x r Hr IH Hx]; [constructor|].
    constructor; [done|]. eapply Forall_impl; [exact Hx|].
    unfold descending. intros y Hxy. by rewrite <- !Hext.
  - intros k. specialize (Hf k).
    assert (forall x, has_key key' k x = has_key key k x) as Hk.
    { intros x. unfold has_key.
      destruct (Qeq_bool (key x) k) eqn:E.
      - apply Qeq_bool_iff. apply Qeq_bool_iff in E. by rewrite <- Hext.
      - destruct (Qeq_bool (key' x) k) eqn:E'; [|done].
        apply Qeq_bool_iff in E'. rewrite <- Hext in E'.
        apply Qeq_bool_iff in E'. congruence. }
    rewrite (List.filter_ext _ _ Hk l), (List.filter_ext _ _ Hk l'). exact Hf.
Qed.

Lemma match_providers_sort pl sf oa ps :
  match_providers pl sf oa ps
  = sort_reverse (key_ltb (score (preferred_lang pl))) (candidates sf oa ps).
Proof. unfold match_providers. apply sort_reverse_decorated. Qed.

Lemma match_providers_perm pl sf oa ps :
  match_providers pl sf oa ps ≡ₚ candidates sf oa ps.
Proof. rewrite match_providers_sort. apply sort_reverse_perm. Qed.

Lemma elem_of_candidates sf oa ps p :
  p ∈ candidates sf oa ps <->
  p ∈ ps /\ service_matches sf p = true
  /\ (oa = true -> Provider.get_available p = true).
Proof.
  unfold candidates. destruct oa.
  - rewrite list_elem_of_In, !filter_In, <- list_elem_of_In. intuition.
  - rewrite list_elem_of_In, filter_In, <- list_elem_of_In.
    intuition congruence.
Qed.

Ltac small := vm_compute; reflexivity.

Lemma tenth_nonneg : (0 <= Num.tenth)%Q.
Proof. apply (binary64_ge _ 0); [small|done]. Qed.

Lemma mul_nonneg (x y : Q) : (0 <= x)%Q -> (0 <= y)%Q -> (0 <= Num.mul x y)%Q.
Proof.
  intros Hx Hy. apply (binary64_ge _ 0); [small|].
  by apply Qmult_le_0_compat.
Qed.

Lemma mul_comm (x y : Q) : Num.mul x y = Num.mul y x.
Proof.
  unfold Num.mul. f_equal. unfold Qmult.
  by rewrite Z.mul_comm, Pos.mul_comm.
Qed.

Lemma experience_bounds p : (0 <= experience p)%Q /\ (experience p <= 1)%Q.
Proof.
  unfold experience. split; [|apply min_le_r].
  apply min_nonneg; [|done].
  apply mul_nonneg; [apply tenth_nonneg|apply of_nat_nonneg].
Qed.

(** The code's score is the guarded score. *)
Lemma score_guarded pl p : score (preferred_lang pl) p = guarded_score pl p.
Proof.
  unfold score, guarded_score, score_with, experience, Provider.get_reviews.
  assert (language_matches (preferred_lang pl) p
          = match pl with
            | Some l => Text.truthy (normalize_language l)
            | None => false
            end && language_equal pl p) as ->.
  { unfold language_matches, preferred_lang, language_equal.
    destruct pl as [l|]; [|done]. destruct l as [|c l]; [|done].
    done. }
  destruct (_ && _); destruct (Provider.reviews p) as [[|r rs]|];
    cbn [default id length Nat.leb]; rewrite ?(mul_comm Num.tenth); done.
Qed.

Ltac by_evaluation := vm_compute; (reflexivity || discriminate || congruence).

Ltac q_order := unfold Qle, Qlt; simpl; lia.

(** C4. Every provider in the list returned by [match_providers] is a
    provider of the store that satisfies the requested filters: when a
    service filter is given, the lower-cased filter occurs in the provider's
    lower-cased service label, and when only available providers are asked
    for, the provider's availability flag (read with its default, [True])
    is true. *)
Theorem match_providers_respects_filters
  (preferred_language service_filter : option string) (only_available : bool)
  (ps : list Provider.t) (p : Provider.t) :
  p ∈ match_providers preferred_language service_filter only_available ps ->
  p ∈ ps /\
  (forall f, service_filter = Some f ->
     exists pre post,
       Text.lower (Provider.service p) = pre +:+ Text.lower f +:+ post) /\
  (only_available = true -> Provider.get_available p = true).
Proof.
  rewrite match_providers_perm, elem_of_candidates.
  intros (Hin & Hservice & Havailable). repeat split; [done| |done].
  intros f ->. apply contains_spec. exact Hservice.
Qed.

Lemma match_providers_respects_filters_witness :
  let p := Provider.mk "p1" "Ravi" "Taxi Driver" (Some "Telugu")
             (Some (Num.binary64 (48 # 10))) (Some []) (Some true) None
             (Some (Location.mk (Num.binary64 (1745 # 100))
                      (Num.binary64 (7845 # 100)))) in
  p ∈ default_providers /\
  (forall f, Some "TAXI" = Some f ->
     exists pre post,
       Text.lower (Provider.service p) = pre +:+ Text.lower f +:+ post) /\
  (true = true -> Provider.get_available p = true).
Proof.
  intros p.
  apply (match_providers_respects_filters (Some "telugu") (Some "TAXI") true).
  vm_compute. apply list_elem_of_here.
Defined.

(** C3 (as amended). [match_providers] gives every candidate the score
    rating + 100 (added exactly when the normalized preferred language is
    not empty and equals the provider's normalized language) + min(0.1 x
    number of reviews, 1.0) (added only when the provider has a review),
    each addition and the product being rounded as the floats are, and
    returns the candidates sorted by descending score, candidates of equal
    score keeping their encounter order. *)
Theorem match_providers_sorted_by_guarded_score
  (preferred_language service_filter : option string) (only_available : bool)
  (ps : list Provider.t) :
  (forall p, score (preferred_lang preferred_language) p
             == guarded_score preferred_language p) /\
  match_providers preferred_language service_filter only_available ps
    ≡ₚ candidates service_filter only_available ps /\
  stable_descending (guarded_score preferred_language)
    (candidates service_filter only_available ps)
    (match_providers preferred_language service_filter only_available ps).
Proof.
  split; [intros p; by rewrite score_guarded|].
  split; [apply match_providers_perm|].
  rewrite match_providers_sort.
  eapply stable_descending_ext; [intros p; by rewrite score_guarded|].
  apply sort_reverse_stable.
Qed.

(** C3, as stated, fails: for the preferred language [" "] a provider
    whose language label is empty has the normalized language of the
    request, yet gets no bonus and is ranked by its rating alone. *)
Lemma match_providers_spec_score_counterexample :
  ~ stable_descending (spec_score (Some " "))
      (candidates None true [bruno; anna])
      (match_providers (Some " ") None true [bruno; anna]).
Proof.
  intros [Hsorted _].
  assert (match_providers (Some " ") None true [bruno; anna] = [bruno; anna])
    as Hranked by (vm_compute; reflexivity).
  rewrite Hranked in Hsorted.
  apply StronglySorted_inv in Hsorted as [_ Hfirst].
  apply Forall_inv in Hfirst. unfold descending in Hfirst.
  vm_compute in Hfirst. by apply Hfirst.
Qed.

Lemma score_of_match pl p :
  normalize_language pl <> "" ->
  normalize_language (Provider.get_language p) = normalize_language pl ->
  (0 <= Provider.get_rating p)%Q ->
  (100 <= score (preferred_lang (Some pl)) p)%Q.
Proof.
  intros Hne Heq Hr. rewrite score_guarded.
  unfold guarded_score, score_with, language_equal.
  rewrite Heq, String.eqb_refl.
  destruct (normalize_language pl) eqn:E; [done|]. cbn [Text.truthy andb].
  assert (100 <= Num.add (Provider.get_rating p) 100)%Q as H100.
  { apply (binary64_ge _ 100); [small|]. change (inject_Z 100) with 100%Q. lra. }
  destruct (1 <=? _); [|done].
  pose proof (experience_bounds p) as [H0 _].
  apply (binary64_ge _ 100); [small|]. change (inject_Z 100) with 100%Q. lra.
Qed.

Lemma score_of_mismatch pl p :
  normalize_language (Provider.get_language p) <> normalize_language pl ->
  (Provider.get_rating p <= 5)%Q ->
  (score (preferred_lang (Some pl)) p <= 6)%Q.
Proof.
  intros Hne Hr. rewrite score_guarded.
  unfold guarded_score, score_with, language_equal.
  apply String.eqb_neq in Hne. rewrite Hne, andb_false_r.
  destruct (1 <=? _); [|lra].
  pose proof (experience_bounds p) as [_ H1].
  apply (binary64_le _ 6); [small|]. change (inject_Z 6) with 6%Q. lra.
Qed.

(** C2 (as amended). When the preferred language is supplied and its
    normalized form is not empty, of two providers in the list returned by
    [match_providers] whose ratings lie in [0, 5], one whose normalized
    language equals the normalized preferred language stands strictly
    before one whose normalized language differs, whatever their ratings
    and review counts. *)
Theorem match_providers_language_first
  (preferred_language : string) (service_filter : option string)
  (only_available : bool) (ps : list Provider.t) :
  normalize_language preferred_language <> "" ->
  ranks_language_first preferred_language
    (match_providers (Some preferred_language) service_filter only_available ps).
Proof.
  intros Hne i j p q Hi Hj Hp Hq [Hp0 _] [_ Hq5].
  rewrite match_providers_sort in Hi, Hj.
  eapply (descending_lookup (score (preferred_lang (Some preferred_language))));
    [apply sort_reverse_sorted|exact Hi|exact Hj|].
  pose proof (score_of_match preferred_language p Hne Hp Hp0).
  pose proof (score_of_mismatch preferred_language q Hq Hq5).
  lra.
Qed.

Lemma match_providers_language_first_witness :
  ranks_language_first " french "
    (match_providers (Some " french ") (Some "tour") true default_providers).
Proof.
  apply match_providers_language_first. by_evaluation.
Defined.

(** C2, as stated, fails: the preferred language [" "] is supplied and
    normalizes to the empty string; Anna's empty language label equals it
    and Bruno's does not, yet Bruno, with the better rating, is ranked
    first. *)
Lemma match_providers_language_first_counterexample :
  ~ ranks_language_first " "
      (match_providers (Some " ") None true [bruno; anna]).
Proof.
  intros H.
  assert (1 < 0) as Hlt; [|lia].
  apply (H 1 0 anna bruno); try by_evaluation; split; q_order.
Qed.

(** ** The loop over the providers *)

Lemma update_first_None pid f ps :
  update_first pid f ps = None <->
  forall p, p ∈ ps -> Provider.id p <> pid.
Proof.
  induction ps as [|p r IH]; simpl.
  - split; [|done]. intros _ p Hp. by apply not_elem_of_nil in Hp.
  - destruct (String.eqb (Provider.id p) pid) eqn:E.
    + apply String.eqb_eq in E. split; [done|].
      intros H. destruct (H p); [left|done].
    + apply String.eqb_neq in E.
      destruct (update_first pid f r) as [[r' q]|].
      * split; [done|]. intros H. exfalso.
        assert (Some (r', q) = None) as Hn; [|discriminate].
        apply IH. intros x Hx. apply H. by right.
      * split; [|done]. intros _ x Hx.
        apply elem_of_cons in Hx as [->|Hx]; [done|].
        by apply IH.
Qed.

Lemma update_first_Some pid f ps ps' q' :
  update_first pid f ps = Some (ps', q') ->
  exists i q, first_with_id pid ps i q /\ ps' = <[i := f q]> ps /\ q' = f q.
Proof.
  revert ps' q'. induction ps as [|p r IH]; intros ps' q' H; simpl in H.
  - discriminate.
  - destruct (String.eqb (Provider.id p) pid) eqn:E.
    + apply String.eqb_eq in E. injection H as <- <-.
      exists 0, p. repeat split; [done|]. intros j q Hj. lia.
    + apply String.eqb_neq in E.
      destruct (update_first pid f r) as [[r' q]|]; [|discriminate].
      injection H as <- <-.
      destruct (IH r' q eq_refl) as (i & q0 & (Hi & Hid & Hfirst) & -> & ->).
      exists (S i), q0. repeat split; [done|done|].
      intros [|j] x Hj Hx; simpl in Hx.
      * by injection Hx as <-.
      * apply (Hfirst j); [lia|done].
Qed.

Lemma update_first_is_Some pid f ps p :
  p ∈ ps -> Provider.id p = pid -> is_Some (update_first pid f ps).
Proof.
  intros Hin Hid. destruct (update_first pid f ps) eqn:E; [done|].
  rewrite update_first_None in E. by destruct (E p Hin).
Qed.

(** ** Storage *)

Lemma load_save path data default fs :
  load_json path default (save_json path data fs)
  = (save_json path data fs, data).
Proof.
  unfold load_json, save_json, ensure_data_dir. cbn [files data_dir].
  by rewrite lookup_insert_eq.
Qed.

(** C9. Writing a provider list with [save_json] and reading the file back
    with [load_json] gives the list that was written, whatever the file
    held before and whatever the default is: the same provider ids, names,
    ratings and availability flags, in the same order. *)
Theorem save_load_roundtrip (path : string) (ps : list Provider.t)
  (default : document) (fs : filesystem) :
  exists ps',
    snd (load_json path default (save_json path (ProvidersDoc ps) fs))
      = ProvidersDoc ps' /\
    ps' = ps /\
    map Provider.id ps' = map Provider.id ps /\
    map Provider.name ps' = map Provider.name ps /\
    map Provider.rating ps' = map Provider.rating ps /\
    map Provider.available ps' = map Provider.available ps.
Proof.
  exists ps. rewrite load_save. by repeat split.
Qed.

(** C10. [create_booking] appends exactly one record to the bookings and
    leaves the providers as they were: the list of providers, hence the
    availability, next-available, rating and reviews of the provider that
    was passed, and the providers file are unchanged, while the record
    carries the provider's id, name and service. *)
Theorem create_booking_frame (tourist : string) (provider : Provider.t)
  (language phone : option string) (uuid : string)
  (now_created now_history : time) (st : state) :
  let '(st', booking) :=
    create_booking tourist provider language phone uuid
      now_created now_history st in
  bookings st' = bookings st ++ [booking] /\
  length (bookings st') = S (length (bookings st)) /\
  providers st' = providers st /\
  files (disk st') !! PROVIDERS_FILE = files (disk st) !! PROVIDERS_FILE /\
  files (disk st') !! BOOKINGS_FILE = Some (Json (BookingsDoc (bookings st'))) /\
  Booking.provider_id booking = Provider.id provider /\
  Booking.provider_name booking = Provider.name provider /\
  Booking.service booking = Provider.service provider /\
  Booking.tourist booking = tourist /\
  Booking.status booking = "Confirmed" /\
  Booking.history booking = [History.mk now_history "Confirmed"].
Proof.
  unfold create_booking. cbn [bookings providers disk].
  repeat split.
  - rewrite length_app. simpl. lia.
  - unfold save_json. cbn [files]. by rewrite lookup_insert_ne.
  - unfold save_json. cbn [files]. by rewrite lookup_insert_eq.
Qed.

(** C7. When no provider has the id, [update_provider_availability] returns
    false and changes nothing, neither a provider nor a file; when a provider
    has it, the first such provider gets the two fields it was called with,
    every other field and every other provider stay as they were, the new
    list is written to the providers file, and the call returns true. *)
Theorem update_provider_availability_result (provider_id : string)
  (available : bool) (next_available : option time) (st : state) :
  ((forall p, p ∈ providers st -> Provider.id p <> provider_id) ->
   update_provider_availability provider_id available next_available st
   = (st, false)) /\
  (forall p, p ∈ providers st -> Provider.id p = provider_id ->
   exists i q,
     first_with_id provider_id (providers st) i q /\
     let q' := Provider.mk (Provider.id q) (Provider.name q)
                 (Provider.service q) (Provider.language q)
                 (Provider.rating q) (Provider.reviews q)
                 (Some available) next_available (Provider.location q) in
     let ps' := <[i := q']> (providers st) in
     let '(st', result) :=
       update_provider_availability provider_id available next_available st in
     result = true /\
     providers st' = ps' /\
     bookings st' = bookings st /\
     files (disk st') = <[PROVIDERS_FILE := Json (ProvidersDoc ps')]>
                          (files (disk st))).
Proof.
  unfold update_provider_availability. split.
  - intros Hnone.
    apply (proj2 (update_first_None provider_id
                    (Provider.set_availability available next_available) _))
      in Hnone.
    by rewrite Hnone.
  - intros p Hin Hid.
    destruct (update_first_is_Some provider_id
                (Provider.set_availability available next_available)
                _ p Hin Hid) as [[ps' q'] Hsome].
    rewrite Hsome.
    apply update_first_Some in Hsome as (i & q & Hfirst & -> & ->).
    exists i, q. split; [done|]. by repeat split.
Qed.

Lemma update_provider_availability_result_witness :
  update_provider_availability "p9" false None initial_state
    = (initial_state, false) /\
  fst (update_provider_availability "p2" false (Some 7%Z) initial_state)
    <> initial_state.
Proof.
  split.
  - apply (update_provider_availability_result "p9" false None initial_state).
    intros p Hp. apply list_elem_of_In in Hp. simpl in Hp.
    destruct Hp as [<-|[<-|[<-|[]]]]; by_evaluation.
  - destruct (proj2 (update_provider_availability_result "p2" false (Some 7%Z)
                       initial_state)
                (Provider.mk "p2" "Maria" "Tour Guide" (Some "French")
                   (Some (Num.binary64 (49 # 10))) (Some []) (Some true) None
                   (Some (Location.mk (Num.binary64 (4885 # 100))
                            (Num.binary64 (235 # 100))))))
      as (i & q & _ & H).
    + vm_compute. apply list_elem_of_further, list_elem_of_here.
    + reflexivity.
    + by_evaluation.
Defined.

(** ** Reviews *)

(** C1 (as amended). When some provider has the id, [add_review] appends the
    review to the first provider with that id, sets its rating to the mean
    of the ratings of all its reviews, rounded to 2 decimals, and returns
    that rating; every other provider is left as it was, so a provider
    without reviews keeps the rating it is stored with. The mean and the
    rounding are those of the floats: [Num.mean] rounds every addition and
    the division to binary64, and [Num.round2] is [round(x, 2)]. *)
Theorem add_review_updates_rating (provider_id : string) (rating : Q)
  (comment : string) (now : time) (st : state) (p : Provider.t) :
  p ∈ providers st -> Provider.id p = provider_id ->
  exists i q q',
    first_with_id provider_id (providers st) i q /\
    let '(st', result) := add_review provider_id rating comment now st in
    providers st' = <[i := q']> (providers st) /\
    Provider.id q' = provider_id /\
    Provider.reviews q'
      = Some (Provider.get_reviews q ++ [Review.mk rating comment now]) /\
    Provider.rating q'
      = Some (Num.round2
                (Num.mean (map Review.rating (Provider.get_reviews q')))) /\
    result = Some (Num.round2
                     (Num.mean (map Review.rating (Provider.get_reviews q')))) /\
    (forall j, j <> i -> providers st' !! j = providers st !! j) /\
    files (disk st') !! PROVIDERS_FILE
      = Some (Json (ProvidersDoc (providers st'))).
Proof.
  intros Hin Hid. unfold add_review.
  destruct (update_first_is_Some provider_id
              (with_review rating comment now) _ p Hin Hid)
    as [[ps' q'] Hsome].
  rewrite Hsome.
  apply update_first_Some in Hsome as (i & q & Hfirst & -> & ->).
  exists i, q, (with_review rating comment now q).
  split; [done|]. cbn [providers disk]. repeat split.
  - by destruct Hfirst as (_ & ? & _).
  - intros j Hj. by apply list_lookup_insert_ne.
  - unfold save_json. cbn [files]. by rewrite lookup_insert_eq.
Qed.

Lemma add_review_updates_rating_witness :
  exists i q q',
    first_with_id "p2" default_providers i q /\
    providers (fst (add_review "p2" 4 "fine" 0%Z initial_state))
      = <[i := q']> default_providers /\
    Provider.rating q' = Some 4%Q /\
    snd (add_review "p2" 4 "fine" 0%Z initial_state) = Some 4%Q.
Proof.
  destruct (add_review_updates_rating "p2" 4 "fine" 0%Z initial_state
              (Provider.mk "p2" "Maria" "Tour Guide" (Some "French")
                 (Some (Num.binary64 (49 # 10))) (Some []) (Some true) None
                 (Some (Location.mk (Num.binary64 (4885 # 100))
                          (Num.binary64 (235 # 100))))))
    as (i & q & q' & Hfirst & H).
  - vm_compute. apply list_elem_of_further, list_elem_of_here.
  - reflexivity.
  - exists i, q, q'. split; [exact Hfirst|].
    destruct (add_review "p2" 4 "fine" 0%Z initial_state) as [st' result] eqn:E.
    destruct H as (Hps & _ & _ & Hrating & Hresult & _).
    assert (result = Some 4%Q) as Hfour.
    { change result with (snd (st', result)). rewrite <- E. by_evaluation. }
    repeat split; [exact Hps| |exact Hfour]. congruence.
Defined.

(** C1, as stated, fails in its last part: after a review of provider p1,
    the seed providers p2 and p3 have no review and the ratings 4.9 and 4.7,
    so that no constant is the rating of every provider without reviews. *)
Lemma add_review_default_constant_counterexample :
  ~ exists d : Q,
      empty_reviews_have_rating d
        (providers (fst (add_review "p1" 5 "" 0%Z initial_state))).
Proof.
  intros [d H].
  assert (Num.binary64 (49 # 10) == d) as H2.
  { apply (H (Provider.mk "p2" "Maria" "Tour Guide" (Some "French")
                (Some (Num.binary64 (49 # 10))) (Some []) (Some true) None
                (Some (Location.mk (Num.binary64 (4885 # 100))
                         (Num.binary64 (235 # 100)))))); [|done].
    vm_compute. apply list_elem_of_further, list_elem_of_here. }
  assert (Num.binary64 (47 # 10) == d) as H3.
  { apply (H (Provider.mk "p3" "Carlos" "City Tour" (Some "Spanish")
                (Some (Num.binary64 (47 # 10))) (Some []) (Some true) None
                (Some (Location.mk (Num.binary64 (1943 # 100))
                         (Num.binary64 (- 9913 # 100)))))); [|done].
    vm_compute. do 2 apply list_elem_of_further. apply list_elem_of_here. }
  rewrite <- H3 in H2. vm_compute in H2. discriminate.
Qed.

(** ** The availability toggle *)

Lemma listable_Forall (ps : list Provider.t) :
  listable ps = true <-> Forall (fun p => is_Some (Provider.language p)) ps.
Proof.
  unfold listable. rewrite forallb_forall, Forall_forall. split.
  - intros H p Hp. apply list_elem_of_In in Hp.
    specialize (H p Hp). by apply bool_decide_eq_true in H.
  - intros H p Hp. apply bool_decide_eq_true, H. by apply list_elem_of_In.
Qed.

Lemma toggle_at (sel : string) (now : time) (st : state) (i : nat)
  (p : Provider.t) :
  Forall (fun q => is_Some (Provider.language q)) (providers st) ->
  isdigit sel = true -> int_of_digits sel = Z.of_nat (S i) ->
  providers st !! i = Some p ->
  admin_menu "2" sel now st
  = fst (update_provider_availability (Provider.id p)
           (negb (Provider.get_available p))
           (if negb (negb (Provider.get_available p))
            then Some (now + one_hour)%Z else None) st).
Proof.
  intros Hlisted Hdigit Hint Hp.
  unfold admin_menu, toggle_provider_availability.
  cbn [String.eqb Ascii.eqb Bool.eqb].
  rewrite (proj2 (listable_Forall _) Hlisted).
  rewrite Hdigit, Hint. cbn [negb].
  replace (Z.of_nat (S i) - 1)%Z with (Z.of_nat i) by lia.
  rewrite Nat2Z.id, Hp.
  apply lookup_lt_Some in Hp.
  replace ((0 <=? Z.of_nat i)%Z) with true by (symmetry; apply Z.leb_le; lia).
  replace ((Z.of_nat i <? Z.of_nat (length (providers st)))%Z) with true
    by (symmetry; apply Z.ltb_lt; lia).
  reflexivity.
Qed.

Lemma update_provider_availability_at pid a n st i p :
  first_with_id pid (providers st) i p ->
  fst (update_provider_availability pid a n st)
  = let ps := <[i := Provider.set_availability a n p]> (providers st) in
    mkstate ps (bookings st)
      (save_json PROVIDERS_FILE (ProvidersDoc ps) (disk st)).
Proof.
  intros (Hp & Hid & Hfirst). unfold update_provider_availability.
  destruct (update_first _ _ _) as [[ps' q']|] eqn:E.
  - apply update_first_Some in E as (k & q & (Hk & Hidk & Hkfirst) & -> & _).
    assert (k = i) as ->.
    { destruct (Nat.lt_trichotomy k i) as [Hlt|[Heq|Hgt]]; [|done|].
      - by destruct (Hfirst k q Hlt Hk).
      - by destruct (Hkfirst i p Hgt Hp). }
    by assert (q = p) as -> by congruence.
  - rewrite update_first_None in E. destruct (E p); [|done].
    eapply list_elem_of_lookup_2. exact Hp.
Qed.

(** C6 (as amended). For the first provider with an id,
    [update_provider_availability] stores the availability flag and the
    next-available time it is given, whatever they are. Its caller in the
    admin menu, when the listing of the providers succeeds and the
    selection, a typed line of digits, is the position of the provider,
    makes an available provider unavailable with the call time plus one
    hour, a time strictly after the call time, and makes an unavailable
    provider available with the next-available time cleared. The booking
    flow, which writes the two fields itself, leaves a busy provider that
    is scheduled unavailable with the scheduling time plus one hour. *)
Theorem toggle_sets_next_available (now : time) (st : state)
  (i : nat) (p : Provider.t) :
  first_with_id (Provider.id p) (providers st) i p ->
  (forall available next_available,
     exists p',
       providers (fst (update_provider_availability (Provider.id p) available
                         next_available st)) !! i = Some p' /\
       Provider.id p' = Provider.id p /\
       Provider.available p' = Some available /\
       Provider.next_available p' = next_available) /\
  (forall sel,
     Forall (fun q => is_Some (Provider.language q)) (providers st) ->
     typed sel = true ->
     isdigit sel = true -> int_of_digits sel = Z.of_nat (S i) ->
     exists p',
       providers (admin_menu "2" sel now st) !! i = Some p' /\
       Provider.id p' = Provider.id p /\
       if Provider.get_available p
       then Provider.available p' = Some false /\
            Provider.next_available p' = Some (now + one_hour)%Z /\
            (now < now + one_hour)%Z
       else Provider.available p' = Some true /\
            Provider.next_available p' = None) /\
  (forall schedule rest,
     Provider.get_available p = false ->
     Text.lower (Text.strip schedule) = "y" ->
     exists st' p',
       schedule_provider now i p st (schedule :: rest)
       = (st', Some (Some p', rest)) /\
       providers st' !! i = Some p' /\
       Provider.id p' = Provider.id p /\
       Provider.available p' = Some false /\
       Provider.next_available p' = Some (now + one_hour)%Z /\
       (now < now + one_hour)%Z).
Proof.
  intros Hfirst. pose proof Hfirst as (Hp & _ & _).
  assert (i < length (providers st)) as Hi by (by apply lookup_lt_Some in Hp).
  assert (forall available next_available,
            exists p',
              providers (fst (update_provider_availability (Provider.id p)
                                available next_available st)) !! i = Some p' /\
              Provider.id p' = Provider.id p /\
              Provider.available p' = Some available /\
              Provider.next_available p' = next_available) as Hstore.
  { intros a n. rewrite (update_provider_availability_at _ a n st i p Hfirst).
    cbn [providers]. eexists. split; [by apply list_lookup_insert_eq|].
    done. }
  split; [exact Hstore|]. split.
  - intros sel Hlisted _ Hdigit Hint.
    rewrite (toggle_at sel now st i p Hlisted Hdigit Hint Hp).
    destruct (Hstore (negb (Provider.get_available p))
                (if negb (negb (Provider.get_available p))
                 then Some (now + one_hour)%Z else None))
      as (p' & Hp' & Hid & Ha & Hn).
    exists p'. split; [done|]. split; [done|].
    rewrite Ha, Hn. destruct (Provider.get_available p); cbn.
    + repeat split. unfold one_hour. lia.
    + by split.
  - intros schedule rest Hbusy Hyes.
    unfold schedule_provider. rewrite Hbusy. cbn [negb].
    unfold bind, input_strip. cbv beta iota. rewrite Hyes.
    cbn [negb String.eqb Ascii.eqb Bool.eqb]. unfold call.
    eexists _, _. split; [reflexivity|]. cbn [providers].
    split; [by apply list_lookup_insert_eq|].
    repeat split. unfold one_hour. lia.
Qed.

Lemma toggle_sets_next_available_witness :
  exists p',
    providers (admin_menu "2" "2" 1000%Z initial_state) !! 1 = Some p' /\
    Provider.id p' = "p2" /\
    Provider.available p' = Some false /\
    Provider.next_available p' = Some (1000 + one_hour)%Z /\
    (1000 < 1000 + one_hour)%Z.
Proof.
  assert (first_with_id "p2" (providers initial_state) 1
            (Provider.mk "p2" "Maria" "Tour Guide" (Some "French")
               (Some (Num.binary64 (49 # 10))) (Some []) (Some true) None
               (Some (Location.mk (Num.binary64 (4885 # 100))
                        (Num.binary64 (235 # 100)))))) as Hfirst.
  { repeat split. intros [|[|j]] q Hj Hq; [|lia|lia].
    injection Hq as <-. by_evaluation. }
  destruct (toggle_sets_next_available 1000%Z initial_state 1 _ Hfirst)
    as (_ & Hmenu & _).
  apply (Hmenu "2"); [|reflexivity..].
  repeat (constructor; [by eexists|]). constructor.
Defined.

(** C6, as stated, fails: [update_provider_availability] called with the
    flag alone, its third parameter left at the default [None], makes the
    provider unavailable without any next-available time. *)
Lemma update_provider_availability_counterexample :
  ~ next_available_after 0%Z "p1"
      (fst (update_provider_availability "p1" false None initial_state)).
Proof.
  intros (p & t & Hin & Hid & Hnext & _).
  apply list_elem_of_In in Hin. vm_compute in Hin.
  destruct Hin as [<-|[<-|[<-|[]]]]; discriminate.
Qed.

(** ** Language detection *)

Lemma dict_get_None {V : Type} (k : string) (d : list (string * V)) :
  k ∉ map fst d -> dict_get k d = None.
Proof.
  induction d as [|[k' v] r IH]; simpl; [done|].
  intros Hk. apply not_elem_of_cons in Hk as [Hne Hk].
  destruct (String.eqb k' k) eqn:E; [|by apply IH].
  apply String.eqb_eq in E. by destruct Hne.
Qed.

Lemma dict_get_Some {V : Type} (k : string) (d : list (string * V)) (v : V) :
  dict_get k d = Some v -> (k, v) ∈ d.
Proof.
  induction d as [|[k' x] r IH]; simpl; [done|].
  destruct (String.eqb k' k) eqn:E.
  - apply String.eqb_eq in E. intros [= ->]. subst. left.
  - intros H. right. by apply IH.
Qed.

Lemma mapping_results (code : string) :
  dict_get code mapping ∈ detect_results.
Proof.
  destruct (dict_get code mapping) as [label|] eqn:E.
  - apply dict_get_Some, list_elem_of_In in E. unfold detect_results.
    destruct E as [E|[E|[E|[E|[]]]]]; injection E as _ <-;
      repeat (first [apply list_elem_of_here | apply list_elem_of_further]).
  - unfold detect_results. do 4 apply list_elem_of_further.
    apply list_elem_of_here.
Qed.

(** C8. [detect_language] never raises: whatever the detector does, the
    call returns, and its result is one of the labels French, Spanish,
    Telugu and English or the "unknown" result. An empty input, an error of
    the detector, a code outside the mapping and a text without marker word
    on the fallback path each give "unknown". *)
Theorem detect_language_never_raises (LANGDETECT_AVAILABLE : bool)
  (detect : string -> outcome string) (text : option string) :
  let stripped := Text.strip (Text.or_empty text) in
  let result := detect_language LANGDETECT_AVAILABLE detect text in
  (exists label, result = Returns label /\ label ∈ detect_results) /\
  (stripped = "" -> result = Returns None) /\
  (LANGDETECT_AVAILABLE = true -> detect stripped = Raises ->
   result = Returns None) /\
  (forall code, LANGDETECT_AVAILABLE = true ->
     detect stripped = Returns code -> code ∉ map fst mapping ->
     result = Returns None) /\
  (LANGDETECT_AVAILABLE = false ->
   any_in french_markers (Text.lower stripped) = false ->
   any_in spanish_markers (Text.lower stripped) = false ->
   any_in telugu_markers (Text.lower stripped) = false ->
   result = Returns None).
Proof.
  intros stripped result. subst result. unfold detect_language.
  fold stripped. destruct (Text.truthy stripped) eqn:Htruthy; cbn [negb].
  - assert (stripped <> "") as Hne by (by destruct stripped).
    destruct LANGDETECT_AVAILABLE.
    + repeat split.
      * destruct (detect stripped) as [code|]; cbn.
        -- eexists. split; [done|]. apply mapping_results.
        -- eexists. split; [done|]. apply (mapping_results "").
      * done.
      * intros _ ->. done.
      * intros code _ -> Hcode. cbn [try_except]. by rewrite dict_get_None.
      * done.
    + repeat split; try done.
      * destruct (any_in french_markers _); [|destruct (any_in spanish_markers _);
          [|destruct (any_in telugu_markers _)]];
          (eexists; split; [done|];
           repeat (first [apply list_elem_of_here | apply list_elem_of_further])).
      * intros _ -> -> ->. done.
  - repeat split; try done.
    eexists. split; [done|]. apply (mapping_results "").
Qed.

Lemma detect_language_never_raises_witness :
  detect_language true (fun _ => Raises) (Some "bonjour") = Returns None /\
  detect_language true (fun _ => Returns "de") (Some "guten tag") = Returns None /\
  detect_language false (fun _ => Raises) (Some "good morning") = Returns None /\
  detect_language false (fun _ => Raises) (Some "   ") = Returns None.
Proof.
  split; [|split; [|split]].
  - pose proof (detect_language_never_raises true (fun _ => Raises)
                  (Some "bonjour")) as H.
    cbv zeta in H. destruct H as (_ & _ & H & _). apply H; reflexivity.
  - pose proof (detect_language_never_raises true (fun _ => Returns "de")
                  (Some "guten tag")) as H.
    cbv zeta in H. destruct H as (_ & _ & _ & H & _).
    apply (H "de"); [reflexivity|reflexivity|].
    vm_compute. intros Hin. apply list_elem_of_In in Hin. simpl in Hin.
    destruct Hin as [E|[E|[E|[E|[]]]]]; discriminate E.
  - pose proof (detect_language_never_raises false (fun _ => Raises)
                  (Some "good morning")) as H.
    cbv zeta in H. destruct H as (_ & _ & _ & _ & H). apply H; reflexivity.
  - pose proof (detect_language_never_raises false (fun _ => Raises)
                  (Some "   ")) as H.
    cbv zeta in H. destruct H as (_ & H & _). apply H; reflexivity.
Defined.

(** ** The depth of the matching-block recursion

    [Difflib.matching] bounds the nesting of regions by a depth. The bound
    it is called with is never reached: the longest match of a region lies
    inside the region, so each nested region spans fewer elements of [a]. *)

Section MatchingDepth.
Variables a b : list ascii.

Lemma scan_row_within alo ahi blo bhi i j2len js newj2len bst :
  alo <= i -> i < ahi ->
  lengths_below (i - alo) j2len -> lengths_below (S (i - alo)) newj2len ->
  within alo ahi bst ->
  let '(newj2len', bst') :=
    Difflib.scan_row blo bhi i j2len js newj2len bst in
  lengths_below (S (i - alo)) newj2len' /\ within alo ahi bst'.
Proof.
  intros Hlo Hhi Hold. revert newj2len bst.
  induction js as [|j r IH]; intros newj2len bst Hnew Hbst; simpl; [done|].
  destruct (j <? blo); [by apply IH|].
  destruct (bhi <=? j); [done|].
  destruct bst as [[besti bestj] bestsize].
  set (k := S (match j with 0 => 0 | S j' => default 0 (j2len !! j') end)).
  assert (k <= S (i - alo)) as Hk.
  { subst k. apply le_n_S. destruct j as [|j']; [lia|].
    destruct (j2len !! j') as [v|] eqn:E; simpl; [|lia]. by apply (Hold j'). }
  apply IH.
  - intros j0 v. rewrite lookup_insert. case_decide; [|by apply Hnew].
    intros [= <-]. exact Hk.
  - destruct (bestsize <? k); [|done]. simpl. lia.
Qed.

Lemma scan_within alo ahi blo bhi n s j2len bst :
  alo <= s -> s + n <= ahi ->
  lengths_below (s - alo) j2len -> within alo ahi bst ->
  within alo ahi (Difflib.scan a b blo bhi (seq s n) j2len bst).
Proof.
  revert s j2len bst. induction n as [|n IH]; intros s j2len bst Hs Hn Hlen Hbst;
    simpl; [done|].
  pose proof (scan_row_within alo ahi blo bhi s j2len
                (match a !! s with Some c => Difflib.b2j b c | None => [] end)
                ∅ bst) as Hrow.
  destruct (Difflib.scan_row _ _ _ _ _ _ _) as [newj2len bst'].
  destruct Hrow as [Hnew Hbst']; [lia|lia|done| |done|].
  { intros j v. by rewrite lookup_empty. }
  apply IH; [lia|lia| |done].
  replace (S s - alo) with (S (s - alo)) by lia. exact Hnew.
Qed.

Lemma extend_left_within alo ahi blo besti bestj bestsize :
  within alo ahi (besti, bestj, bestsize) ->
  within alo ahi (Difflib.extend_left a b alo blo besti bestj bestsize).
Proof.
  revert bestj bestsize. induction besti as [|i' IH]; intros bestj bestsize H;
    simpl; [done|].
  destruct bestj as [|j']; [done|].
  destruct (_ && _) eqn:E; [|done].
  apply IH. simpl in *. repeat (apply andb_prop in E as [E ?]).
  apply Nat.ltb_lt in E. lia.
Qed.

Lemma extend_right_within steps alo ahi bhi besti bestj bestsize :
  within alo ahi (besti, bestj, bestsize) ->
  within alo ahi (Difflib.extend_right a b steps ahi bhi besti bestj bestsize).
Proof.
  revert bestsize. induction steps as [|n IH]; intros bestsize H; simpl; [done|].
  destruct (_ && _) eqn:E; [|done].
  apply IH. simpl in *. repeat (apply andb_prop in E as [E ?]).
  apply Nat.ltb_lt in E. lia.
Qed.

(** The longest match of a region lies in the region. *)
Lemma find_longest_match_within alo ahi blo bhi :
  alo <= ahi ->
  within alo ahi (Difflib.find_longest_match a b alo ahi blo bhi).
Proof.
  intros Hle. unfold Difflib.find_longest_match.
  pose proof (scan_within alo ahi blo bhi (ahi - alo) alo ∅ (alo, blo, 0))
    as Hscan.
  destruct (Difflib.scan _ _ _ _ _ _ _) as [[i j] k].
  pose proof (extend_left_within alo ahi blo i j k) as Hleft.
  destruct (Difflib.extend_left _ _ _ _ _ _ _) as [[i' j'] k'].
  apply extend_right_within, Hleft, Hscan; [lia|lia| |simpl; lia].
  intros j0 v. by rewrite lookup_empty.
Qed.

(** Any depth above the size of the region gives the same count. *)
Lemma matching_depth d1 d2 alo ahi blo bhi :
  alo <= ahi -> ahi - alo < d1 -> ahi - alo < d2 ->
  Difflib.matching a b d1 alo ahi blo bhi
  = Difflib.matching a b d2 alo ahi blo bhi.
Proof.
  revert d2 alo ahi blo bhi.
  induction d1 as [|d1 IH]; intros d2 alo ahi blo bhi Hle H1 H2; [lia|].
  destruct d2 as [|d2]; [lia|]. simpl.
  pose proof (find_longest_match_within alo ahi blo bhi Hle) as Hin.
  destruct (Difflib.find_longest_match a b alo ahi blo bhi) as [[i j] k].
  simpl in Hin. destruct (k =? 0) eqn:Hk; [done|].
  apply Nat.eqb_neq in Hk.
  rewrite (IH d2 alo i blo j) by lia.
  rewrite (IH d2 (i + k) ahi (j + k) bhi) by lia.
  reflexivity.
Qed.

(** The count of [Difflib.matches] is the count at any greater depth. *)
Lemma matches_depth d :
  length a < d ->
  Difflib.matches a b = Difflib.matching a b d 0 (length a) 0 (length b).
Proof.
  intros Hd. unfold Difflib.matches. apply matching_depth; lia.
Qed.
End MatchingDepth.

(** ** Phrase lookup and translation *)

Lemma scored_snd (word : string) (cutoff : Q) (x : string) (r : Q * string) :
  Difflib.scored word cutoff x = Some r -> snd r = x.
Proof.
  unfold Difflib.scored. destruct (_ && _); [|discriminate].
  by intros [= <-].
Qed.

(** [get_close_matches] selects among the possibilities. *)
Lemma get_close_matches_possible word possibilities n cutoff x :
  x ∈ Difflib.get_close_matches word possibilities n cutoff ->
  x ∈ possibilities.
Proof.
  unfold Difflib.get_close_matches. intros Hx.
  apply list_elem_of_fmap in Hx as (r & -> & Hr).
  apply elem_of_take in Hr as (i & Hr & _).
  apply list_elem_of_lookup_2 in Hr. rewrite sort_reverse_perm in Hr.
  apply list_elem_of_omap in Hr as (y & Hy & Hscored).
  by rewrite (scored_snd _ _ _ _ Hscored).
Qed.

Lemma fuzzy_match_phrase_key phrase key :
  fuzzy_match_phrase phrase = Some key -> key ∈ map fst phrasebook.
Proof.
  unfold fuzzy_match_phrase.
  destruct (Difflib.get_close_matches _ _ _ _) as [|c l] eqn:E; [done|].
  intros [= <-]. eapply get_close_matches_possible. rewrite E. left.
Qed.

Lemma phrasebook_key key :
  key ∈ map fst phrasebook ->
  Text.truthy key = true /\ exists translations,
    dict_get key phrasebook = Some translations.
Proof.
  intros Hkey. apply list_elem_of_In in Hkey. simpl in Hkey.
  destruct Hkey as [<-|[<-|[<-|[<-|[<-|[]]]]]]; (split; [done|by eexists]).
Qed.

(** C5. [translate_phrase] has three outcomes. When the phrase resolves to
    a phrasebook key: the translation and the key if the normalized target
    language is in the translations of the key, no translation and the key
    otherwise. When the phrase does not resolve: neither. So "hello" gives
    "Bonjour" in French, and the key "hello" without a translation in
    Klingon, and "xyzzy" gives nothing. *)
Theorem translate_phrase_outcomes :
  (forall phrase target_lang : option string,
     match fuzzy_match_phrase phrase with
     | Some key =>
         key ∈ map fst phrasebook /\
         exists translations,
           dict_get key phrasebook = Some translations /\
           match dict_get (Text.title (Text.strip (Text.or_empty target_lang)))
                   translations with
           | Some translated =>
               translate_phrase phrase target_lang = (Some translated, Some key)
           | None => translate_phrase phrase target_lang = (None, Some key)
           end
     | None => translate_phrase phrase target_lang = (None, None)
     end) /\
  translate_phrase (Some "hello") (Some "French")
    = (Some "Bonjour", Some "hello") /\
  translate_phrase (Some "hello") (Some "Klingon") = (None, Some "hello") /\
  translate_phrase (Some "xyzzy") (Some "French") = (None, None).
Proof.
  split; [|by vm_compute].
  intros phrase target_lang. unfold translate_phrase.
  destruct (fuzzy_match_phrase phrase) as [key|] eqn:E; [|done].
  pose proof (fuzzy_match_phrase_key _ _ E) as Hkey.
  destruct (phrasebook_key key Hkey) as (Htruthy & translations & Hget).
  split; [done|]. exists translations. split; [done|].
  rewrite Htruthy, Hget. cbn [negb default id].
  by destruct (dict_get _ translations).
Qed.

(** ** The model on concrete inputs *)

Example normalize_text_example :
  normalize_text (Some "  Hello,   World! ") = "hello world".
Proof. reflexivity. Qed.

Example normalize_language_example : normalize_language " fRENCH " = "French".
Proof. reflexivity. Qed.

(** [0.1 + 0.2] is not [0.3], and [4.8 + 0.1] is less than [4.9]. *)
Example add_example :
  Num.add Num.tenth (Num.binary64 (2 # 10))
  = (1351079888211149 # 4503599627370496)%Q /\
  Num.ltb (Num.binary64 (3 # 10)) (Num.add Num.tenth (Num.binary64 (2 # 10)))
  = true /\
  Num.ltb (Num.add (Num.binary64 (48 # 10)) Num.tenth) (Num.binary64 (49 # 10))
  = true.
Proof. by vm_compute. Qed.

Example round2_example :
  Num.round2 (Num.div 14 3) = Num.binary64 (467 # 100).
Proof. by vm_compute. Qed.

(** A tie of the decimal goes to the even digit, but only a float that is
    the tie exactly is one: [0.125] is, the float [2.675] is below 2.675,
    and 43/40 is below 1.075. *)
Example round2_tie_example :
  Num.round2 (1 # 8) = Num.binary64 (12 # 100) /\
  Num.round2 (Num.binary64 (2675 # 1000)) = Num.binary64 (267 # 100) /\
  Num.round2 (Num.div 43 40) = Num.binary64 (107 # 100).
Proof. by vm_compute. Qed.

Example ratio_example :
  Difflib.ratio (Text.chars "hello") (Text.chars "helo") = (8 # 9)%Q.
Proof. reflexivity. Qed.

Example fuzzy_match_phrase_example :
  fuzzy_match_phrase (Some "Thank you!!") = Some "thank you" /\
  fuzzy_match_phrase (Some "i need taxi") = Some "i need a taxi" /\
  fuzzy_match_phrase (Some "taxi") = None.
Proof. by vm_compute. Qed.

Example match_providers_example :
  map Provider.name
    (match_providers (Some "french") None true default_providers)
  = ["Maria"; "Ravi"; "Carlos"].
Proof. by vm_compute. Qed.

(** After a review of 4.8 Ravi has the score [4.8 + 0.1], which is less
    than Maria's 4.9. *)
Example match_providers_float_example :
  map Provider.name
    (match_providers None None true
       (providers (fst (add_review "p1" (Num.binary64 (48 # 10)) "" 0%Z
                          initial_state))))
  = ["Maria"; "Ravi"; "Carlos"].
Proof. by vm_compute. Qed.

(** A review replaces the seed rating: the mean is over the reviews only. *)
Example add_review_example :
  snd (add_review "p1" 3 "ok" 0%Z initial_state) = Some 3%Q /\
  snd (add_review "p1" 4 "good" 1%Z
         (fst (add_review "p1" 3 "ok" 0%Z initial_state)))
  = Some (7 # 2)%Q.
Proof. by vm_compute. Qed.

(** Two toggles of the same provider restore the list of providers. *)
Example toggle_twice_example :
  providers (admin_menu "2" "3" 2000%Z (admin_menu "2" "3" 1000%Z initial_state))
  = default_providers.
Proof. reflexivity. Qed.

(** * Further properties of the code *)

(** ** Storage and start-up *)

Lemma load_json_eq (path : string) (default : document) (fs : filesystem) :
  load_json path default fs
  = (ensure_data_dir fs,
     match files fs !! path with
     | Some (Json d) => d
     | Some Unparsable | None => default
     end).
Proof.
  unfold load_json. cbn [ensure_data_dir files].
  by destruct (files fs !! path) as [[d|]|].
Qed.

Lemma save_state_synced (st : state) : synced (save_state st).
Proof.
  unfold synced, save_state, save_json.
  cbn [providers bookings disk files ensure_data_dir]. split.
  - rewrite lookup_insert_ne by discriminate. by rewrite lookup_insert_eq.
  - by rewrite lookup_insert_eq.
Qed.

(** X3. On a first run, without any file, the program starts from the seed
    providers and no booking; once [save_state] has run the files hold the
    two lists. *)
Theorem first_run (fs : filesystem) :
  files fs !! PROVIDERS_FILE = None -> files fs !! BOOKINGS_FILE = None ->
  exists st,
    load_state fs = Some st /\
    providers st = default_providers /\ bookings st = [] /\
    files (disk st) = files fs /\
    synced (save_state st).
Proof.
  intros Hp Hb. unfold load_state. rewrite !load_json_eq.
  cbn [ensure_data_dir files]. rewrite Hp, Hb.
  eexists. split; [done|]. cbn [providers bookings disk files].
  do 3 (split; [done|]). apply save_state_synced.
Qed.

Lemma first_run_witness :
  exists st,
    load_state (mkfs false ∅) = Some st /\
    providers st = default_providers /\ bookings st = [] /\
    files (disk st) = ∅ /\
    synced (save_state st).
Proof. apply (first_run (mkfs false ∅)); reflexivity. Defined.

(** X4. A restart restores the state: when the files hold the two lists,
    [load_state] on the disk gives back the same providers and bookings. *)
Theorem restart_restores (st : state) :
  synced st ->
  load_state (disk st)
  = Some (mkstate (providers st) (bookings st) (ensure_data_dir (disk st))).
Proof.
  intros [Hp Hb]. unfold load_state. rewrite !load_json_eq.
  cbn [ensure_data_dir files]. by rewrite Hp, Hb.
Qed.

Lemma restart_restores_witness :
  load_state (disk (save_state initial_state))
  = Some (mkstate default_providers []
            (ensure_data_dir (disk (save_state initial_state)))).
Proof.
  apply (restart_restores (save_state initial_state)).
  apply save_state_synced.
Defined.

(** ** What the operations keep *)

Lemma update_first_map {B : Type} (g : Provider.t -> B) pid f ps ps' q :
  (forall p, g (f p) = g p) ->
  update_first pid f ps = Some (ps', q) -> map g ps' = map g ps.
Proof.
  intros Hg. revert ps'. induction ps as [|p r IH]; intros ps' H; simpl in H.
  - discriminate.
  - destruct (String.eqb (Provider.id p) pid).
    + injection H as <- _. simpl. f_equal. apply Hg.
    + destruct (update_first pid f r) as [[r' q0]|]; [|discriminate].
      injection H as <- <-. simpl. f_equal. by apply IH.
Qed.

(** X5. [add_review] with an id that no provider has returns [None] and
    changes nothing: no provider, no booking and no file. *)
Theorem add_review_not_found (provider_id : string) (rating : Q)
  (comment : string) (now : time) (st : state) :
  (forall p, p ∈ providers st -> Provider.id p <> provider_id) ->
  add_review provider_id rating comment now st = (st, None).
Proof.
  intros Hnone. unfold add_review.
  apply (proj2 (update_first_None provider_id
                  (with_review rating comment now) _)) in Hnone.
  by rewrite Hnone.
Qed.

Lemma add_review_not_found_witness :
  add_review "p7" 5 "great" 0%Z initial_state = (initial_state, None).
Proof.
  apply add_review_not_found. intros p Hp.
  apply list_elem_of_In in Hp. simpl in Hp.
  destruct Hp as [<-|[<-|[<-|[]]]]; by_evaluation.
Defined.

(** X6. No operation adds, removes, reorders or renames a provider: the
    ids, names, services, languages and locations of the providers are the
    same, position by position, after [update_provider_availability],
    [add_review], [create_booking] and [admin_menu]. *)
Theorem operations_keep_providers (st : state) :
  (forall pid a n,
     map identity (providers (fst (update_provider_availability pid a n st)))
     = map identity (providers st)) /\
  (forall pid r c now,
     map identity (providers (fst (add_review pid r c now st)))
     = map identity (providers st)) /\
  (forall tourist p language phone uuid t1 t2,
     providers (fst (create_booking tourist p language phone uuid t1 t2 st))
     = providers st) /\
  (forall choice sel now,
     map identity (providers (admin_menu choice sel now st))
     = map identity (providers st)).
Proof.
  assert (forall pid a n,
            map identity (providers (fst (update_provider_availability pid a n st)))
            = map identity (providers st)) as Havailability.
  { intros pid a n. unfold update_provider_availability.
    destruct (update_first _ _ _) as [[ps' q]|] eqn:E; [|done].
    by apply (update_first_map identity) in E. }
  split; [exact Havailability|]. split; [|split].
  - intros pid r c now. unfold add_review.
    destruct (update_first _ _ _) as [[ps' q]|] eqn:E; [|done].
    by apply (update_first_map identity) in E.
  - done.
  - intros choice sel now. unfold admin_menu, toggle_provider_availability.
    destruct (String.eqb choice "2"); [|done].
    destruct (listable (providers st)); [|done].
    destruct (negb (isdigit sel)); [done|].
    destruct (_ && _); [|done].
    destruct (providers st !! _); [|done]. apply Havailability.
Qed.

(** X7. A change of availability leaves every rating and every list of
    reviews as it was, and a review leaves every availability flag and
    next-available time as it was; neither touches the bookings. *)
Theorem availability_and_reviews_are_separate (st : state) :
  (forall pid a n,
     let st' := fst (update_provider_availability pid a n st) in
     map Provider.rating (providers st') = map Provider.rating (providers st) /\
     map Provider.reviews (providers st') = map Provider.reviews (providers st) /\
     bookings st' = bookings st) /\
  (forall pid r c now,
     let st' := fst (add_review pid r c now st) in
     map Provider.available (providers st')
       = map Provider.available (providers st) /\
     map Provider.next_available (providers st')
       = map Provider.next_available (providers st) /\
     bookings st' = bookings st).
Proof.
  split.
  - intros pid a n. unfold update_provider_availability.
    destruct (update_first _ _ _) as [[ps' q]|] eqn:E; [|done].
    cbn. split; [|split; [|done]].
    + by apply (update_first_map Provider.rating) in E.
    + by apply (update_first_map Provider.reviews) in E.
  - intros pid r c now. unfold add_review.
    destruct (update_first _ _ _) as [[ps' q]|] eqn:E; [|done].
    cbn. split; [|split; [|done]].
    + by apply (update_first_map Provider.available) in E.
    + by apply (update_first_map Provider.next_available) in E.
Qed.

Lemma synced_save_providers (st : state) (ps : list Provider.t) :
  synced st ->
  synced (mkstate ps (bookings st)
            (save_json PROVIDERS_FILE (ProvidersDoc ps) (disk st))).
Proof.
  intros [_ Hb]. unfold synced, save_json.
  cbn [providers bookings disk files ensure_data_dir]. split.
  - by rewrite lookup_insert_eq.
  - by rewrite lookup_insert_ne by discriminate.
Qed.

Lemma synced_update_provider_availability pid a n st :
  synced st -> synced (fst (update_provider_availability pid a n st)).
Proof.
  intros Hs. unfold update_provider_availability.
  destruct (update_first _ _ _) as [[ps' q]|]; [|done].
  by apply synced_save_providers.
Qed.

(** X8. The files follow the memory: when the two files hold the two lists,
    they still do after [update_provider_availability], [add_review],
    [create_booking] and [admin_menu], whether the call succeeds or not. *)
Theorem operations_keep_synced (st : state) :
  synced st ->
  (forall pid a n, synced (fst (update_provider_availability pid a n st))) /\
  (forall pid r c now, synced (fst (add_review pid r c now st))) /\
  (forall tourist p language phone uuid t1 t2,
     synced (fst (create_booking tourist p language phone uuid t1 t2 st))) /\
  (forall choice sel now, synced (admin_menu choice sel now st)).
Proof.
  intros Hs. split; [|split; [|split]].
  - intros. by apply synced_update_provider_availability.
  - intros pid r c now. unfold add_review.
    destruct (update_first _ _ _) as [[ps' q]|]; [|done].
    by apply synced_save_providers.
  - intros. destruct Hs as [Hp _]. unfold create_booking, synced, save_json.
    cbn [fst providers bookings disk files ensure_data_dir]. split.
    + by rewrite lookup_insert_ne by discriminate.
    + by rewrite lookup_insert_eq.
  - intros choice sel now. unfold admin_menu, toggle_provider_availability.
    destruct (String.eqb choice "2"); [|done].
    destruct (listable (providers st)); [|done].
    destruct (negb (isdigit sel)); [done|].
    destruct (_ && _); [|done].
    destruct (providers st !! _); [|done].
    by apply synced_update_provider_availability.
Qed.

Lemma operations_keep_synced_witness :
  synced (fst (add_review "p1" 4 "" 0%Z (save_state initial_state))) /\
  synced (admin_menu "2" "1" 0%Z (save_state initial_state)).
Proof.
  pose proof (operations_keep_synced (save_state initial_state)
                (save_state_synced initial_state)) as (_ & Hreview & _ & Hadmin).
  split; [apply Hreview|apply Hadmin].
Defined.

(** X9. A booking survives a restart: after [create_booking], reading the
    bookings file gives the earlier bookings followed by the new one, which
    has the id, tourist and provider fields of the returned record and
    exactly one history entry, with status "Confirmed". *)
Theorem create_booking_reload (tourist : string) (provider : Provider.t)
  (language phone : option string) (uuid : string)
  (now_created now_history : time) (default : document) (st : state) :
  let '(st', booking) :=
    create_booking tourist provider language phone uuid
      now_created now_history st in
  snd (load_json BOOKINGS_FILE default (disk st'))
    = BookingsDoc (bookings st ++ [booking]) /\
  Booking.id booking = String.substring 0 8 uuid /\
  Booking.tourist booking = tourist /\
  Booking.provider_id booking = Provider.id provider /\
  map History.status (Booking.history booking) = ["Confirmed"] /\
  Booking.status booking = "Confirmed".
Proof.
  unfold create_booking. cbn [disk]. rewrite load_save. by repeat split.
Qed.

(** ** The admin menu *)

Lemma update_first_at pid f ps i p :
  first_with_id pid ps i p ->
  update_first pid f ps = Some (<[i := f p]> ps, f p).
Proof.
  revert i. induction ps as [|x r IH]; intros i (Hi & Hid & Hfirst).
  - by rewrite lookup_nil in Hi.
  - simpl. destruct i as [|i]; simpl in Hi.
    + injection Hi as ->. apply String.eqb_eq in Hid. by rewrite Hid.
    + assert (Provider.id x <> pid) as Hx by (apply (Hfirst 0); [lia|done]).
      apply String.eqb_neq in Hx. rewrite Hx.
      rewrite (IH i); [done|]. repeat split; [done|done|].
      intros j q Hj Hq. apply (Hfirst (S j)); [lia|done].
Qed.

Lemma first_with_id_insert pid ps i p p' :
  first_with_id pid ps i p -> Provider.id p' = pid ->
  first_with_id pid (<[i := p']> ps) i p'.
Proof.
  intros (Hi & Hid & Hfirst) Hid'. repeat split; [|done|].
  - apply list_lookup_insert_eq. by apply lookup_lt_Some in Hi.
  - intros j q Hj Hq. rewrite list_lookup_insert_ne in Hq by lia.
    by apply (Hfirst j).
Qed.

(** The state after a toggle of the first provider with its id. *)
Lemma toggle_state sel now st i p :
  Forall (fun q => is_Some (Provider.language q)) (providers st) ->
  isdigit sel = true -> int_of_digits sel = Z.of_nat (S i) ->
  first_with_id (Provider.id p) (providers st) i p ->
  let p' := Provider.set_availability (negb (Provider.get_available p))
              (if Provider.get_available p then Some (now + one_hour)%Z
               else None) p in
  let ps' := <[i := p']> (providers st) in
  admin_menu "2" sel now st
  = mkstate ps' (bookings st)
      (save_json PROVIDERS_FILE (ProvidersDoc ps') (disk st)).
Proof.
  intros Hlisted Hdigit Hint Hfirst p' ps'.
  rewrite (toggle_at sel now st i p Hlisted Hdigit Hint (proj1 Hfirst)).
  unfold update_provider_availability.
  rewrite (update_first_at (Provider.id p) _ (providers st) i p Hfirst).
  rewrite negb_involutive.
  reflexivity.
Qed.

(** X10. The admin menu changes nothing, in memory or on disk, unless the
    choice is 2 and the selection is a string of digits that names a
    position of the list of providers, counted from 1. The selection is
    taken to be ASCII: [isdigit] of Python accepts digits of other scripts,
    which the model of [isdigit] does not know. *)
Theorem admin_menu_invalid (choice sel : string) (now : time) (st : state) :
  Text.is_ascii sel = true ->
  choice <> "2" \/ isdigit sel = false \/ int_of_digits sel = 0%Z \/
  (Z.of_nat (length (providers st)) < int_of_digits sel)%Z ->
  admin_menu choice sel now st = st.
Proof.
  intros _ H. unfold admin_menu, toggle_provider_availability.
  destruct (String.eqb choice "2") eqn:Hc; [|done].
  apply String.eqb_eq in Hc.
  destruct (listable (providers st)); [|done].
  destruct H as [H|[H|[H|H]]]; [done|by rewrite H|..];
    (destruct (negb (isdigit sel)); [done|]).
  - by rewrite H.
  - replace ((int_of_digits sel - 1 <? Z.of_nat (length (providers st)))%Z)
      with false by (symmetry; apply Z.ltb_ge; lia).
    by rewrite andb_false_r.
Qed.

Lemma admin_menu_invalid_witness :
  admin_menu "2" "4" 0%Z initial_state = initial_state /\
  admin_menu "2" "0" 0%Z initial_state = initial_state /\
  admin_menu "2" "x" 0%Z initial_state = initial_state.
Proof.
  split; [|split]; apply admin_menu_invalid; try reflexivity.
  - do 3 right. by_evaluation.
  - right. right. left. reflexivity.
  - right. left. reflexivity.
Defined.

(** X11. Two toggles of a provider give back its availability: the flag is
    what it was, the other providers are as they were, and a provider that
    was available has no next-available time left. The menu lists the
    providers before it asks for the selection, which reads the language of
    each: every provider is taken to have one. *)
Theorem toggle_twice (sel : string) (now1 now2 : time) (st : state)
  (i : nat) (p : Provider.t) :
  Forall (fun q => is_Some (Provider.language q)) (providers st) ->
  isdigit sel = true -> int_of_digits sel = Z.of_nat (S i) ->
  first_with_id (Provider.id p) (providers st) i p ->
  let st2 := admin_menu "2" sel now2 (admin_menu "2" sel now1 st) in
  providers st2
  = <[i := Provider.set_availability (Provider.get_available p)
             (if Provider.get_available p then None
              else Some (now2 + one_hour)%Z) p]> (providers st)
  /\ bookings st2 = bookings st.
Proof.
  intros Hlisted Hdigit Hint Hfirst st2. subst st2.
  rewrite (toggle_state sel now1 st i p Hlisted Hdigit Hint Hfirst).
  set (p1 := Provider.set_availability _ _ p).
  rewrite (toggle_state sel now2 _ i p1).
  - cbn [providers bookings]. rewrite list_insert_insert_eq. split; [|done].
    f_equal. unfold p1, Provider.set_availability, Provider.get_available.
    cbn. rewrite negb_involutive.
    by destruct (default true (Provider.available p)).
  - cbn [providers]. apply Forall_insert; [done|].
    rewrite Forall_forall in Hlisted. apply (Hlisted p).
    eapply list_elem_of_lookup_2. exact (proj1 Hfirst).
  - done.
  - done.
  - cbn [providers].
    exact (first_with_id_insert (Provider.id p) (providers st) i p p1
             Hfirst eq_refl).
Qed.

Lemma toggle_twice_witness :
  providers (admin_menu "2" "1" 9%Z (admin_menu "2" "1" 5%Z initial_state))
  = default_providers.
Proof.
  pose proof (toggle_twice "1" 5%Z 9%Z initial_state 0
                (Provider.mk "p1" "Ravi" "Taxi Driver" (Some "Telugu")
                   (Some (Num.binary64 (48 # 10))) (Some []) (Some true) None
                   (Some (Location.mk (Num.binary64 (1745 # 100))
                            (Num.binary64 (7845 # 100)))))) as H.
  cbv zeta in H. destruct H as [H _].
  - repeat constructor; by eexists.
  - reflexivity.
  - reflexivity.
  - repeat split. intros j q Hj. lia.
  - rewrite H. reflexivity.
Defined.

(** ** More on the matcher *)

Section FilterSort.
Context {A : Type} (key : A -> Q) (f : A -> bool).

Lemma insert_reverse_head (x : A) (l : list A) :
  Forall (fun z => key_ltb key x z = false) l ->
  insert_reverse (key_ltb key) x l = x :: l.
Proof. intros H. destruct H as [|z l Hz _]; simpl; [done|by rewrite Hz]. Qed.

Lemma filter_insert_reverse (x : A) (s : list A) :
  StronglySorted (descending key) s ->
  List.filter f (insert_reverse (key_ltb key) x s)
  = if f x then insert_reverse (key_ltb key) x (List.filter f s)
    else List.filter f s.
Proof.
  induction 1 as [|y s' Hs IH Hy].
  - simpl. by destruct (f x).
  - cbn [insert_reverse]. destruct (key_ltb key x y) eqn:E.
    + cbn [List.filter]. rewrite IH.
      destruct (f y), (f x); try done. cbn [insert_reverse]. by rewrite E.
    + cbn [List.filter]. destruct (f x) eqn:Hx, (f y) eqn:Hfy; try done.
      * cbn [insert_reverse]. by rewrite E.
      * symmetry. apply insert_reverse_head.
        apply Forall_forall. intros z Hz. apply list_elem_of_In in Hz.
        apply filter_In in Hz as [Hz _]. apply list_elem_of_In in Hz.
        rewrite Forall_forall in Hy. specialize (Hy z Hz).
        unfold key_ltb in *. apply ltb_ge in E. apply ltb_ge.
        unfold descending in Hy. by apply Qle_trans with (key y).
Qed.

(** Filtering a ranking is ranking the filtered list. *)
Lemma filter_sort_reverse (l : list A) :
  List.filter f (sort_reverse (key_ltb key) l)
  = sort_reverse (key_ltb key) (List.filter f l).
Proof.
  induction l as [|x r IH]; [done|].
  cbn [sort_reverse List.filter].
  rewrite filter_insert_reverse by apply sort_reverse_sorted.
  rewrite IH. by destruct (f x).
Qed.
End FilterSort.

(** X12. Asking for the available providers only gives the available
    providers of the unrestricted ranking, in the same order: the retry of
    the booking flow with busy providers included only adds providers. *)
Theorem match_providers_available_only
  (preferred_language service_filter : option string) (ps : list Provider.t) :
  match_providers preferred_language service_filter true ps
  = List.filter Provider.get_available
      (match_providers preferred_language service_filter false ps).
Proof.
  rewrite !match_providers_sort. unfold candidates.
  symmetry. apply filter_sort_reverse.
Qed.

Lemma contains_empty_string (s : string) : Text.contains "" s = true.
Proof. by destruct s. Qed.

(** X13. [match_providers] returns exactly the providers that pass the
    filters, each as often as it is in the store: it is a rearrangement of
    the filtered list, it is empty only when no provider passes, and the
    empty filter string keeps every service. *)
Theorem match_providers_complete
  (preferred_language service_filter : option string) (only_available : bool)
  (ps : list Provider.t) :
  let passes p :=
    service_matches service_filter p
    && (negb only_available || Provider.get_available p) in
  match_providers preferred_language service_filter only_available ps
    ≡ₚ List.filter passes ps /\
  (match_providers preferred_language service_filter only_available ps = []
   <-> forall p, p ∈ ps -> passes p = false) /\
  match_providers preferred_language (Some "") only_available ps
  = match_providers preferred_language None only_available ps.
Proof.
  intros passes.
  assert (candidates service_filter only_available ps = List.filter passes ps)
    as Hcandidates.
  { unfold candidates, passes. destruct only_available; cbn [negb orb].
    - induction ps as [|p r IH]; [done|]. cbn [List.filter].
      destruct (service_matches service_filter p); cbn [List.filter andb].
      + destruct (Provider.get_available p); by rewrite IH.
      + exact IH.
    - apply List.filter_ext. intros p. by rewrite andb_true_r. }
  split; [|split].
  - rewrite match_providers_perm. by rewrite Hcandidates.
  - split.
    + intros Hnil p Hp. destruct (passes p) eqn:E; [|done].
      assert (p ∈ match_providers preferred_language service_filter
                    only_available ps) as Hin.
      { rewrite match_providers_perm, Hcandidates.
        apply list_elem_of_In, filter_In. split; [|done].
        by apply list_elem_of_In. }
      rewrite Hnil in Hin. by apply not_elem_of_nil in Hin.
    + intros Hnone. apply Permutation_nil_r.
      rewrite match_providers_perm, Hcandidates. clear Hcandidates.
      induction ps as [|p r IH]; [done|]. cbn [List.filter].
      rewrite (Hnone p) by left. apply IH. intros q Hq. apply Hnone. by right.
  - rewrite !match_providers_sort. f_equal. unfold candidates.
    assert (List.filter (service_matches (Some "")) ps
            = List.filter (service_matches None) ps) as ->; [|done].
    apply List.filter_ext. intros p. unfold service_matches.
    change (Text.lower "") with "". apply contains_empty_string.
Qed.

(** ** Language labels *)

Lemma char_case (c : ascii) :
  (Text.is_lower c = true ->
   Text.is_upper c = false /\ Text.to_lower c = c /\
   Text.to_lower (Text.to_upper c) = c) /\
  (Text.is_upper c = true ->
   Text.is_lower c = false /\ Text.is_lower (Text.to_lower c) = true /\
   Text.to_upper (Text.to_lower c) = c /\
   Text.to_lower (Text.to_lower c) = Text.to_lower c) /\
  (Text.is_lower c = false -> Text.is_upper c = false -> Text.to_lower c = c).
Proof.
  destruct c as [[] [] [] [] [] [] [] []]; vm_compute; repeat split; congruence.
Qed.

Lemma title_chars_lower (b : bool) (l : list ascii) :
  Text.title_chars b (map Text.to_lower l) = Text.title_chars b l.
Proof.
  revert b. induction l as [|c r IH]; intros b; [done|].
  cbn [map Text.title_chars].
  destruct (char_case c) as (Hlow & Hup & Hnone).
  destruct (Text.is_lower c) eqn:El.
  - destruct (Hlow eq_refl) as (_ & -> & _). by rewrite El, IH.
  - destruct (Text.is_upper c) eqn:Eu.
    + destruct (Hup eq_refl) as (_ & -> & -> & _). by rewrite IH.
    + rewrite (Hnone eq_refl eq_refl), El, Eu. by rewrite IH.
Qed.

Lemma lower_title_chars (b : bool) (l : list ascii) :
  map Text.to_lower (Text.title_chars b l) = map Text.to_lower l.
Proof.
  revert b. induction l as [|c r IH]; intros b; [done|].
  cbn [map Text.title_chars].
  destruct (char_case c) as (Hlow & Hup & Hnone).
  destruct (Text.is_lower c) eqn:El.
  - destruct (Hlow eq_refl) as (_ & Hc & Hcu). cbn [map]. rewrite IH.
    destruct b; by rewrite ?Hcu, ?Hc.
  - destruct (Text.is_upper c) eqn:Eu.
    + destruct (Hup eq_refl) as (_ & _ & _ & Hll). cbn [map]. rewrite IH.
      destruct b; by rewrite ?Hll.
    + cbn [map]. by rewrite IH.
Qed.

Lemma text_inj (l1 l2 : list ascii) : Text.text l1 = Text.text l2 -> l1 = l2.
Proof.
  intros H. apply (f_equal Text.chars) in H. unfold Text.chars, Text.text in H.
  by rewrite !list_ascii_of_string_of_list_ascii in H.
Qed.

Lemma normalize_language_lower (s t : string) :
  normalize_language s = normalize_language t <->
  Text.lower (Text.strip s) = Text.lower (Text.strip t).
Proof.
  unfold normalize_language, Text.title, Text.lower. split; intros H.
  - apply text_inj in H. f_equal.
    rewrite <- (lower_title_chars false (Text.chars (Text.strip s))).
    rewrite <- (lower_title_chars false (Text.chars (Text.strip t))).
    by rewrite H.
  - apply text_inj in H. f_equal.
    rewrite <- (title_chars_lower false (Text.chars (Text.strip s))).
    rewrite <- (title_chars_lower false (Text.chars (Text.strip t))).
    by rewrite H.
Qed.

Lemma normalize_language_empty (s : string) :
  normalize_language s = "" <-> Text.strip s = "".
Proof.
  unfold normalize_language, Text.title. split.
  - intros H. rewrite <- (string_of_list_ascii_of_string (Text.strip s)).
    fold (Text.chars (Text.strip s)).
    destruct (Text.chars (Text.strip s)) as [|c r]; [done|].
    simpl in H. destruct (Text.is_lower c); [discriminate|].
    destruct (Text.is_upper c); discriminate.
  - by intros ->.
Qed.

Lemma truthy_nonempty (s : string) : Text.truthy s = true <-> s <> "".
Proof. by destruct s. Qed.

(** X14. For ASCII labels, the language bonus is insensitive to case and
    to surrounding whitespace, and to nothing else: a provider gets it
    exactly when the preferred language is not blank and the two labels,
    stripped and put in lower case, are the same string. *)
Theorem language_matches_insensitive (preferred_language : string)
  (p : Provider.t) :
  Text.is_ascii preferred_language = true ->
  Text.is_ascii (Provider.get_language p) = true ->
  language_matches (preferred_lang (Some preferred_language)) p = true <->
  Text.strip preferred_language <> "" /\
  Text.lower (Text.strip (Provider.get_language p))
  = Text.lower (Text.strip preferred_language).
Proof.
  intros _ _.
  rewrite <- normalize_language_lower, <- normalize_language_empty.
  unfold language_matches, preferred_lang.
  destruct (Text.truthy preferred_language) eqn:Et.
  - rewrite andb_true_iff, String.eqb_eq, truthy_nonempty. done.
  - destruct preferred_language; [|discriminate].
    split; [done|]. by intros [H _].
Qed.

Lemma language_matches_insensitive_witness :
  language_matches (preferred_lang (Some "  FRENCH ")) bruno = true <->
  Text.strip "  FRENCH " <> "" /\
  Text.lower (Text.strip (Provider.get_language bruno))
  = Text.lower (Text.strip "  FRENCH ").
Proof. apply language_matches_insensitive; reflexivity. Defined.

(** ** More on translation and detection *)

Lemma dict_get_is_Some {V : Type} (k : string) (d : list (string * V)) :
  is_Some (dict_get k d) <-> k ∈ map fst d.
Proof.
  split.
  - intros [v Hv]. apply dict_get_Some in Hv.
    apply list_elem_of_fmap. by exists (k, v).
  - intros Hk. destruct (dict_get k d) eqn:E; [done|]. exfalso.
    induction d as [|[k' v] r IH]; simpl in *.
    + by apply not_elem_of_nil in Hk.
    + destruct (String.eqb k' k) eqn:Ek; [discriminate|].
      apply String.eqb_neq in Ek.
      apply elem_of_cons in Hk as [->|Hk]; [done|]. by apply IH.
Qed.

(** X15. [translate_phrase] gives a translation exactly when the phrase
    resolves to a phrasebook key and the target language, stripped and
    title-cased, is French, Spanish or Telugu: every key has these three
    translations and no other. *)
Theorem translate_phrase_languages (phrase target_lang : option string) :
  is_Some (fst (translate_phrase phrase target_lang)) <->
  is_Some (fuzzy_match_phrase phrase) /\
  normalize_language (Text.or_empty target_lang)
    ∈ ["French"; "Spanish"; "Telugu"].
Proof.
  unfold translate_phrase.
  destruct (fuzzy_match_phrase phrase) as [key|] eqn:E.
  - pose proof (fuzzy_match_phrase_key _ _ E) as Hkey.
    assert (Text.truthy key = true /\
            exists translations, dict_get key phrasebook = Some translations /\
              map fst translations = ["French"; "Spanish"; "Telugu"])
      as (-> & translations & -> & Hlangs).
    { apply list_elem_of_In in Hkey. simpl in Hkey.
      destruct Hkey as [<-|[<-|[<-|[<-|[<-|[]]]]]];
        (split; [done|by eexists]). }
    cbn [negb default id]. rewrite <- Hlangs, <- dict_get_is_Some.
    fold (normalize_language (Text.or_empty target_lang)).
    destruct (dict_get _ translations); cbn [fst]; split.
    + by intros _.
    + done.
    + by intros []%is_Some_None.
    + by intros [_ []%is_Some_None].
  - cbn [fst]. split; [by intros []%is_Some_None|by intros [[]%is_Some_None _]].
Qed.

(** X16. Without the detector, [detect_language] never answers English,
    and the markers are tried in the order French, Spanish, Telugu: a text
    with a French marker is French whatever else it contains. *)
Theorem detect_language_fallback (detect : string -> outcome string)
  (text : option string) :
  let t := Text.lower (Text.strip (Text.or_empty text)) in
  let result := detect_language false detect text in
  result <> Returns (Some "English") /\
  (any_in french_markers t = true -> result = Returns (Some "French")) /\
  (any_in french_markers t = false -> any_in spanish_markers t = true ->
   result = Returns (Some "Spanish")) /\
  (any_in french_markers t = false -> any_in spanish_markers t = false ->
   any_in telugu_markers t = true -> result = Returns (Some "Telugu")).
Proof.
  intros t result. subst t result. unfold detect_language.
  destruct (Text.strip (Text.or_empty text)) as [|c s] eqn:E.
  - cbn [Text.truthy negb]. repeat split; try done;
      change (Text.lower "") with ""; by vm_compute.
  - cbn [Text.truthy negb]. rewrite <- E.
    destruct (any_in french_markers _); [by repeat split|].
    destruct (any_in spanish_markers _); [by repeat split|].
    destruct (any_in telugu_markers _); by repeat split.
Qed.

(** ** More on the phrase lookup *)

Lemma pair_ltb_true (x y : Q * string) :
  Difflib.pair_ltb x y = true -> (fst x <= fst y)%Q.
Proof.
  unfold Difflib.pair_ltb. destruct (Qeq_bool (fst x) (fst y)) eqn:E.
  - intros _. apply Qeq_bool_iff in E. rewrite E. apply Qle_refl.
  - intros H%ltb_lt. by apply Qlt_le_weak.
Qed.

Lemma pair_ltb_false (x y : Q * string) :
  Difflib.pair_ltb x y = false -> (fst y <= fst x)%Q.
Proof.
  unfold Difflib.pair_ltb. destruct (Qeq_bool (fst x) (fst y)) eqn:E.
  - intros _. apply Qeq_bool_iff in E. rewrite E. apply Qle_refl.
  - by intros H%ltb_ge.
Qed.

(** The pairs come out by descending score. *)
Lemma sort_reverse_pairs_sorted (l : list (Q * string)) :
  StronglySorted (descending fst) (sort_reverse Difflib.pair_ltb l).
Proof.
  induction l as [|x r IH]; simpl; [constructor|].
  induction IH as [|y s Hs IHs Hy]; simpl.
  - repeat constructor.
  - destruct (Difflib.pair_ltb x y) eqn:E.
    + constructor; [done|]. rewrite insert_reverse_perm.
      constructor; [|done]. by apply pair_ltb_true.
    + apply pair_ltb_false in E. constructor; [by constructor|].
      constructor; [done|]. eapply Forall_impl; [exact Hy|].
      unfold descending. intros z Hz. by apply Qle_trans with (fst y).
Qed.

Lemma scored_Some word cutoff x r :
  Difflib.scored word cutoff x = Some r ->
  r = (Difflib.ratio (Text.chars x) (Text.chars word), x) /\
  (cutoff <= Difflib.ratio (Text.chars x) (Text.chars word))%Q.
Proof.
  unfold Difflib.scored. destruct (_ && _) eqn:E; [|discriminate].
  intros [= <-]. split; [done|]. apply andb_prop in E as [_ E].
  by apply Qle_bool_iff in E.
Qed.

(** X17. When [fuzzy_match_phrase] resolves a phrase, the key it returns is
    a phrasebook key whose similarity to the normalized phrase is at least
    0.6, and no key that passes the cutoff tests has a greater similarity;
    it resolves nothing exactly when no key passes the tests. *)
Theorem fuzzy_match_phrase_best (phrase : option string) :
  let word := normalize_text phrase in
  let similarity k := Difflib.ratio (Text.chars k) (Text.chars word) in
  let accepted k := is_Some (Difflib.scored word (6 # 10) k) in
  match fuzzy_match_phrase phrase with
  | Some key =>
      key ∈ map fst phrasebook /\ accepted key /\
      (6 # 10 <= similarity key)%Q /\
      forall k, k ∈ map fst phrasebook -> accepted k ->
                (similarity k <= similarity key)%Q
  | None => forall k, k ∈ map fst phrasebook -> ~ accepted k
  end.
Proof.
  intros word similarity accepted. unfold fuzzy_match_phrase.
  fold word. unfold Difflib.get_close_matches.
  pose proof (sort_reverse_pairs_sorted
                (omap (Difflib.scored word (6 # 10)) (map fst phrasebook)))
    as Hsorted.
  pose proof (sort_reverse_perm Difflib.pair_ltb
                (omap (Difflib.scored word (6 # 10)) (map fst phrasebook)))
    as Hperm.
  destruct (sort_reverse Difflib.pair_ltb _) as [|[r key] rest] eqn:E.
  - cbn. intros k Hk [v Hv].
    assert (v ∈ omap (Difflib.scored word (6 # 10)) (map fst phrasebook)) as Hin.
    { apply list_elem_of_omap. by exists k. }
    rewrite <- Hperm in Hin. by apply not_elem_of_nil in Hin.
  - cbn [take map snd].
    assert ((r, key) ∈ omap (Difflib.scored word (6 # 10)) (map fst phrasebook))
      as Hin by (rewrite <- Hperm; left).
    apply list_elem_of_omap in Hin as (k0 & Hk0 & Hscored).
    pose proof (scored_snd _ _ _ _ Hscored) as Hkey. cbn in Hkey. subst k0.
    destruct (scored_Some _ _ _ _ Hscored) as [[= Hr] Hcut].
    split; [done|]. split; [by eexists|]. split; [done|].
    intros k Hk [v Hv].
    destruct (scored_Some _ _ _ _ Hv) as [-> _].
    assert ((similarity k, k) ∈ (r, key) :: rest) as Hin.
    { rewrite Hperm. apply list_elem_of_omap. by exists k. }
    apply StronglySorted_inv in Hsorted as [_ Hall].
    apply elem_of_cons in Hin as [[= Hsim _]|Hin].
    + unfold similarity in *. rewrite Hsim, Hr. apply Qle_refl.
    + rewrite Forall_forall in Hall. specialize (Hall _ Hin).
      unfold descending in Hall. cbn [fst] in Hall.
      unfold similarity. by rewrite <- Hr.
Qed.

(** X18. A phrase that is a phrasebook key up to case, punctuation and
    spacing resolves to that key. *)
Theorem fuzzy_match_phrase_exact (phrase : option string) :
  normalize_text phrase ∈ map fst phrasebook ->
  fuzzy_match_phrase phrase = Some (normalize_text phrase).
Proof.
  intros Hkey. unfold fuzzy_match_phrase.
  apply list_elem_of_In in Hkey. simpl in Hkey.
  destruct Hkey as [H|[H|[H|[H|[H|[]]]]]]; rewrite <- H; by vm_compute.
Qed.

Lemma fuzzy_match_phrase_exact_witness :
  fuzzy_match_phrase (Some "  Where   IS?! ")
  = Some (normalize_text (Some "  Where   IS?! ")).
Proof.
  apply fuzzy_match_phrase_exact. vm_compute.
  do 3 apply list_elem_of_further. apply list_elem_of_here.
Defined.

(** ** The range of the ratings *)

Lemma sum_bounds (lo hi : Z) (l : list Q) (acc : Q) (n : nat) :
  Forall (fun x => inject_Z lo <= x /\ x <= inject_Z hi)%Q l ->
  (Z.abs lo * Z.of_nat (n + length l) < 2 ^ 53)%Z ->
  (Z.abs hi * Z.of_nat (n + length l) < 2 ^ 53)%Z ->
  (inject_Z (lo * Z.of_nat n) <= acc /\ acc <= inject_Z (hi * Z.of_nat n))%Q ->
  (inject_Z (lo * Z.of_nat (n + length l)) <= fold_left Num.add l acc /\
   fold_left Num.add l acc <= inject_Z (hi * Z.of_nat (n + length l)))%Q.
Proof.
  intros Hl. revert acc n. induction Hl as [|x r [Hx1 Hx2] Hr IH];
    intros acc n Hlo Hhi [H1 H2]; simpl in *.
  - by rewrite Nat.add_0_r.
  - replace (n + S (length r)) with (S n + length r) in * by lia.
    apply IH; [done|done|].
    assert (inject_Z (lo * Z.of_nat (S n)) == inject_Z (lo * Z.of_nat n)
                                              + inject_Z lo)%Q as Elo.
    { rewrite <- inject_Z_plus. f_equiv. lia. }
    assert (inject_Z (hi * Z.of_nat (S n)) == inject_Z (hi * Z.of_nat n)
                                              + inject_Z hi)%Q as Ehi.
    { rewrite <- inject_Z_plus. f_equiv. lia. }
    unfold Num.add. split.
    + apply binary64_ge; [nia|]. rewrite Elo. lra.
    + apply binary64_le; [nia|]. rewrite Ehi. lra.
Qed.

Lemma mean_bounds (lo hi : Z) (l : list Q) :
  l <> [] -> Forall (fun x => inject_Z lo <= x /\ x <= inject_Z hi)%Q l ->
  (Z.abs lo * Z.of_nat (length l) < 2 ^ 53)%Z ->
  (Z.abs hi * Z.of_nat (length l) < 2 ^ 53)%Z ->
  (inject_Z lo <= Num.mean l /\ Num.mean l <= inject_Z hi)%Q.
Proof.
  intros Hne Hl Hlo Hhi. unfold Num.mean, Num.sum.
  destruct (sum_bounds lo hi l 0 0 Hl) as [H1 H2]; [done|done| |].
  { rewrite !Z.mul_0_r. by split. }
  cbn [Nat.add] in H1, H2. rewrite inject_Z_mult in H1, H2.
  fold (Num.of_nat (length l)) in H1, H2.
  assert (0 < Z.of_nat (length l))%Z as Hlen by (destruct l; [done|simpl; lia]).
  assert (0 < Num.of_nat (length l))%Q as Hpos.
  { unfold Num.of_nat. change 0%Q with (inject_Z 0). by rewrite <- Zlt_Qlt. }
  unfold Num.div. split.
  - apply binary64_ge; [nia|]. by apply Qle_shift_div_l.
  - apply binary64_le; [nia|]. by apply Qle_shift_div_r.
Qed.

Lemma round2_bounds (q : Q) (lo hi : Z) :
  (Z.abs lo < 2 ^ 53)%Z -> (Z.abs hi < 2 ^ 53)%Z ->
  (inject_Z lo <= q)%Q -> (q <= inject_Z hi)%Q ->
  (inject_Z lo <= Num.round2 q /\ Num.round2 q <= inject_Z hi)%Q.
Proof.
  intros Hlo53 Hhi53 Hlo Hhi. unfold Num.round2.
  destruct (round_half_even_bounds (q * 100) (lo * 100)) as [H1 _].
  destruct (round_half_even_bounds (q * 100) (hi * 100)) as [_ H2].
  rewrite inject_Z_mult in H1, H2.
  assert (lo * 100 <= Num.round_half_even (q * 100))%Z as H1'
    by (apply H1; change (inject_Z 100) with 100%Q; lra).
  assert (Num.round_half_even (q * 100) <= hi * 100)%Z as H2'
    by (apply H2; change (inject_Z 100) with 100%Q; lra).
  rewrite Zle_Qle in H1'. rewrite Zle_Qle in H2'.
  rewrite inject_Z_mult in H1', H2'.
  change (inject_Z 100) with 100%Q in *.
  assert (Num.round_half_even (q * 100) # 100
          == inject_Z (Num.round_half_even (q * 100)) / 100)%Q as E
    by apply Qmake_Qdiv.
  split.
  - apply binary64_ge; [done|]. rewrite E. by apply Qle_shift_div_l.
  - apply binary64_le; [done|]. rewrite E. by apply Qle_shift_div_r.
Qed.

(** X19. A review keeps the rating in range: when the new rating and the
    ratings of the provider's earlier reviews lie between two integers, as
    between 1 and 5, so does the rating that [add_review] stores and
    returns, the float additions, the division and the rounding included.
    The reviews are taken to be few enough for their count times either
    bound to stay below 2^53, where the floats have every integer. *)
Theorem add_review_rating_bounded (lo hi : Z) (provider_id : string)
  (rating : Q) (comment : string) (now : time) (st : state)
  (i : nat) (q : Provider.t) :
  first_with_id provider_id (providers st) i q ->
  Forall (fun rv => inject_Z lo <= Review.rating rv /\
                    Review.rating rv <= inject_Z hi)%Q
    (Provider.get_reviews q) ->
  (inject_Z lo <= rating /\ rating <= inject_Z hi)%Q ->
  (Z.max (Z.abs lo) (Z.abs hi)
   * Z.of_nat (S (length (Provider.get_reviews q))) < 2 ^ 53)%Z ->
  exists x,
    snd (add_review provider_id rating comment now st) = Some x /\
    Provider.rating <$> providers (fst (add_review provider_id rating comment
                                          now st)) !! i
    = Some (Some x) /\
    (inject_Z lo <= x /\ x <= inject_Z hi)%Q.
Proof.
  intros Hfirst Hold Hnew Hsize. unfold add_review.
  rewrite (update_first_at provider_id _ (providers st) i q Hfirst).
  cbn [fst snd providers]. eexists. split; [reflexivity|].
  split.
  { rewrite list_lookup_insert_eq
      by (destruct Hfirst as [Hi _]; by apply lookup_lt_Some in Hi).
    reflexivity. }
  unfold with_review, Provider.set_reviews_rating, Provider.get_rating.
  cbn [Provider.rating default id]. rewrite map_app. cbn [map Review.rating].
  set (ratings := map Review.rating (Provider.get_reviews q) ++ [rating]).
  assert (length ratings = S (length (Provider.get_reviews q))) as Hlen.
  { unfold ratings. rewrite length_app, length_map. simpl. lia. }
  destruct (mean_bounds lo hi ratings) as [Hmean1 Hmean2].
  - unfold ratings. by destruct (map Review.rating (Provider.get_reviews q)).
  - apply Forall_app. split; [|by constructor].
    apply Forall_forall. intros x Hx.
    apply list_elem_of_fmap in Hx as (rv & -> & Hrv).
    rewrite Forall_forall in Hold. by apply Hold.
  - rewrite Hlen. nia.
  - rewrite Hlen. nia.
  - apply round2_bounds; [nia|nia|done|done].
Qed.

Lemma add_review_rating_bounded_witness :
  exists x,
    snd (add_review "p3" (9 # 2) "" 0%Z initial_state) = Some x /\
    Provider.rating <$> providers (fst (add_review "p3" (9 # 2) "" 0%Z
                                          initial_state)) !! 2
    = Some (Some x) /\
    (inject_Z 1 <= x /\ x <= inject_Z 5)%Q.
Proof.
  apply (add_review_rating_bounded 1 5 "p3" (9 # 2) "" 0%Z initial_state 2
           (Provider.mk "p3" "Carlos" "City Tour" (Some "Spanish")
              (Some (Num.binary64 (47 # 10))) (Some []) (Some true) None
              (Some (Location.mk (Num.binary64 (1943 # 100))
                       (Num.binary64 (- 9913 # 100)))))).
  - repeat split. intros [|[|j]] p Hj Hp; [| |lia];
      injection Hp as <-; by_evaluation.
  - constructor.
  - split; q_order.
  - small.
Defined.

(** ** Analytics *)

Section CounterFacts.
Context {K : Type} `{EqDecision K}.

Lemma counter_get_add (k k' : K) (c : list (K * nat)) :
  counter_get k' (counter_add k c)
  = if bool_decide (k = k') then S (counter_get k' c) else counter_get k' c.
Proof.
  induction c as [|[x n] r IH]; simpl.
  - by repeat case_bool_decide.
  - repeat case_bool_decide; simpl; repeat case_bool_decide;
      congruence || (rewrite IH; by repeat case_bool_decide).
Qed.

Lemma counter_total_add (k : K) (c : list (K * nat)) :
  list_sum (map snd (counter_add k c)) = S (list_sum (map snd c)).
Proof.
  induction c as [|[x n] r IH]; simpl; [done|].
  case_bool_decide; simpl; [done|]. rewrite IH. lia.
Qed.

Lemma counter_keys_add (k : K) (c : list (K * nat)) :
  NoDup (map fst c) -> NoDup (map fst (counter_add k c)) /\
  forall x, x ∈ map fst (counter_add k c) <-> x = k \/ x ∈ map fst c.
Proof.
  induction c as [|[y n] r IH]; simpl; intros Hnd.
  - split; [apply NoDup_singleton|]. intros x. rewrite list_elem_of_singleton.
    split; [by left|]. intros [->|Hx]; [done|]. by apply not_elem_of_nil in Hx.
  - apply NoDup_cons in Hnd as [Hy Hr]. destruct (IH Hr) as [IHnd IHin].
    case_bool_decide; simpl.
    + subst. split; [by apply NoDup_cons|]. intros x.
      rewrite elem_of_cons. tauto.
    + split.
      * apply NoDup_cons. split; [|done]. rewrite IHin. intros [->|Hin]; done.
      * intros x. rewrite !elem_of_cons, IHin. tauto.
Qed.

Lemma counter_positive_add (k : K) (c : list (K * nat)) :
  Forall (fun e => 0 < snd e) c -> Forall (fun e => 0 < snd e) (counter_add k c).
Proof.
  induction 1 as [|[y n] r Hy Hr IH]; simpl.
  - repeat constructor.
  - case_bool_decide; constructor; simpl in *; try done. lia.
Qed.

Lemma counter_fold (l : list K) (c : list (K * nat)) :
  NoDup (map fst c) -> Forall (fun e => 0 < snd e) c ->
  let c' := fold_left (fun c k => counter_add k c) l c in
  NoDup (map fst c') /\ Forall (fun e => 0 < snd e) c' /\
  list_sum (map snd c') = length l + list_sum (map snd c) /\
  forall k, counter_get k c' = occurrences k l + counter_get k c.
Proof.
  revert c. induction l as [|x r IH]; intros c Hnd Hpos; simpl.
  - by repeat split.
  - destruct (counter_keys_add x c Hnd) as [Hnd' _].
    destruct (IH (counter_add x c) Hnd' (counter_positive_add x c Hpos))
      as (H1 & H2 & H3 & H4).
    repeat split; [done|done| |].
    + rewrite H3, counter_total_add. lia.
    + intros k. rewrite H4, counter_get_add. unfold occurrences. simpl.
      case_bool_decide; simpl; lia.
Qed.

Lemma counter_get_elem (k : K) (n : nat) (c : list (K * nat)) :
  NoDup (map fst c) -> (k, n) ∈ c -> counter_get k c = n.
Proof.
  induction c as [|[y m] r IH]; simpl; intros Hnd Hin.
  - by apply not_elem_of_nil in Hin.
  - apply NoDup_cons in Hnd as [Hy Hr].
    apply elem_of_cons in Hin as [[= -> ->]|Hin].
    + by rewrite bool_decide_eq_true_2.
    + case_bool_decide; [|by apply IH]. subst. destruct Hy.
      apply list_elem_of_fmap. by exists (k, n).
Qed.

(** A [Counter] has one entry for each element of the list, with the number
    of its occurrences, and the counts add up to the length of the list. *)
Lemma Counter_spec (l : list K) :
  NoDup (map fst (Counter l)) /\
  list_sum (map snd (Counter l)) = length l /\
  forall k n, (k, n) ∈ Counter l -> n = occurrences k l /\ 0 < n.
Proof.
  destruct (counter_fold l []) as (Hnd & Hpos & Hsum & Hget);
    [apply NoDup_nil_2|constructor|].
  fold (Counter l) in *. simpl in *. split; [done|]. split; [lia|].
  intros k n Hin. split.
  - rewrite <- (counter_get_elem k n _ Hnd Hin). rewrite Hget. lia.
  - rewrite Forall_forall in Hpos. by apply (Hpos (k, n)).
Qed.

Lemma counter_fold_keys (l : list K) (c : list (K * nat)) :
  NoDup (map fst c) ->
  forall x, x ∈ map fst (fold_left (fun c k => counter_add k c) l c)
            <-> x ∈ l \/ x ∈ map fst c.
Proof.
  revert c. induction l as [|k r IH]; intros c Hnd x; simpl.
  - split; [by right|]. intros [H|H]; [by apply not_elem_of_nil in H|done].
  - destruct (counter_keys_add k c Hnd) as [Hnd' Hkeys].
    rewrite (IH _ Hnd'), Hkeys, elem_of_cons. tauto.
Qed.

Lemma counter_get_in (k : K) (c : list (K * nat)) :
  k ∈ map fst c -> (k, counter_get k c) ∈ c.
Proof.
  induction c as [|[y m] r IH]; simpl; intros Hin.
  - by apply not_elem_of_nil in Hin.
  - case_bool_decide; [subst; left|].
    apply elem_of_cons in Hin as [->|Hin]; [done|]. right. by apply IH.
Qed.

(** Every element of the list has its entry in the [Counter], and the
    [Counter] has as many entries as the list has distinct elements. *)
Lemma Counter_complete (l : list K) :
  (forall k, k ∈ l -> (k, occurrences k l) ∈ Counter l) /\
  length (Counter l) = length (remove_dups l).
Proof.
  destruct (counter_fold l []) as (Hnd & _ & _ & Hget);
    [apply NoDup_nil_2|constructor|].
  pose proof (counter_fold_keys l [] NoDup_nil_2) as Hkeys.
  fold (Counter l) in *. simpl in *. split.
  - intros k Hk.
    assert (k ∈ map fst (Counter l)) as Hin by (apply Hkeys; by left).
    apply counter_get_in in Hin. rewrite Hget in Hin.
    by rewrite Nat.add_0_r in Hin.
  - rewrite <- (length_map fst). apply Permutation_length.
    apply NoDup_Permutation; [done|apply NoDup_remove_dups|].
    intros x. rewrite Hkeys, elem_of_remove_dups. split; [|by left].
    intros [H|H]; [done|by apply not_elem_of_nil in H].
Qed.

Lemma sort_reverse_counts_sorted (c : list (K * nat)) :
  StronglySorted (fun x y : K * nat => snd y <= snd x)
    (sort_reverse (fun x y => snd x <? snd y) c).
Proof.
  induction c as [|x r IH]; simpl; [constructor|].
  induction IH as [|y s Hs IHs Hy]; simpl.
  - repeat constructor.
  - destruct (snd x <? snd y) eqn:E.
    + apply Nat.ltb_lt in E. constructor; [done|].
      rewrite insert_reverse_perm. constructor; [lia|done].
    + apply Nat.ltb_ge in E. constructor; [by constructor|].
      constructor; [done|]. eapply Forall_impl; [exact Hy|].
      intros z Hz. simpl in Hz. lia.
Qed.

(** [most_common n] keeps [n] entries, or all when there are fewer, and no
    entry it leaves out has a greater count than one it keeps. *)
Lemma most_common_greatest (n : nat) (c : list (K * nat)) :
  length (most_common n c) = n `min` length c /\
  forall x y, x ∈ c -> x ∉ most_common n c -> y ∈ most_common n c ->
              snd x <= snd y.
Proof.
  unfold most_common. split.
  - rewrite length_take. f_equal. apply Permutation_length, sort_reverse_perm.
  - intros x y Hx Hnot Hy.
    pose proof (sort_reverse_counts_sorted c) as Hsorted.
    rewrite <- (sort_reverse_perm (fun x y => snd x <? snd y)) in Hx.
    rewrite <- (take_drop n (sort_reverse _ c)) in Hsorted, Hx.
    apply elem_of_app in Hx as [Hx|Hx]; [done|].
    by apply (StronglySorted_app_1_elem_of _ _ _ _ _ Hsorted Hy Hx).
Qed.

Lemma most_common_spec (n : nat) (c : list (K * nat)) :
  length (most_common n c) <= n /\
  most_common n c ⊆ c /\
  StronglySorted (fun x y => snd y <= snd x) (most_common n c).
Proof.
  unfold most_common. repeat split.
  - rewrite length_take. lia.
  - intros x Hx. apply subseteq_take in Hx.
    by rewrite sort_reverse_perm in Hx.
  - assert (StronglySorted (fun x y : K * nat => snd y <= snd x)
              (sort_reverse (fun x y => snd x <? snd y) c)) as Hsorted.
    { induction c as [|x r IH]; simpl; [constructor|].
      induction IH as [|y s Hs IHs Hy]; simpl.
      - repeat constructor.
      - destruct (snd x <? snd y) eqn:E.
        + apply Nat.ltb_lt in E. constructor; [done|].
          rewrite insert_reverse_perm. constructor; [lia|done].
        + apply Nat.ltb_ge in E. constructor; [by constructor|].
          constructor; [done|]. eapply Forall_impl; [exact Hy|].
          intros z Hz. simpl in Hz. lia. }
    rewrite <- (take_drop n (sort_reverse _ c)) in Hsorted.
    by apply StronglySorted_app_1_l in Hsorted.
Qed.
End CounterFacts.

(** X20. [analytics_summary] gives nothing but a notice exactly when there
    is no booking. Otherwise the first table has one entry for every
    language of a booking, with the number of its bookings; each top list
    has three entries, or as many as there are services or provider names
    if these are fewer, in descending order of their counts, every entry
    being a service or name with the number of its bookings, and no
    service or name left out has more bookings than one that is listed.
    The average rating that follows raises exactly when there is no
    provider, and is otherwise the sum of the ratings divided by their
    number and rounded to 2 decimals, in float arithmetic. *)
Theorem analytics_summary_tables (st : state) :
  match analytics_summary st with
  | None => bookings st = []
  | Some (t, average) =>
      let languages := map Booking.language (bookings st) in
      let services := map Booking.service (bookings st) in
      let names := map Booking.provider_name (bookings st) in
      bookings st <> [] /\
      (forall l, l ∈ languages -> (l, occurrences l languages) ∈ langs t) /\
      (forall l n, (l, n) ∈ langs t -> n = occurrences l languages /\ 0 < n) /\
      list_sum (map snd (langs t)) = length (bookings st) /\
      length (top_services t) = 3 `min` length (remove_dups services) /\
      length (top_providers t) = 3 `min` length (remove_dups names) /\
      StronglySorted (fun x y => snd y <= snd x) (top_services t) /\
      StronglySorted (fun x y => snd y <= snd x) (top_providers t) /\
      (forall s n, (s, n) ∈ top_services t ->
         n = occurrences s services /\ 0 < n) /\
      (forall s n, (s, n) ∈ top_providers t ->
         n = occurrences s names /\ 0 < n) /\
      (forall s s' n, s ∈ services -> s ∉ map fst (top_services t) ->
         (s', n) ∈ top_services t -> occurrences s services <= n) /\
      (forall s s' n, s ∈ names -> s ∉ map fst (top_providers t) ->
         (s', n) ∈ top_providers t -> occurrences s names <= n) /\
      (average = Raises <-> providers st = []) /\
      (providers st <> [] ->
       average = Returns (Num.round2
                            (Num.mean (map Provider.get_rating (providers st)))))
  end.
Proof.
  unfold analytics_summary. destruct (bookings st) as [|b bs] eqn:Eb; [done|].
  rewrite <- Eb. cbn [langs top_services top_providers]. cbv zeta.
  destruct (Counter_spec (map Booking.language (bookings st)))
    as (_ & Hsum & Hl).
  destruct (Counter_complete (map Booking.language (bookings st)))
    as (Hlc & _).
  destruct (Counter_spec (map Booking.service (bookings st))) as (_ & _ & Hs).
  destruct (Counter_complete (map Booking.service (bookings st)))
    as (Hsc & Hsn).
  destruct (Counter_spec (map Booking.provider_name (bookings st)))
    as (_ & _ & Hp).
  destruct (Counter_complete (map Booking.provider_name (bookings st)))
    as (Hpc & Hpn).
  destruct (most_common_spec 3 (Counter (map Booking.service (bookings st))))
    as (_ & Hs2 & Hs3).
  destruct (most_common_greatest 3
              (Counter (map Booking.service (bookings st)))) as (Hs4 & Hs5).
  destruct (most_common_spec 3
              (Counter (map Booking.provider_name (bookings st))))
    as (_ & Hp2 & Hp3).
  destruct (most_common_greatest 3
              (Counter (map Booking.provider_name (bookings st))))
    as (Hp4 & Hp5).
  split; [by rewrite Eb|]. split; [exact Hlc|]. split; [exact Hl|].
  split; [by rewrite Hsum, length_map|].
  split; [by rewrite Hs4, Hsn|]. split; [by rewrite Hp4, Hpn|].
  do 2 (split; [done|]).
  split; [intros s n Hin; apply Hs; by apply Hs2|].
  split; [intros s n Hin; apply Hp; by apply Hp2|].
  split; [|split; [|split]].
  - intros s s' n Hin Hnot Htop.
    apply (Hs5 (s, occurrences s (map Booking.service (bookings st))) (s', n));
      [by apply Hsc| |done].
    intros H. apply Hnot. apply list_elem_of_fmap. by eexists (_, _).
  - intros s s' n Hin Hnot Htop.
    apply (Hp5 (s, occurrences s (map Booking.provider_name (bookings st)))
             (s', n)); [by apply Hpc| |done].
    intros H. apply Hnot. apply list_elem_of_fmap. by eexists (_, _).
  - by destruct (providers st).
  - by destruct (providers st).
Qed.

(** ** The booking flow *)

Lemma sort_reverse_map {A B : Type} (g : A -> B) (lt : A -> A -> bool)
  (lt' : B -> B -> bool) (l : list A) :
  (forall x y, lt' (g x) (g y) = lt x y) ->
  sort_reverse lt' (map g l) = map g (sort_reverse lt l).
Proof.
  intros Hlt. induction l as [|x r IH]; [done|].
  cbn [map sort_reverse]. rewrite IH.
  generalize (sort_reverse lt r). intros s.
  induction s as [|y s IHs]; [done|].
  cbn [map insert_reverse]. rewrite Hlt.
  destruct (lt x y); [|done]. cbn [map]. by rewrite IHs.
Qed.

Lemma filter_map_snd {A B : Type} (f : B -> bool) (l : list (A * B)) :
  List.filter f (map snd l) = map snd (List.filter (fun x => f (snd x)) l).
Proof.
  induction l as [|x r IH]; [done|]. cbn [map List.filter].
  destruct (f (snd x)); cbn [map]; by rewrite IH.
Qed.

Lemma enumerate_from_snd (k : nat) (ps : list Provider.t) :
  map snd (enumerate_from k ps) = ps.
Proof.
  revert k. induction ps as [|p r IH]; intros k; [done|].
  simpl. by rewrite IH.
Qed.

Lemma elem_of_enumerate_from (k i : nat) (p : Provider.t) (ps : list Provider.t) :
  (i, p) ∈ enumerate_from k ps -> k <= i /\ ps !! (i - k) = Some p.
Proof.
  revert k. induction ps as [|x r IH]; intros k H; simpl in H.
  - by apply not_elem_of_nil in H.
  - apply elem_of_cons in H as [[= -> ->]|H].
    + split; [lia|]. by rewrite Nat.sub_diag.
    + apply IH in H as [Hk Hi]. split; [lia|].
      replace (i - k) with (S (i - S k)) by lia. exact Hi.
Qed.

(** The positions of [match_provider_refs] are those of the providers that
    [match_providers] returns, in the same order. *)
Lemma match_provider_refs_spec pl sf oa ps :
  map (fun i => ps !! i) (match_provider_refs pl sf oa ps)
  = map Some (match_providers pl sf oa ps).
Proof.
  unfold match_provider_refs, match_providers, candidates.
  set (lang := preferred_lang pl).
  set (C := if oa
            then List.filter (fun ip : nat * Provider.t =>
                                Provider.get_available (snd ip))
                   (List.filter (fun ip => service_matches sf (snd ip))
                      (enumerate_from 0 ps))
            else List.filter (fun ip => service_matches sf (snd ip))
                   (enumerate_from 0 ps)).
  assert ((if oa
           then List.filter Provider.get_available
                  (List.filter (service_matches sf) ps)
           else List.filter (service_matches sf) ps) = map snd C) as ->.
  { subst C.
    assert (List.filter (service_matches sf) ps
            = map snd (List.filter (fun ip => service_matches sf (snd ip))
                         (enumerate_from 0 ps))) as ->.
    { by rewrite <- filter_map_snd, enumerate_from_snd. }
    destruct oa; [|done]. by rewrite filter_map_snd. }
  set (lt := fun x y : nat * Provider.t =>
               Num.ltb (score lang (snd x)) (score lang (snd y))).
  rewrite (sort_reverse_map
             (fun ip : nat * Provider.t => (score lang (snd ip), fst ip)) lt)
    by done.
  assert (map (fun p => (score lang p, p)) (map snd C)
          = map (fun ip : nat * Provider.t => (score lang (snd ip), snd ip)) C)
    as -> by apply map_map.
  rewrite (sort_reverse_map
             (fun ip : nat * Provider.t => (score lang (snd ip), snd ip)) lt)
    by done.
  rewrite !map_map. cbn [fst snd].
  apply map_ext_in. intros [i p] Hin. cbn [fst snd].
  apply list_elem_of_In in Hin. rewrite sort_reverse_perm in Hin.
  assert ((i, p) ∈ enumerate_from 0 ps) as Hp.
  { subst C. apply list_elem_of_In in Hin.
    destruct oa; repeat (apply filter_In in Hin as [Hin _]);
      by apply list_elem_of_In. }
  apply elem_of_enumerate_from in Hp as [_ Hp].
  by rewrite Nat.sub_0_r in Hp.
Qed.

Lemma offered_spec pl sf ps i :
  i ∈ offered pl sf ps ->
  exists p, ps !! i = Some p /\ service_matches sf p = true /\
    (Provider.get_available p = false ->
     forall q, q ∈ ps -> service_matches sf q = true ->
               Provider.get_available q = false).
Proof.
  intros Hi.
  assert (forall oa, i ∈ match_provider_refs pl sf oa ps ->
            exists p, ps !! i = Some p /\ p ∈ match_providers pl sf oa ps)
    as Hrefs.
  { intros oa Hin.
    assert (ps !! i ∈ map Some (match_providers pl sf oa ps)) as H.
    { rewrite <- match_provider_refs_spec.
      apply list_elem_of_fmap. by exists i. }
    apply list_elem_of_fmap in H as (p & Hp & Hin'). by exists p. }
  unfold offered in Hi.
  destruct (match_provider_refs pl sf true ps) as [|j m] eqn:E.
  - destruct (Hrefs false Hi) as (p & Hp & Hin).
    rewrite match_providers_perm, elem_of_candidates in Hin.
    destruct Hin as (_ & Hs & _). exists p. repeat split; [done|done|].
    intros _ q Hq Hqs. destruct (Provider.get_available q) eqn:Hqa; [|done].
    assert (q ∈ match_providers pl sf true ps) as Hin.
    { rewrite match_providers_perm, elem_of_candidates. by repeat split. }
    assert (Some q ∈ map Some (match_providers pl sf true ps)) as H.
    { apply list_elem_of_fmap. by exists q. }
    rewrite <- match_provider_refs_spec, E in H.
    by apply not_elem_of_nil in H.
  - rewrite <- E in Hi. destruct (Hrefs true Hi) as (p & Hp & Hin).
    rewrite match_providers_perm, elem_of_candidates in Hin.
    destruct Hin as (_ & Hs & Ha). exists p. repeat split; [done|done|].
    intros Hbusy. rewrite Ha in Hbusy; done.
Qed.

Section FlowFacts.
Variable float : string -> parsed_float.
Variable uuid : string.
Variables now_schedule now_created now_history now_review : time.

Lemma rate_experience_inv (pid : string) (st : state) (lines : list string) :
  let '(st', r) := rate_experience float now_review pid st lines in
  (st' = st /\
   (r = None \/
    exists rest e, r = Some (e, rest) /\ forall x, e <> Reviewed x))
  \/
  (exists q c rest,
     (1 <= q)%Q /\ (q <= 5)%Q /\
     st' = fst (add_review pid q c now_review st) /\
     r = Some (Reviewed (snd (add_review pid q c now_review st)), rest)).
Proof.
  unfold rate_experience, bind, input_strip, flow_try, ret, raise, call.
  destruct lines as [|rating rest]; [left; split; [done|by left]|].
  destruct (float (Text.strip rating)) as [q| |].
  - destruct (Qle_bool 1 q && Qle_bool q 5) eqn:E.
    + apply andb_prop in E as [E1%Qle_bool_iff E2%Qle_bool_iff].
      destruct rest as [|comment rest].
      * left. split; [done|]. right. by exists [], InvalidRating.
      * destruct (add_review pid q (Text.strip comment) now_review st)
          as [st2 x] eqn:Ea.
        right. exists q, (Text.strip comment), rest. rewrite Ea.
        by repeat split.
    + left. split; [done|]. right. by exists rest, OutOfRange.
  - left. split; [done|]. right. by exists rest, OutOfRange.
  - left. split; [done|]. right. by exists rest, InvalidRating.
Qed.

Lemma complete_trip_inv (p1 : Provider.t) (b : Booking.t) (st2 : state)
  (lines : list string) :
  let '(st3, r3) := complete_trip float now_review p1 b st2 lines in
  review_run (Provider.id p1) now_review b st2 st3 r3.
Proof.
  unfold complete_trip, bind, input_strip, ret.
  destruct lines as [|open_map [|complete rest2]];
    [left; split; [done|by left]..|].
  destruct (String.eqb _ "y").
  - pose proof (rate_experience_inv (Provider.id p1) st2 rest2) as Hrate.
    destruct (rate_experience _ _ _ _ _) as [st3 r3].
    destruct Hrate as [[-> [->|(rest & e & -> & He)]]
                      |(q & c & rest & H1 & H5 & -> & ->)].
    + left. split; [done|by left].
    + left. split; [done|]. right. by exists rest, e.
    + right. by exists q, c, rest.
  - left. split; [done|]. right. exists rest2, NotCompleted. by split.
Qed.

Lemma book_provider_inv (name : string) (phone pref_lang : option string)
  (i : nat) (p : Provider.t) (st st' : state) (lines : list string)
  (r : option (flow_end * list string)) :
  providers st !! i = Some p ->
  book_provider float uuid now_schedule now_created now_history now_review
    name phone pref_lang i st lines = (st', r) ->
  (st' = st /\ no_booking r) \/
  booking_run uuid now_schedule now_created now_history now_review
    name phone pref_lang i p st st' r.
Proof.
  intros Hp. unfold book_provider, bind, get_state. rewrite Hp.
  unfold schedule_provider, bind, input_strip, ret, call.
  destruct (Provider.get_available p) eqn:Ha; cbn [negb].
  - intros H. right. exists p, st. split; [by left|].
    pose proof (complete_trip_inv p
                  (snd (create_booking name p pref_lang phone uuid
                          now_created now_history st))
                  (fst (create_booking name p pref_lang phone uuid
                          now_created now_history st)) lines) as Htail.
    destruct (create_booking _ _ _ _ _ _ _ _) as [st2 b]. cbn [fst snd] in *.
    by rewrite H in Htail.
  - destruct lines as [|schedule rest].
    + intros [= <- <-]. left. split; [done|by left].
    + destruct (negb (String.eqb _ "y")).
      * intros [= <- <-]. left. split; [done|]. right.
        exists rest, Cancelled. split; [done|]. by right; left.
      * intros H. right.
        set (p1 := Provider.set_availability false
                     (Some (now_schedule + one_hour)%Z) p) in *.
        exists p1, (scheduled_state i p now_schedule st).
        split; [by right|].
        pose proof (complete_trip_inv p1
                      (snd (create_booking name p1 pref_lang phone uuid
                              now_created now_history
                              (scheduled_state i p now_schedule st)))
                      (fst (create_booking name p1 pref_lang phone uuid
                              now_created now_history
                              (scheduled_state i p now_schedule st))) rest)
          as Htail.
        unfold scheduled_state in *. fold p1 in H.
        destruct (create_booking _ _ _ _ _ _ _ _) as [st2 b].
        cbn [fst snd] in *. by rewrite H in Htail.
Qed.
End FlowFacts.

Lemma map_insert_same {B : Type} (g : Provider.t -> B) (ps : list Provider.t)
  (i : nat) (p p' : Provider.t) :
  ps !! i = Some p -> g p' = g p -> map g (<[i := p']> ps) = map g ps.
Proof.
  revert i. induction ps as [|x r IH]; intros [|i] Hi Hg; simpl in *;
    try done.
  - injection Hi as ->. by rewrite Hg.
  - by rewrite (IH i).
Qed.

Lemma kept_refl (st : state) : kept st st.
Proof. do 4 (split; [done|]). exists []. by rewrite app_nil_r. Qed.

Lemma kept_trans (st1 st2 st3 : state) :
  kept st1 st2 -> kept st2 st3 -> kept st1 st3.
Proof.
  intros (H1 & H2 & H3 & H4 & bs & H5) (K1 & K2 & K3 & K4 & cs & K5).
  split; [congruence|]. do 3 (split; [auto|]).
  exists (bs ++ cs). by rewrite K5, H5, app_assoc.
Qed.

(** A state that differs by one provider, replaced by a provider with the
    same identity that is as good for the two invariants of the ratings. *)
Lemma kept_insert (st : state) (i : nat) (p p' : Provider.t) :
  providers st !! i = Some p -> identity p' = identity p ->
  (Forall (fun rv => 1 <= Review.rating rv /\ Review.rating rv <= 5)%Q
     (Provider.get_reviews p) ->
   Forall (fun rv => 1 <= Review.rating rv /\ Review.rating rv <= 5)%Q
     (Provider.get_reviews p')) ->
  ((Provider.get_reviews p <> [] ->
    Provider.rating p
    = Some (Num.round2 (Num.mean (map Review.rating (Provider.get_reviews p)))))
   -> Provider.get_reviews p' <> [] ->
   Provider.rating p'
   = Some (Num.round2 (Num.mean (map Review.rating (Provider.get_reviews p')))))
  ->
  let ps := <[i := p']> (providers st) in
  kept st (mkstate ps (bookings st)
             (save_json PROVIDERS_FILE (ProvidersDoc ps) (disk st))).
Proof.
  intros Hi Hid Hrange Hcons ps. unfold kept. cbn [providers bookings].
  split; [by apply (map_insert_same identity _ _ p)|].
  split; [by apply synced_save_providers|]. split; [|split].
  - unfold reviews_in_range. intros H. apply Forall_insert; [done|].
    apply Hrange. rewrite Forall_forall in H. apply H.
    by eapply list_elem_of_lookup_2.
  - unfold ratings_consistent. intros H. apply Forall_insert; [done|].
    apply Hcons. rewrite Forall_forall in H. apply H.
    by eapply list_elem_of_lookup_2.
  - exists []. by rewrite app_nil_r.
Qed.

Lemma kept_add_review (st : state) pid (r : Q) c t :
  (1 <= r)%Q -> (r <= 5)%Q -> kept st (fst (add_review pid r c t st)).
Proof.
  intros H1 H5. unfold add_review.
  destruct (update_first _ _ _) as [[ps' q']|] eqn:E; [|apply kept_refl].
  apply update_first_Some in E as (i & q & (Hi & _ & _) & -> & ->).
  cbn [fst]. apply (kept_insert st i q); [done|done| |].
  - intros H. unfold with_review, Provider.get_reviews at 1.
    cbn [Provider.set_reviews_rating Provider.reviews default id].
    apply Forall_app. split; [done|]. by repeat constructor.
  - intros _ _. reflexivity.
Qed.

Lemma kept_flow_step (st st' : state) : flow_step st st' -> kept st st'.
Proof.
  intros [st0 i p t Hp|st0 tourist p language phone uuid t1 t2
         |st0 pid r c t H1 H5].
  - unfold scheduled_state. by apply (kept_insert st0 i p).
  - unfold create_booking, kept. cbn [fst providers bookings disk].
    split; [done|]. split; [|split; [done|split; [done|by eexists]]].
    intros [Hfile _]. unfold synced, save_json.
    cbn [providers bookings disk files ensure_data_dir]. split.
    + by rewrite lookup_insert_ne by discriminate.
    + by rewrite lookup_insert_eq.
  - by apply kept_add_review.
Qed.

Ltac flow_ends :=
  cbv beta iota zeta; intros [= <- <-]; left; split; [done|];
  first [by left | right; eexists _, _; split; [done|tauto]].

Section FlowProperties.
Variable float : string -> parsed_float.
Variable uuid : string.
Variables now_schedule now_created now_history now_review : time.

(** How a booking flow can end: without a booking and without a change, or
    with the booking of an offered provider. *)
Lemma book_service_flow_inv (st st' : state) (lines : list string)
  (r : option (flow_end * list string)) :
  book_service_flow float uuid now_schedule now_created now_history now_review
    st lines = (st', r) ->
  (st' = st /\ no_booking r) \/
  exists name phone pref service choice rest i p,
    lines = name :: phone :: pref :: service :: choice :: rest /\
    Text.strip name <> "" /\
    i ∈ offered (or_none (Text.title (Text.strip pref)))
          (or_none (Text.lower (Text.strip service))) (providers st) /\
    providers st !! i = Some p /\
    booking_run uuid now_schedule now_created now_history now_review
      (Text.strip name) (or_none (Text.strip phone))
      (or_none (Text.title (Text.strip pref))) i p st st' r.
Proof.
  unfold book_service_flow, bind, input_strip, get_state, show_providers,
    ret, raise.
  destruct lines as [|name lines]; [flow_ends|].
  destruct (negb (Text.truthy (Text.strip name))) eqn:Ename; [flow_ends|].
  apply negb_false_iff, truthy_nonempty in Ename.
  destruct lines as [|phone lines]; [flow_ends|].
  destruct lines as [|pref lines]; [flow_ends|].
  destruct lines as [|service lines]; [flow_ends|].
  cbv beta iota zeta.
  set (matched := offered _ _ _).
  destruct (listable _); [|flow_ends].
  destruct lines as [|choice rest]; [flow_ends|].
  cbv beta iota zeta.
  destruct (String.eqb _ "c"); [flow_ends|].
  destruct (negb (isdigit _)); [flow_ends|].
  destruct (_ && _); [|flow_ends].
  destruct (matched !! _) as [i|] eqn:Ei; [|flow_ends].
  apply list_elem_of_lookup_2 in Ei.
  destruct (offered_spec _ _ _ _ Ei) as (p & Hp & _).
  intros H. apply (book_provider_inv _ _ _ _ _ _ _ _ _ i p) in H; [|done].
  destruct H as [H|H]; [by left|]. right.
  by exists name, phone, pref, service, choice, rest, i, p.
Qed.

Lemma add_review_bookings pid r c t st :
  bookings (fst (add_review pid r c t st)) = bookings st.
Proof.
  unfold add_review. by destruct (update_first _ _ _) as [[ps' q']|].
Qed.

Lemma add_review_availability pid r c t st :
  map Provider.available (providers (fst (add_review pid r c t st)))
    = map Provider.available (providers st) /\
  map Provider.next_available (providers (fst (add_review pid r c t st)))
    = map Provider.next_available (providers st).
Proof.
  unfold add_review.
  destruct (update_first _ _ _) as [[ps' q']|] eqn:E; [|done]. cbn. split.
  - by apply (update_first_map Provider.available) in E.
  - by apply (update_first_map Provider.next_available) in E.
Qed.

(** What a flow that books the provider [p] at position [i] does. *)
Lemma booking_run_facts name phone pref_lang i p st st' r :
  providers st !! i = Some p ->
  booking_run uuid now_schedule now_created now_history now_review
    name phone pref_lang i p st st' r ->
  exists b,
    kept st st' /\
    bookings st' = bookings st ++ [b] /\
    (r = None \/ exists rest e, r = Some (Booked b e, rest)) /\
    Booking.tourist b = name /\ Booking.phone b = phone /\
    Booking.provider_id b = Provider.id p /\
    Booking.provider_name b = Provider.name p /\
    Booking.service b = Provider.service p /\
    Booking.language b = booking_language pref_lang p /\
    (Provider.get_available p = true ->
     map Provider.available (providers st')
       = map Provider.available (providers st) /\
     map Provider.next_available (providers st')
       = map Provider.next_available (providers st)) /\
    (Provider.get_available p = false ->
     map Provider.available (providers st') !! i = Some (Some false) /\
     map Provider.next_available (providers st') !! i
       = Some (Some (now_schedule + one_hour)%Z)).
Proof.
  intros Hp (p1 & st1 & Hsched & Hreview).
  set (st2 := fst (create_booking name p1 pref_lang phone uuid now_created
                     now_history st1)) in *.
  set (b := snd (create_booking name p1 pref_lang phone uuid now_created
                   now_history st1)) in *.
  exists b.
  assert (kept st st1 /\ bookings st1 = bookings st /\
          Provider.id p1 = Provider.id p /\
          Provider.name p1 = Provider.name p /\
          Provider.service p1 = Provider.service p /\
          Provider.language p1 = Provider.language p /\
          (Provider.get_available p = true -> providers st1 = providers st) /\
          (Provider.get_available p = false ->
           map Provider.available (providers st1) !! i = Some (Some false) /\
           map Provider.next_available (providers st1) !! i
             = Some (Some (now_schedule + one_hour)%Z)))
    as (Hk1 & Hb1 & Hid & Hname & Hservice & Hlang & Hfree & Hbusy).
  { destruct Hsched as [(Ha & -> & ->)|(Ha & -> & ->)].
    - split; [apply kept_refl|]. repeat split; try done. all: congruence.
    - split; [apply kept_flow_step; by constructor|].
      repeat split; try done; try congruence.
      all: unfold scheduled_state; cbn [providers].
      all: rewrite list_lookup_fmap, list_lookup_insert_eq
             by (by apply lookup_lt_Some in Hp); done. }
  assert (kept st1 st2) as Hk2 by (apply kept_flow_step; constructor).
  assert (providers st2 = providers st1) as Hps2 by done.
  assert (bookings st2 = bookings st1 ++ [b]) as Hb2 by done.
  assert (kept st2 st' /\ bookings st' = bookings st2 /\
          (r = None \/ exists rest e, r = Some (Booked b e, rest)) /\
          map Provider.available (providers st')
            = map Provider.available (providers st2) /\
          map Provider.next_available (providers st')
            = map Provider.next_available (providers st2))
    as (Hk3 & Hb3 & Hr & Ha3 & Hn3).
  { destruct Hreview as [[-> Hr]|(q & c & rest & H1 & H5 & -> & ->)].
    - split; [apply kept_refl|]. repeat split; try done.
      destruct Hr as [->|(rest & e & -> & _)]; [by left|right; by eexists _, _].
    - split; [by apply kept_add_review|].
      split; [apply add_review_bookings|].
      split; [right; by eexists _, _|]. apply add_review_availability. }
  split; [by eapply kept_trans; [eapply kept_trans|]|].
  split; [congruence|]. split; [done|].
  do 3 (split; [done|]). split; [exact Hname|]. split; [exact Hservice|].
  split; [unfold b, create_booking, booking_language; cbn; by rewrite Hlang|].
  rewrite Ha3, Hn3, Hps2. split.
  - intros Ha. by rewrite (Hfree Ha).
  - exact Hbusy.
Qed.

(** X21. A booking flow makes at most one booking: when it ends with a
    booking, the bookings are the earlier ones followed by that booking;
    when it ends in an early return (empty name, cancellation, invalid
    input or selection), nothing has changed, in memory or on disk; and
    when an exception ends it, either nothing has changed or one booking
    has been added. *)
Theorem book_service_flow_bookings (st : state) (lines : list string) :
  let '(st', r) :=
    book_service_flow float uuid now_schedule now_created now_history
      now_review st lines in
  match r with
  | Some (Booked b _, _) => bookings st' = bookings st ++ [b]
  | Some (_, _) => st' = st
  | None => st' = st \/ exists b, bookings st' = bookings st ++ [b]
  end.
Proof.
  destruct (book_service_flow _ _ _ _ _ _ _ _) as [st' r] eqn:E.
  apply book_service_flow_inv in E
    as [[-> Hnone]
       |(name & phone & pref & service & choice & rest & i & p & _ & _ & _
         & Hp & Hrun)].
  - destruct Hnone as [-> | (rest & e & -> & [-> | [-> | [-> | ->]]])];
      [by left|done..].
  - destruct (booking_run_facts _ _ _ _ _ _ _ _ Hp Hrun)
      as (b & _ & Hb & [->|(rest' & e & ->)] & _).
    + right. by exists b.
    + exact Hb.
Qed.

(** X22. A booking flow books a provider of the store that passes the
    service filter typed in, for the stripped, non-empty name typed in. It
    books a busy provider only when no provider that passes the filter is
    available, and then leaves it busy until the scheduling time plus one
    hour; when it books an available provider, no availability changes. *)
Theorem book_service_flow_booked_provider (st st' : state)
  (name phone pref service : string) (rest rest' : list string)
  (b : Booking.t) (review : review_end) :
  book_service_flow float uuid now_schedule now_created now_history now_review
    st (name :: phone :: pref :: service :: rest)
  = (st', Some (Booked b review, rest')) ->
  let service_want := or_none (Text.lower (Text.strip service)) in
  exists i p,
    providers st !! i = Some p /\
    service_matches service_want p = true /\
    Text.strip name <> "" /\
    Booking.tourist b = Text.strip name /\
    Booking.phone b = or_none (Text.strip phone) /\
    Booking.provider_id b = Provider.id p /\
    Booking.provider_name b = Provider.name p /\
    Booking.service b = Provider.service p /\
    (Provider.get_available p = true ->
     map Provider.available (providers st')
       = map Provider.available (providers st) /\
     map Provider.next_available (providers st')
       = map Provider.next_available (providers st)) /\
    (Provider.get_available p = false ->
     (forall q, q ∈ providers st -> service_matches service_want q = true ->
                Provider.get_available q = false) /\
     map Provider.available (providers st') !! i = Some (Some false) /\
     map Provider.next_available (providers st') !! i
       = Some (Some (now_schedule + one_hour)%Z)).
Proof.
  intros E service_want.
  apply book_service_flow_inv in E
    as [[_ Hnone]
       |(name0 & phone0 & pref0 & service0 & choice & rest0 & i & p & Hlines
         & Hname & Hi & Hp & Hrun)].
  { destruct Hnone as [H | (r1 & e & [= <- _] & [H | [H | [H | H]]])];
      discriminate H. }
  injection Hlines as <- <- <- <- _.
  destruct (offered_spec _ _ _ _ Hi) as (p' & Hp' & Hservice & Hnone).
  assert (p' = p) as -> by congruence.
  destruct (booking_run_facts _ _ _ _ _ _ _ _ Hp Hrun)
    as (b' & _ & _ & Hr & Ht & Hph & Hid & Hpn & Hsv & _ & Hfree & Hbusy).
  assert (b' = b) as ->.
  { destruct Hr as [H | (r1 & e & H)]; [discriminate H|]. by injection H. }
  exists i, p. do 8 (split; [done|]). split; [done|].
  intros Ha. destruct (Hbusy Ha) as [H1 H2]. split; [by apply Hnone|done].
Qed.

Lemma rating_in_range (p : Provider.t) :
  Forall (fun rv => 1 <= Review.rating rv /\ Review.rating rv <= 5)%Q
    (Provider.get_reviews p) ->
  (Provider.get_reviews p <> [] ->
   Provider.rating p
   = Some (Num.round2 (Num.mean (map Review.rating (Provider.get_reviews p)))))
  ->
  Provider.get_reviews p <> [] ->
  (Z.of_nat (length (Provider.get_reviews p)) < 2 ^ 50)%Z ->
  (1 <= Provider.get_rating p /\ Provider.get_rating p <= 5)%Q.
Proof.
  intros Hrange Hcons Hne Hsize. unfold Provider.get_rating.
  rewrite (Hcons Hne). cbn [default id].
  destruct (mean_bounds 1 5 (map Review.rating (Provider.get_reviews p)))
    as [H1 H5].
  - by destruct (Provider.get_reviews p).
  - apply Forall_forall. intros x Hx.
    apply list_elem_of_fmap in Hx as (rv & -> & Hrv).
    rewrite Forall_forall in Hrange. by apply Hrange.
  - rewrite length_map. change (2 ^ 50)%Z with 1125899906842624%Z in Hsize.
    change (2 ^ 53)%Z with 9007199254740992%Z. lia.
  - rewrite length_map. change (2 ^ 50)%Z with 1125899906842624%Z in Hsize.
    change (2 ^ 53)%Z with 9007199254740992%Z. lia.
  - by apply (round2_bounds _ 1 5).
Qed.

Lemma book_service_flow_kept :
  keeps (book_service_flow float uuid now_schedule now_created now_history
           now_review).
Proof.
  intros st lines.
  destruct (book_service_flow _ _ _ _ _ _ _ _) as [st1 r] eqn:E.
  apply book_service_flow_inv in E
    as [[-> _]
       |(name & phone & pref & service & choice & rest & i & p & _ & _ & _
         & Hp & Hrun)]; [apply kept_refl|].
  by destruct (booking_run_facts _ _ _ _ _ _ _ _ Hp Hrun) as (b & Hk & _).
Qed.

(** X23. Whatever is typed and however it ends, a booking flow keeps the
    identities of the providers, the agreement between files and memory,
    the range 1 to 5 of the ratings of the reviews and the consistency of
    the stored ratings with the reviews, the mean and its rounding being
    computed in floats; so every provider that has a review, and fewer than
    2^50 of them, still has a rating between 1 and 5 afterwards. *)
Theorem book_service_flow_keeps (st : state) (lines : list string) :
  let st' := fst (book_service_flow float uuid now_schedule now_created
                    now_history now_review st lines) in
  map identity (providers st') = map identity (providers st) /\
  (synced st -> synced st') /\
  (reviews_in_range (providers st) -> reviews_in_range (providers st')) /\
  (ratings_consistent (providers st) -> ratings_consistent (providers st')) /\
  (reviews_in_range (providers st) -> ratings_consistent (providers st) ->
   forall p, p ∈ providers st' -> Provider.get_reviews p <> [] ->
             (Z.of_nat (length (Provider.get_reviews p)) < 2 ^ 50)%Z ->
             (1 <= Provider.get_rating p /\ Provider.get_rating p <= 5)%Q).
Proof.
  intros st'. assert (kept st st') as (H1 & H2 & H3 & H4 & _)
    by apply book_service_flow_kept.
  do 4 (split; [done|]). intros Hrange Hcons p Hin Hne Hsize.
  specialize (H3 Hrange). specialize (H4 Hcons).
  unfold reviews_in_range, ratings_consistent in H3, H4.
  rewrite Forall_forall in H3, H4. apply rating_in_range; auto.
Qed.
End FlowProperties.

Lemma book_service_flow_booked_provider_witness :
  exists i p,
    providers initial_state !! i = Some p /\
    service_matches (Some "tour") p = true /\
    Provider.id p = "p2".
Proof.
  eassert (book_service_flow
             (fun s => if String.eqb s "4" then Finite 4 else NotAFloat)
             "0123456789ab" 1%Z 2%Z 3%Z 4%Z initial_state
             [" Ann "; ""; "french"; "tour"; "1"; "n"; "y"; "4"; " nice "]
           = (_, Some (Booked _ _, _))) as H by (vm_compute; reflexivity).
  apply book_service_flow_booked_provider in H. cbv zeta in H.
  destruct H as (i & p & Hp & Hservice & _ & _ & _ & Hid & _).
  exists i, p. split; [exact Hp|]. split; [exact Hservice|].
  by rewrite <- Hid.
Defined.

Lemma update_first_Forall (P : Provider.t -> Prop) pid f ps ps' q :
  Forall P ps -> (forall p, P p -> P (f p)) ->
  update_first pid f ps = Some (ps', q) -> Forall P ps'.
Proof.
  intros Hall Hf E.
  apply update_first_Some in E as (i & p & (Hi & _ & _) & -> & _).
  apply Forall_insert; [done|]. apply Hf.
  rewrite Forall_forall in Hall. apply Hall. by eapply list_elem_of_lookup_2.
Qed.

(** X24. The stored ratings follow the reviews: if every provider that has
    a review has as its rating the mean of the ratings of its reviews,
    divided and rounded to 2 decimals as the floats are, then this is so
    after [update_provider_availability], [add_review] and [admin_menu]. *)
Theorem ratings_stay_consistent (st : state) :
  ratings_consistent (providers st) ->
  (forall pid a n,
     ratings_consistent
       (providers (fst (update_provider_availability pid a n st)))) /\
  (forall pid r c now,
     ratings_consistent (providers (fst (add_review pid r c now st)))) /\
  (forall choice sel now,
     ratings_consistent (providers (admin_menu choice sel now st))).
Proof.
  intros Hcons.
  assert (forall pid a n,
            ratings_consistent
              (providers (fst (update_provider_availability pid a n st))))
    as Havailability.
  { intros pid a n. unfold update_provider_availability.
    destruct (update_first _ _ _) as [[ps' q]|] eqn:E; [|done].
    by apply (update_first_Forall _ _ _ _ _ _ Hcons) in E. }
  split; [exact Havailability|]. split.
  - intros pid r c now. unfold add_review.
    destruct (update_first _ _ _) as [[ps' q]|] eqn:E; [|done].
    by apply (update_first_Forall _ _ _ _ _ _ Hcons) in E.
  - intros choice sel now. unfold admin_menu, toggle_provider_availability.
    destruct (String.eqb choice "2"); [|done].
    destruct (listable (providers st)); [|done].
    destruct (negb (isdigit sel)); [done|].
    destruct (_ && _); [|done].
    destruct (providers st !! _); [|done]. apply Havailability.
Qed.

Lemma ratings_stay_consistent_witness :
  let st := fst (add_review "p1" (Num.binary64 (2675 # 1000)) "" 0%Z
                   initial_state) in
  ratings_consistent (providers st) /\
  ratings_consistent (providers (fst (add_review "p1" 4 "" 1%Z st))).
Proof.
  intros st.
  assert (ratings_consistent (providers st)) as H.
  { repeat (constructor; [intros ?; by vm_compute|]). constructor. }
  split; [exact H|].
  destruct (ratings_stay_consistent st H) as (_ & Hreview & _).
  apply Hreview.
Defined.

(** ** Text normalization *)

Lemma chars_text (l : list ascii) : Text.chars (Text.text l) = l.
Proof. apply list_ascii_of_string_of_list_ascii. Qed.

Lemma text_chars (s : string) : Text.text (Text.chars s) = s.
Proof. apply string_of_list_ascii_of_string. Qed.

Lemma chars_append (a b : string) :
  Text.chars (a +:+ b) = Text.chars a ++ Text.chars b.
Proof. induction a as [|c a IH]; simpl; [done|]. by rewrite <- IH. Qed.

Lemma char_classes (c : ascii) :
  Text.is_upper (Text.to_lower c) = false /\
  (Text.is_space c = true ->
   Text.is_upper c = false /\ Text.is_punctuation c = false) /\
  (Text.is_upper c = false -> Text.to_lower c = c).
Proof.
  destruct c as [[] [] [] [] [] [] [] []]; vm_compute; repeat split; congruence.
Qed.

Lemma plain_spec (c : ascii) :
  plain c = true <->
  Text.is_upper c = false /\ Text.is_punctuation c = false /\
  Text.is_space c = false.
Proof.
  unfold plain. rewrite !andb_true_iff, !negb_true_iff. tauto.
Qed.

Lemma chars_join (ws : list string) :
  Text.chars (Text.join " " ws) = join_chars ws.
Proof.
  induction ws as [|w [|w' ws'] IH]; [done|done|].
  change (Text.join " " (w :: w' :: ws'))
    with (w +:+ " " +:+ Text.join " " (w' :: ws')).
  rewrite !chars_append, IH. reflexivity.
Qed.

Lemma split_chars_plain (cur l : list ascii) :
  Forall (fun c => plain c = true) cur ->
  Forall (fun c => Text.is_upper c = false /\ Text.is_punctuation c = false) l ->
  plain_words (Text.split_chars cur l).
Proof.
  revert cur. induction l as [|c r IH]; intros cur Hcur Hl; simpl.
  - destruct cur as [|x cur]; [constructor|]. repeat constructor.
    + intros H. apply (f_equal Text.chars) in H. rewrite chars_text in H.
      simpl in H. by destruct (rev cur).
    + rewrite chars_text. by apply Forall_rev.
  - apply Forall_cons in Hl as [[Hu Hp] Hr].
    destruct (Text.is_space c) eqn:Es.
    + destruct cur as [|x cur]; [by apply IH|].
      constructor; [|by apply IH]. split.
      * intros H. apply (f_equal Text.chars) in H. rewrite chars_text in H.
        simpl in H. by destruct (rev cur).
      * rewrite chars_text. by apply Forall_rev.
    + apply IH; [|done]. constructor; [|done]. by apply plain_spec.
Qed.

Lemma split_chars_word (w : list ascii) (cur l : list ascii) :
  Forall (fun c => plain c = true) w ->
  Text.split_chars cur (w ++ l) = Text.split_chars (rev w ++ cur) l.
Proof.
  revert cur. induction w as [|c w IH]; intros cur Hw; [done|].
  apply Forall_cons in Hw as [Hc Hw]. apply plain_spec in Hc as (_ & _ & Hs).
  simpl. rewrite Hs, IH by done. by rewrite <- app_assoc.
Qed.

Lemma split_join_chars (ws : list string) :
  plain_words ws -> Text.split_chars [] (join_chars ws) = ws.
Proof.
  induction 1 as [|w ws' [Hne Hw] Hws IH]; [done|].
  assert (exists c r, rev (Text.chars w) = c :: r) as (c & r & Hrev).
  { destruct (rev (Text.chars w)) as [|c r] eqn:E; [|by eexists _, _].
    apply (f_equal (@rev ascii)) in E. rewrite rev_involutive in E.
    simpl in E. destruct Hne. by rewrite <- (text_chars w), E. }
  destruct ws' as [|w' ws''].
  - cbn [join_chars]. rewrite <- (app_nil_r (Text.chars w)).
    rewrite split_chars_word by done. simpl. rewrite app_nil_r, Hrev.
    by rewrite <- Hrev, rev_involutive, text_chars.
  - change (join_chars (w :: w' :: ws''))
      with (Text.chars w ++ " "%char :: join_chars (w' :: ws'')).
    rewrite split_chars_word by done. rewrite app_nil_r.
    cbn [Text.split_chars]. change (Text.is_space " ") with true.
    cbv beta iota. rewrite Hrev, <- Hrev, rev_involutive, text_chars.
    by rewrite IH.
Qed.

Lemma join_chars_ends (ws : list string) :
  plain_words ws -> ws <> [] ->
  (exists c r, join_chars ws = c :: r /\ Text.is_space c = false) /\
  (exists c r, rev (join_chars ws) = c :: r /\ Text.is_space c = false).
Proof.
  induction 1 as [|w ws' [Hne Hw] Hws IH]; [done|]. intros _.
  assert (exists c r, Text.chars w = c :: r /\ Text.is_space c = false)
    as (c & r & Hc & Hcs).
  { destruct (Text.chars w) as [|c r] eqn:E.
    - destruct Hne. by rewrite <- (text_chars w), E.
    - exists c, r. split; [done|]. apply Forall_cons in Hw as [Hc _].
      by apply plain_spec in Hc as (_ & _ & Hs). }
  assert (exists c r, rev (Text.chars w) = c :: r /\ Text.is_space c = false)
    as (c' & r' & Hc' & Hcs').
  { destruct (rev (Text.chars w)) as [|c' r'] eqn:E.
    - apply (f_equal (@rev ascii)) in E. rewrite rev_involutive in E.
      rewrite Hc in E. discriminate.
    - exists c', r'. split; [done|].
      assert (c' ∈ Text.chars w) as Hin.
      { apply list_elem_of_In, in_rev. rewrite E. by left. }
      rewrite Forall_forall in Hw. specialize (Hw _ Hin).
      by apply plain_spec in Hw as (_ & _ & ?). }
  destruct ws' as [|w' ws''].
  - cbn [join_chars]. split; by eexists _, _.
  - change (join_chars (w :: w' :: ws''))
      with (Text.chars w ++ " "%char :: join_chars (w' :: ws'')).
    split.
    + rewrite Hc. by eexists _, _.
    + destruct IH as [_ (c2 & r2 & Hr2 & Hs2)]; [done|].
      rewrite rev_app_distr. cbn [rev]. rewrite Hr2.
      by eexists _, _.
Qed.

Lemma lstrip_chars_id (l : list ascii) :
  (forall c r, l = c :: r -> Text.is_space c = false) ->
  Text.lstrip_chars l = l.
Proof.
  destruct l as [|c r]; [done|]. intros H. simpl. by rewrite (H c r).
Qed.

Lemma join_chars_classes (ws : list string) :
  plain_words ws ->
  Forall (fun c => Text.is_upper c = false /\ Text.is_punctuation c = false)
    (join_chars ws).
Proof.
  induction 1 as [|w ws' [Hne Hw] Hws IH]; [constructor|].
  assert (Forall (fun c => Text.is_upper c = false /\
                           Text.is_punctuation c = false) (Text.chars w))
    as Hcw.
  { eapply Forall_impl; [exact Hw|]. intros c Hc.
    apply plain_spec in Hc. tauto. }
  destruct ws' as [|w' ws'']; [done|].
  change (join_chars (w :: w' :: ws''))
    with (Text.chars w ++ " "%char :: join_chars (w' :: ws'')).
  apply Forall_app. split; [done|]. constructor; [by vm_compute|done].
Qed.

(** A list of plain words joined by single spaces is left as it is. *)
Lemma normalize_text_joined (ws : list string) :
  plain_words ws ->
  normalize_text (Some (Text.join " " ws)) = Text.join " " ws.
Proof.
  intros Hws. unfold normalize_text. cbn [Text.or_empty default id].
  assert (Text.strip (Text.join " " ws) = Text.join " " ws) as ->.
  { unfold Text.strip. rewrite chars_join.
    destruct ws as [|w ws']; [done|].
    destruct (join_chars_ends (w :: ws') Hws) as [(c & r & Hc & Hs)
                                                   (c' & r' & Hc' & Hs')];
      [done|].
    rewrite (lstrip_chars_id (join_chars (w :: ws')))
      by (intros ? ? ?; congruence).
    rewrite (lstrip_chars_id (rev (join_chars (w :: ws'))))
      by (intros ? ? ?; congruence).
    by rewrite rev_involutive, <- chars_join, text_chars. }
  pose proof (join_chars_classes ws Hws) as Hclasses.
  assert (Text.lower (Text.join " " ws) = Text.join " " ws) as ->.
  { unfold Text.lower. rewrite chars_join.
    rewrite <- (text_chars (Text.join " " ws)), chars_join. f_equal.
    induction Hclasses as [|c l [Hu _] Hl IH]; [done|]. simpl.
    rewrite IH. f_equal. by apply (char_classes c). }
  assert (Text.remove_punctuation (Text.join " " ws) = Text.join " " ws) as ->.
  { unfold Text.remove_punctuation. rewrite chars_join.
    rewrite <- (text_chars (Text.join " " ws)), chars_join. f_equal.
    induction Hclasses as [|c l [_ Hp] Hl IH]; [done|]. simpl.
    by rewrite Hp, IH. }
  unfold Text.split. by rewrite chars_join, split_join_chars.
Qed.

(** X25. On an ASCII string, [normalize_text] gives words of lower-case,
    punctuation-free, space-free characters joined by single spaces, with
    no space at either end, and normalizing again changes nothing. *)
Theorem normalize_text_normal_form (s : option string) :
  Text.is_ascii (Text.or_empty s) = true ->
  (exists ws, plain_words ws /\ normalize_text s = Text.join " " ws) /\
  normalize_text (Some (normalize_text s)) = normalize_text s.
Proof.
  intros _.
  assert (exists ws, plain_words ws /\ normalize_text s = Text.join " " ws)
    as (ws & Hws & Hs).
  { eexists. split; [|reflexivity].
    unfold Text.split. apply split_chars_plain; [constructor|].
    unfold Text.remove_punctuation, Text.lower. rewrite !chars_text.
    apply Forall_forall. intros c Hc. apply list_elem_of_In in Hc.
    apply filter_In in Hc as [Hc Hp]. apply negb_true_iff in Hp.
    split; [|done]. apply in_map_iff in Hc as (c0 & <- & _).
    by destruct (char_classes c0) as [H _]. }
  split; [by exists ws|]. rewrite Hs. by apply normalize_text_joined.
Qed.

Lemma normalize_text_normal_form_witness :
  (exists ws,
     plain_words ws /\
     normalize_text (Some "  Hello,   World! ") = Text.join " " ws) /\
  normalize_text (Some (normalize_text (Some "  Hello,   World! ")))
  = normalize_text (Some "  Hello,   World! ").
Proof. apply normalize_text_normal_form. reflexivity. Defined.

(** ** The booking flow on concrete inputs *)

(** Ann books the busy taxi driver, accepts the scheduling and rates the
    trip 4: the driver stays busy until one hour after the scheduling, the
    booking is recorded and the driver's rating becomes 4. *)
Example book_service_flow_example :
  let float s := if String.eqb s "4" then Finite 4 else NotAFloat in
  let busy := admin_menu "2" "1" 5%Z initial_state in
  let '(st', r) :=
    book_service_flow float "0123456789ab" 10%Z 20%Z 30%Z 40%Z busy
      [" Ann "; "555"; ""; "Taxi"; "1"; "y"; "n"; "y"; "4"; "fine"] in
  map (fun p => (Provider.available p, Provider.next_available p,
                 Provider.rating p))
    (providers st')
  = [(Some false, Some (10 + one_hour)%Z, Some 4%Q);
     (Some true, None, Some (Num.binary64 (49 # 10)));
     (Some true, None, Some (Num.binary64 (47 # 10)))] /\
  map (fun b => (Booking.id b, Booking.tourist b, Booking.provider_id b,
                 Booking.language b, Booking.phone b))
    (bookings st')
  = [("01234567", "Ann", "p1", Some "Telugu", Some "555")] /\
  exists b, r = Some (Booked b (Reviewed (Some 4%Q)), []).
Proof. vm_compute. repeat split. by eexists. Qed.

(** ** Flows, line by line *)

Section FlowCombinators.
Context {A B : Type}.

Lemma consumes_ret (x : A) : consumes (ret x).
Proof. intros st lines st' y rest [= _ _ <-]. done. Qed.

Lemma consumes_raise : consumes (@raise A).
Proof. intros st lines st' y rest H. discriminate H. Qed.

Lemma consumes_bind (m : flow A) (k : A -> flow B) :
  consumes m -> (forall x, consumes (k x)) -> consumes (bind m k).
Proof.
  intros Hm Hk st lines st' y rest. unfold bind.
  destruct (m st lines) as [st1 [[x lines1]|]] eqn:E; [|discriminate].
  intros H. apply Hm in E. apply Hk in H. lia.
Qed.

Lemma consumes_call (f : state -> state * A) : consumes (call f).
Proof.
  intros st lines st' y rest. unfold call. destruct (f st).
  by intros [= _ _ <-].
Qed.

Lemma consumes_try (body handler : flow A) :
  consumes body -> consumes handler -> consumes (flow_try body handler).
Proof.
  intros Hb Hh st lines st' y rest. unfold flow_try.
  destruct (body st lines) as [st1 [[x lines1]|]] eqn:E.
  - intros [= <- <- <-]. by apply Hb in E.
  - intros H. apply Hh in H. simpl in H. lia.
Qed.

Lemma keeps_ret (x : A) : keeps (ret x).
Proof. intros st lines. apply kept_refl. Qed.

Lemma keeps_raise : keeps (@raise A).
Proof. intros st lines. apply kept_refl. Qed.

Lemma keeps_bind (m : flow A) (k : A -> flow B) :
  keeps m -> (forall x, keeps (k x)) -> keeps (bind m k).
Proof.
  intros Hm Hk st lines. unfold bind. specialize (Hm st lines).
  destruct (m st lines) as [st1 [[x lines1]|]]; [|done].
  eapply kept_trans; [exact Hm|]. apply Hk.
Qed.

Lemma keeps_call (f : state -> state * A) :
  (forall st, kept st (fst (f st))) -> keeps (call f).
Proof.
  intros Hf st lines. unfold call. specialize (Hf st). by destruct (f st).
Qed.
End FlowCombinators.

Lemma consumes_input : consumes input_strip.
Proof.
  intros st [|line lines] st' y rest; [discriminate|].
  intros [= _ _ <-]. simpl. lia.
Qed.

Lemma consumes_get : consumes get_state.
Proof. by intros st lines st' y rest [= _ _ <-]. Qed.

Lemma consumes_show (listing : list Provider.t) :
  consumes (show_providers listing).
Proof.
  unfold show_providers. destruct (listable _);
    [apply consumes_ret|apply consumes_raise].
Qed.

Lemma keeps_input : keeps input_strip.
Proof. intros st [|line lines]; apply kept_refl. Qed.

Lemma keeps_get : keeps get_state.
Proof. intros st lines. apply kept_refl. Qed.

Lemma keeps_show (listing : list Provider.t) : keeps (show_providers listing).
Proof.
  unfold show_providers. destruct (listable _);
    [apply keeps_ret|apply keeps_raise].
Qed.

Ltac flow_steps :=
  repeat first
    [ apply consumes_ret | apply consumes_raise | apply consumes_input
    | apply consumes_get | apply consumes_show | apply consumes_call
    | apply consumes_try
    | apply consumes_bind; [|intros ?]
    | apply keeps_ret | apply keeps_raise | apply keeps_input
    | apply keeps_get | apply keeps_show
    | apply keeps_bind; [|intros ?] ].

Lemma kept_update_provider_availability pid a n st :
  kept st (fst (update_provider_availability pid a n st)).
Proof.
  unfold update_provider_availability.
  destruct (update_first _ _ _) as [[ps' q']|] eqn:E; [|apply kept_refl].
  apply update_first_Some in E as (i & q & (Hi & _ & _) & -> & ->).
  cbn [fst]. by apply (kept_insert st i q).
Qed.

Lemma kept_toggle sel now st :
  kept st (toggle_provider_availability sel now st).
Proof.
  unfold toggle_provider_availability.
  destruct (negb (isdigit sel)); [apply kept_refl|].
  destruct (_ && _); [|apply kept_refl].
  destruct (providers st !! _); [|apply kept_refl].
  apply kept_update_provider_availability.
Qed.

Section ConsoleFacts.
Variable LANGDETECT_AVAILABLE : bool.
Variable detect : string -> outcome string.
Variable float : string -> parsed_float.
Variable env : nat -> readings.

Lemma consumes_translate :
  consumes (translate_message_flow LANGDETECT_AVAILABLE detect).
Proof.
  unfold translate_message_flow. flow_steps.
  destruct (negb _); flow_steps.
  destruct (detect_language _ _ _); flow_steps.
  destruct (translate_phrase _ _) as [translated matched_key].
  destruct (truthy_opt translated); flow_steps.
  destruct (truthy_opt matched_key); flow_steps.
  destruct (Difflib.get_close_matches _ _ _ _); flow_steps.
Qed.

Lemma translate_state (st : state) (lines : list string) :
  fst (translate_message_flow LANGDETECT_AVAILABLE detect st lines) = st.
Proof.
  unfold translate_message_flow, bind, input_strip, ret, raise.
  destruct lines as [|phrase lines]; [done|].
  destruct (negb _); [done|].
  destruct (detect_language _ _ _); [|done].
  destruct lines as [|target lines]; [done|].
  destruct (translate_phrase _ _) as [translated matched_key].
  destruct (truthy_opt translated); [done|].
  destruct (truthy_opt matched_key); [done|].
  by destruct (Difflib.get_close_matches _ _ _ _).
Qed.

Lemma keeps_translate :
  keeps (translate_message_flow LANGDETECT_AVAILABLE detect).
Proof. intros st lines. rewrite translate_state. apply kept_refl. Qed.

Lemma consumes_admin now : consumes (admin_menu_flow now).
Proof.
  unfold admin_menu_flow. flow_steps.
  destruct (String.eqb _ "1").
  { destruct (analytics_summary _) as [[t [r|]]|]; flow_steps. }
  destruct (String.eqb _ "2"); flow_steps.
  destruct (String.eqb _ "3"); flow_steps.
Qed.

Lemma keeps_admin now : keeps (admin_menu_flow now).
Proof.
  unfold admin_menu_flow. flow_steps.
  destruct (String.eqb _ "1").
  { destruct (analytics_summary _) as [[t [r|]]|]; flow_steps. }
  destruct (String.eqb _ "2"); flow_steps.
  - apply keeps_call. intros st. apply kept_toggle.
  - destruct (String.eqb _ "3"); flow_steps.
Qed.
End ConsoleFacts.

Ltac flow_cases :=
  flow_steps;
  repeat (match goal with
          | |- consumes (match ?x with _ => _ end) => destruct x
          end; flow_steps).

Section BookingConsumes.
Variable float : string -> parsed_float.
Variable uuid : string.
Variables now_schedule now_created now_history now_review : time.

Lemma consumes_book_provider name phone pref i :
  consumes (book_provider float uuid now_schedule now_created now_history
              now_review name phone pref i).
Proof.
  unfold book_provider, schedule_provider, complete_trip, rate_experience.
  flow_cases.
Qed.

Lemma consumes_book_service_flow :
  consumes (book_service_flow float uuid now_schedule now_created now_history
              now_review).
Proof.
  unfold book_service_flow, book_provider, schedule_provider, complete_trip,
    rate_experience.
  flow_cases.
Qed.
End BookingConsumes.

(** ** The translation at the console *)

Lemma get_close_matches_scored word possibilities n cutoff x :
  x ∈ Difflib.get_close_matches word possibilities n cutoff ->
  x ∈ possibilities /\
  (cutoff <= Difflib.ratio (Text.chars x) (Text.chars word))%Q.
Proof.
  unfold Difflib.get_close_matches. intros Hx.
  apply list_elem_of_fmap in Hx as (r & -> & Hr).
  apply elem_of_take in Hr as (i & Hr & _).
  apply list_elem_of_lookup_2 in Hr. rewrite sort_reverse_perm in Hr.
  apply list_elem_of_omap in Hr as (y & Hy & Hscored).
  rewrite (scored_snd _ _ _ _ Hscored). split; [done|].
  by destruct (scored_Some _ _ _ _ Hscored) as [_ H].
Qed.

Lemma get_close_matches_length word possibilities n cutoff :
  length (Difflib.get_close_matches word possibilities n cutoff) <= n.
Proof.
  unfold Difflib.get_close_matches. rewrite length_map, length_take. lia.
Qed.

Lemma detect_language_returns (LANGDETECT_AVAILABLE : bool)
  (detect : string -> outcome string) (text : option string) :
  exists detected,
    detect_language LANGDETECT_AVAILABLE detect text = Returns detected.
Proof.
  unfold detect_language. destruct (negb _); [by eexists|].
  destruct LANGDETECT_AVAILABLE.
  - destruct (detect _); by eexists.
  - repeat (destruct (any_in _ _); [by eexists|]). by eexists.
Qed.

Lemma translate_phrase_cases (phrase target_lang : option string) :
  match fuzzy_match_phrase phrase with
  | Some key =>
      exists translations,
        dict_get key phrasebook = Some translations /\
        map fst translations = ["French"; "Spanish"; "Telugu"] /\
        Forall (fun t => Text.truthy t = true) (map snd translations) /\
        translate_phrase phrase target_lang
        = (dict_get (normalize_language (Text.or_empty target_lang))
             translations, Some key) /\
        Text.truthy key = true
  | None => translate_phrase phrase target_lang = (None, None)
  end.
Proof.
  unfold translate_phrase.
  destruct (fuzzy_match_phrase phrase) as [key|] eqn:E; [|done].
  pose proof (fuzzy_match_phrase_key _ _ E) as Hkey.
  apply list_elem_of_In in Hkey. simpl in Hkey.
  destruct Hkey as [<-|[<-|[<-|[<-|[<-|[]]]]]];
    (eexists; split; [reflexivity|]; split; [reflexivity|];
     split; [cbn [map snd]; repeat (constructor; [done|]); constructor|];
     split; [|done];
     cbn [Text.truthy negb];
     set (d := default [] (dict_get _ phrasebook)); vm_compute in d; subst d;
     fold (normalize_language (Text.or_empty target_lang));
     by destruct (dict_get _ _)).
Qed.

Lemma dict_get_value {V : Type} (k : string) (d : list (string * V)) (v : V) :
  dict_get k d = Some v -> k ∈ map fst d /\ v ∈ map snd d.
Proof.
  intros H. apply dict_get_Some in H. split; apply list_elem_of_fmap;
    by exists (k, v).
Qed.

Section TranslateFlow.
Variable LANGDETECT_AVAILABLE : bool.
Variable detect : string -> outcome string.

(** X26. [translate_message_flow] never changes the state, and it raises
    only when the input ends before the two lines it reads. An empty
    message ends it after one line. Otherwise the language is the one
    typed, or the detected one when none is typed, stripped and title-cased,
    and: a translation is shown when the message resolves to a phrasebook
    key and the language is French, Spanish or Telugu, and it is the
    key's entry for that language; a key without translation is reported
    when the language is any other; suggestions are made only when the
    message resolves to no key, and they are one to three phrasebook keys
    of similarity at least 0.4 to the normalized message. *)
Theorem translate_message_flow_outcomes (st : state) (lines : list string) :
  let languages := ["French"; "Spanish"; "Telugu"] in
  match translate_message_flow LANGDETECT_AVAILABLE detect st lines with
  | (st', None) =>
      st' = st /\
      (lines = [] \/ exists phrase, lines = [phrase] /\ Text.strip phrase <> "")
  | (st', Some (NoInput, rest)) =>
      st' = st /\ exists phrase, lines = phrase :: rest /\ Text.strip phrase = ""
  | (st', Some (e, rest)) =>
      st' = st /\
      exists phrase target detected,
        lines = phrase :: target :: rest /\ Text.strip phrase <> "" /\
        detect_language LANGDETECT_AVAILABLE detect (Some (Text.strip phrase))
        = Returns detected /\
        let resolved := fuzzy_match_phrase (Some (Text.strip phrase)) in
        let word := normalize_text (Some (Text.strip phrase)) in
        let language :=
          normalize_language
            (if Text.truthy (Text.strip target) then Text.strip target
             else Text.or_empty detected) in
        match e with
        | NoInput => False
        | Translated key target_language translated =>
            target_language = language /\ language ∈ languages /\
            exists k, key = Some k /\ resolved = Some k /\
              k ∈ map fst phrasebook /\
              dict_get language (default [] (dict_get k phrasebook))
              = Some translated
        | NoTranslation key target_language =>
            target_language = language /\ (language ∉ languages) /\
            resolved = Some key /\ key ∈ map fst phrasebook
        | DidYouMean close =>
            resolved = None /\ 1 <= length close /\ length close <= 3 /\
            forall k, k ∈ close ->
              k ∈ map fst phrasebook /\
              (4 # 10 <= Difflib.ratio (Text.chars k) (Text.chars word))%Q
        | NotAvailable => resolved = None
        end
  end.
Proof.
  cbv zeta.
  unfold translate_message_flow, bind, input_strip, ret, raise.
  destruct lines as [|phrase lines]; [by split; [|left]|].
  destruct (Text.truthy (Text.strip phrase)) eqn:Hphrase; cbn [negb].
  2:{ split; [done|]. exists phrase. split; [done|].
      by destruct (Text.strip phrase). }
  assert (Text.strip phrase <> "") as Hne by (by destruct (Text.strip phrase)).
  destruct (detect_language_returns LANGDETECT_AVAILABLE detect
              (Some (Text.strip phrase))) as [detected Hdetected].
  rewrite Hdetected.
  destruct lines as [|target lines].
  { split; [done|]. right. by exists phrase. }
  set (chosen := if negb (Text.truthy (Text.strip target)) && truthy_opt detected
                 then Text.or_empty detected else Text.strip target).
  assert (normalize_language chosen
          = normalize_language
              (if Text.truthy (Text.strip target) then Text.strip target
               else Text.or_empty detected)) as Hlanguage.
  { subst chosen. destruct (Text.truthy (Text.strip target)) eqn:Ht;
      cbn [negb andb]; [done|].
    unfold truthy_opt. destruct (Text.truthy (Text.or_empty detected)) eqn:Hd;
      [done|].
    destruct (Text.strip target); [|discriminate].
    by destruct (Text.or_empty detected). }
  pose proof (translate_phrase_cases (Some (Text.strip phrase)) (Some chosen))
    as Hcases.
  destruct (fuzzy_match_phrase (Some (Text.strip phrase))) as [key|] eqn:E.
  - destruct Hcases as (translations & Hget & Hfst & Hsnd & -> & Hkey).
    cbn [Text.or_empty default id].
    pose proof (fuzzy_match_phrase_key _ _ E) as Hin.
    destruct (dict_get (normalize_language chosen) translations)
      as [translated|] eqn:Ht.
    + destruct (dict_get_value _ _ _ Ht) as [Hl Hv].
      rewrite Forall_forall in Hsnd. specialize (Hsnd _ Hv).
      unfold truthy_opt at 1. cbn [Text.or_empty default id]. rewrite Hsnd.
      split; [done|]. exists phrase, target, detected.
      do 3 (split; [done|]). cbv zeta. rewrite <- Hlanguage.
      split; [done|]. split; [by rewrite <- Hfst|].
      exists key. do 3 (split; [done|]). by rewrite Hget.
    + unfold truthy_opt. cbn [Text.or_empty default id Text.truthy].
      rewrite Hkey. split; [done|]. exists phrase, target, detected.
      do 3 (split; [done|]). cbv zeta. rewrite <- Hlanguage.
      split; [done|]. split; [|done].
      rewrite <- Hfst, <- dict_get_is_Some, Ht. by intros []%is_Some_None.
  - rewrite Hcases. unfold truthy_opt. cbn [Text.or_empty default id Text.truthy].
    pose proof (get_close_matches_length
                  (normalize_text (Some (Text.strip phrase)))
                  (map fst phrasebook) 3 (4 # 10)) as Hlen.
    pose proof (get_close_matches_scored
                  (normalize_text (Some (Text.strip phrase)))
                  (map fst phrasebook) 3 (4 # 10)) as Hclose.
    destruct (Difflib.get_close_matches _ _ _ _) as [|c close].
    + split; [done|]. by exists phrase, target, detected.
    + split; [done|]. exists phrase, target, detected.
      do 3 (split; [done|]). cbv zeta. split; [done|].
      split; [simpl; lia|]. split; [done|]. exact Hclose.
Qed.
End TranslateFlow.

(** ** The session *)

Lemma bind_consumes_ext {A B : Type} (m : flow A) (k1 k2 : A -> flow B)
  (st : state) (lines : list string) :
  consumes m ->
  (forall x st' rest, length rest <= length lines ->
                      k1 x st' rest = k2 x st' rest) ->
  bind m k1 st lines = bind m k2 st lines.
Proof.
  intros Hm Hk. unfold bind.
  destruct (m st lines) as [st1 [[x rest]|]] eqn:E; [|done].
  apply Hk. by apply Hm in E.
Qed.

Lemma bind_input_strip {B : Type} (k : string -> flow B) (st : state)
  (lines : list string) :
  bind input_strip k st lines
  = match lines with
    | [] => (st, None)
    | line :: rest => k (Text.strip line) st rest
    end.
Proof. by destruct lines. Qed.

Section SessionFacts.
Variable LANGDETECT_AVAILABLE : bool.
Variable detect : string -> outcome string.
Variable float : string -> parsed_float.
Variable env : nat -> readings.

(** The number of turns given to [main_loop] is never reached: every turn
    reads a line. *)
Lemma main_loop_turns (turns turns' n : nat) (st : state)
  (lines : list string) :
  length lines < turns -> length lines < turns' ->
  main_loop LANGDETECT_AVAILABLE detect float env turns n st lines
  = main_loop LANGDETECT_AVAILABLE detect float env turns' n st lines.
Proof.
  revert turns' n st lines.
  induction turns as [|turns IH]; intros [|turns'] n st lines H1 H2; try lia.
  cbn [main_loop]. rewrite !bind_input_strip.
  destruct lines as [|option rest]; [done|]. cbn [length] in *.
  assert (forall st' rest', length rest' <= length rest ->
            main_loop LANGDETECT_AVAILABLE detect float env turns (S n) st' rest'
            = main_loop LANGDETECT_AVAILABLE detect float env turns' (S n) st'
                rest') as Hnext.
  { intros st' rest' Hle. apply IH; lia. }
  repeat (destruct (String.eqb _ _); [first
    [ done
    | by apply Hnext
    | apply bind_consumes_ext;
      [first [apply consumes_translate | apply consumes_book_service_flow
             | apply consumes_admin | apply consumes_get]
      |intros ? ? ? ?; first
         [ by apply Hnext
         | apply bind_consumes_ext; [apply consumes_show|];
           intros ? ? ? ?; apply Hnext; lia ]] ]|]).
  by apply Hnext.
Qed.

Lemma keeps_main_loop (turns n : nat) :
  keeps (main_loop LANGDETECT_AVAILABLE detect float env turns n).
Proof.
  revert n. induction turns as [|turns IH]; intros n; cbn [main_loop].
  - apply keeps_ret.
  - apply keeps_bind; [apply keeps_input|]. intros option.
    repeat (destruct (String.eqb _ _); [first
      [ apply keeps_ret
      | apply IH
      | apply keeps_bind; [apply keeps_translate|intros ?; apply IH]
      | apply keeps_bind; [apply book_service_flow_kept|intros ?; apply IH]
      | apply keeps_bind; [apply keeps_admin|intros ?; apply IH]
      | apply keeps_bind; [apply keeps_get|intros ?];
        apply keeps_bind; [apply keeps_show|intros ?; apply IH] ]|]).
    apply IH.
Qed.

(** X27. A whole session keeps what each of its steps keeps, however it
    ends: the providers keep their identities (id, name, service, language,
    location) and their number, the bookings that existed are still there,
    in order, before the new ones, the review ratings stay within 1 to 5 and
    the stored ratings stay the rounded means of the reviews, as the floats
    give them; and what is in memory at the end is in the files, so that the
    next start of the program loads the providers and bookings of that
    moment. *)
Theorem main_session (st : state) (lines : list string) :
  let st' := fst (main LANGDETECT_AVAILABLE detect float env st lines) in
  map identity (providers st') = map identity (providers st) /\
  (exists bs, bookings st' = bookings st ++ bs) /\
  (reviews_in_range (providers st) -> reviews_in_range (providers st')) /\
  (ratings_consistent (providers st) -> ratings_consistent (providers st')) /\
  synced st' /\
  load_state (disk st')
  = Some (mkstate (providers st') (bookings st') (ensure_data_dir (disk st'))).
Proof.
  intros st'.
  assert (kept (save_state st) st') as (H1 & H2 & H3 & H4 & H5).
  { subst st'. unfold main.
    pose proof (keeps_main_loop (S (length lines)) 0 (save_state st) lines)
      as Hk.
    by destruct (main_loop _ _ _ _ _ _ _ _) as [st1 [[e rest]|]]. }
  specialize (H2 (save_state_synced st)).
  do 4 (split; [done|]). split; [done|].
  destruct H2 as [Hp Hb]. unfold load_state. rewrite !load_json_eq.
  cbn [ensure_data_dir files]. by rewrite Hp, Hb.
Qed.
End SessionFacts.

(** ** Exceptions at the console *)

Lemma kept_listed (st st' : state) : kept st st' -> listed st -> listed st'.
Proof.
  intros (Hid & _) [Hne Hall].
  assert (forall ps, Forall (fun p => is_Some (Provider.language p)) ps <->
                     Forall (fun t => is_Some (snd (fst t))) (map identity ps))
    as Hmap.
  { intros ps. by rewrite Forall_fmap. }
  split.
  - intros He. rewrite He in Hid. by destruct (providers st).
  - rewrite Hmap, Hid, <- Hmap. done.
Qed.

Lemma show_providers_listed (listing : list Provider.t) :
  Forall (fun p => is_Some (Provider.language p)) listing ->
  show_providers listing = ret tt.
Proof.
  intros H. unfold show_providers.
  by rewrite (proj2 (listable_Forall _) H).
Qed.

Lemma reads_le {A : Type} (n n' : nat) (lines : list string)
  (r : state * option (A * list string)) :
  n <= n' -> reads n lines r -> reads n' lines r.
Proof.
  intros Hn. destruct r as [st [[x rest]|]]; simpl; [|lia].
  intros [Hs Hl]. split; [done|lia].
Qed.

Lemma reads_ret {A : Type} (n : nat) (x : A) (st : state)
  (lines : list string) :
  reads n lines (ret x st lines).
Proof. simpl. split; [done|lia]. Qed.

Lemma reads_input_bind {A : Type} (n : nat) (k : string -> flow A)
  (st : state) (lines : list string) :
  (forall x rest, reads n rest (k x st rest)) ->
  reads (S n) lines (bind input_strip k st lines).
Proof.
  intros Hk. rewrite bind_input_strip.
  destruct lines as [|line rest]; [simpl; lia|].
  specialize (Hk (Text.strip line) rest).
  destruct (k _ st rest) as [st' [[x rest']|]]; simpl in *; [|lia].
  destruct Hk as [Hs Hl]. split; [by apply suffix_cons_r|lia].
Qed.

Lemma reads_bind {A B : Type} (n1 n2 : nat) (m : flow A) (k : A -> flow B)
  (st : state) (lines : list string) :
  reads n1 lines (m st lines) ->
  (forall x st' rest, reads n2 rest (k x st' rest)) ->
  reads (n1 + n2) lines (bind m k st lines).
Proof.
  intros Hm Hk. unfold bind.
  destruct (m st lines) as [st1 [[x rest]|]]; simpl in Hm; [|simpl; lia].
  destruct Hm as [Hs Hl]. specialize (Hk x st1 rest).
  destruct (k x st1 rest) as [st2 [[y rest']|]]; simpl in *; [|lia].
  destruct Hk as [Hs' Hl']. split; [by etrans|lia].
Qed.

Section Runs.
Context {A B : Type}.

Lemma runs_ret (n : nat) (x : A) : runs n (ret x).
Proof. intros st lines. apply reads_ret. Qed.

Lemma runs_input_bind (n : nat) (k : string -> flow A) :
  (forall x, runs n (k x)) -> runs (S n) (bind input_strip k).
Proof.
  intros Hk st lines. apply reads_input_bind. intros x rest. apply Hk.
Qed.

Lemma runs_bind (n1 n2 : nat) (m : flow A) (k : A -> flow B) :
  runs n1 m -> (forall x, runs n2 (k x)) -> runs (n1 + n2) (bind m k).
Proof.
  intros Hm Hk st lines. apply reads_bind; [apply Hm|].
  intros x st' rest. apply Hk.
Qed.

Lemma runs_call_bind (n : nat) (f : state -> state * A) (k : A -> flow B) :
  (forall x, runs n (k x)) -> runs n (bind (call f) k).
Proof.
  intros Hk st lines. unfold bind, call. destruct (f st) as [st' x].
  apply Hk.
Qed.

Lemma runs_get_bind (n : nat) (k : state -> flow A) :
  (forall x, runs n (k x)) -> runs n (bind get_state k).
Proof. intros Hk st lines. apply Hk. Qed.

Lemma runs_try (n : nat) (body handler : flow A) :
  runs n body -> runs 0 handler -> runs n (flow_try body handler).
Proof.
  intros Hb Hh st lines. unfold flow_try. specialize (Hb st lines).
  destruct (body st lines) as [st1 [[x rest]|]]; [done|].
  simpl in Hb. specialize (Hh st1 []).
  destruct (handler st1 []) as [st2 [[y rest']|]]; simpl in *; [|lia].
  destruct Hh as [Hs _]. apply suffix_nil_inv in Hs as ->.
  split; [apply suffix_nil|lia].
Qed.
End Runs.

Section ConsoleRuns.
Variable LANGDETECT_AVAILABLE : bool.
Variable detect : string -> outcome string.
Variable float : string -> parsed_float.
Variable uuid : string.
Variables now_schedule now_created now_history now_review : time.

Lemma runs_translate :
  runs 2 (translate_message_flow LANGDETECT_AVAILABLE detect).
Proof.
  unfold translate_message_flow. apply runs_input_bind. intros phrase.
  destruct (negb _); [apply runs_ret|].
  destruct (detect_language_returns LANGDETECT_AVAILABLE detect (Some phrase))
    as [detected ->].
  apply runs_input_bind. intros target.
  destruct (translate_phrase _ _) as [translated matched_key].
  destruct (truthy_opt translated); [apply runs_ret|].
  destruct (truthy_opt matched_key); [apply runs_ret|].
  destruct (Difflib.get_close_matches _ _ _ _); apply runs_ret.
Qed.

Lemma runs_rate (pid : string) :
  runs 2 (rate_experience float now_review pid).
Proof.
  unfold rate_experience. apply runs_input_bind. intros rating.
  destruct (float rating); try apply runs_ret.
  destruct (_ && _); [|apply runs_ret].
  apply runs_try; [|apply runs_ret].
  apply runs_input_bind. intros comment.
  apply runs_call_bind. intros new_avg. apply runs_ret.
Qed.

Lemma runs_schedule (i : nat) (p : Provider.t) :
  runs 1 (schedule_provider now_schedule i p).
Proof.
  unfold schedule_provider. destruct (negb _); [|apply runs_ret].
  apply runs_input_bind. intros schedule.
  destruct (negb _); [apply runs_ret|].
  intros st lines. unfold call. apply reads_ret.
Qed.

Lemma runs_complete_trip (p : Provider.t) (b : Booking.t) :
  runs 4 (complete_trip float now_review p b).
Proof.
  unfold complete_trip. apply runs_input_bind. intros open_map.
  apply runs_input_bind. intros complete.
  destruct (String.eqb _ _); [|apply runs_ret].
  apply (runs_bind 2 0); [apply runs_rate|]. intros review. apply runs_ret.
Qed.

Lemma runs_book_provider name phone pref (i : nat) :
  runs 5 (book_provider float uuid now_schedule now_created now_history
            now_review name phone pref i).
Proof.
  unfold book_provider. apply runs_get_bind. intros st.
  destruct (providers st !! i) as [p|]; [|apply runs_ret].
  apply (runs_bind 1 4); [apply runs_schedule|]. intros [p'|];
    [|apply runs_ret].
  apply runs_call_bind. intros b. apply runs_complete_trip.
Qed.

Lemma reads_book_service_flow (st : state) (lines : list string) :
  listed st ->
  reads 10 lines
    (book_service_flow float uuid now_schedule now_created now_history
       now_review st lines).
Proof.
  intros [_ Hall]. unfold book_service_flow.
  apply reads_input_bind. intros name rest.
  destruct (negb _); [apply reads_ret|].
  apply reads_input_bind. intros phone rest1.
  apply reads_input_bind. intros pref rest2.
  apply reads_input_bind. intros service rest3.
  unfold bind at 1, get_state.
  rewrite show_providers_listed.
  2:{ apply Forall_forall. intros p Hp.
      apply list_elem_of_omap in Hp as (i & _ & Hi).
      apply list_elem_of_lookup_2 in Hi. rewrite Forall_forall in Hall.
      by apply Hall. }
  unfold bind at 1, ret at 1.
  apply (reads_le 6); [lia|]. apply runs_input_bind. intros choice.
  destruct (String.eqb _ _); [apply runs_ret|].
  destruct (negb _); [apply runs_ret|].
  destruct (_ && _); [|apply runs_ret].
  destruct (_ !! _); [|apply runs_ret]. apply runs_book_provider.
Qed.

Lemma reads_admin (now : time) (st : state) (lines : list string) :
  listed st -> reads 2 lines (admin_menu_flow now st lines).
Proof.
  intros [Hne Hall]. unfold admin_menu_flow.
  apply reads_input_bind. intros choice rest.
  unfold bind at 1, get_state.
  destruct (String.eqb _ "1").
  { unfold analytics_summary. destruct (bookings st); [apply reads_ret|].
    destruct (providers st); [done|apply reads_ret]. }
  destruct (String.eqb _ "2").
  { rewrite show_providers_listed by done. unfold bind at 1, ret at 1.
    apply runs_input_bind. intros sel. intros st' lines'. apply reads_ret. }
  destruct (String.eqb _ "3"); [|apply reads_ret].
  rewrite show_providers_listed by done. apply reads_ret.
Qed.
End ConsoleRuns.

Lemma suffix_repeat {X : Type} (x : X) (k : nat) (l : list X) :
  l `suffix_of` repeat x k -> l = repeat x (length l).
Proof.
  revert l. induction k as [|k IH]; intros l Hl; simpl in Hl.
  - by apply suffix_nil_inv in Hl as ->.
  - destruct l as [|y l]; [done|].
    apply suffix_cons_inv in Hl as [[= -> ->]|Hl]; [|by apply IH].
    simpl. by rewrite repeat_length.
Qed.

Lemma suffix_app_repeat {X : Type} (x : X) (k : nat) (l rest : list X) :
  rest `suffix_of` l ++ repeat x k ->
  (exists l', rest = l' ++ repeat x k) \/ rest = repeat x (length rest).
Proof.
  induction l as [|y l IH]; simpl; intros Hs.
  - right. by apply (suffix_repeat x k).
  - destruct rest as [|z rest]; [by right|].
    apply suffix_cons_inv in Hs as [[= -> ->]|Hs]; [|by apply IH].
    left. by exists (y :: l).
Qed.

Section SessionEnd.
Variable LANGDETECT_AVAILABLE : bool.
Variable detect : string -> outcome string.
Variable float : string -> parsed_float.
Variable env : nat -> readings.

Lemma main_loop_exits (turns n : nat) (st : state) (l : list string)
  (k : nat) :
  listed st -> length (l ++ repeat "6" k) < turns ->
  11 <= k \/ (l = [] /\ 1 <= k) ->
  exists st' rest,
    main_loop LANGDETECT_AVAILABLE detect float env turns n st
      (l ++ repeat "6" k)
    = (st', Some (Exited, rest)).
Proof.
  revert n st l k.
  induction turns as [|turns IH]; intros n st l k Hlisted Hturns Hk; [lia|].
  cbn [main_loop]. rewrite bind_input_strip.
  destruct l as [|line l].
  - destruct k as [|k]; [lia|]. cbn [app repeat].
    change (Text.strip "6") with "6".
    change (String.eqb "6" "1") with false.
    change (String.eqb "6" "2") with false.
    change (String.eqb "6" "3") with false.
    change (String.eqb "6" "4") with false.
    change (String.eqb "6" "5") with false.
    change (String.eqb "6" "6") with true. cbv iota. by eexists _, _.
  - destruct Hk as [Hk|[[=] _]].
    rewrite <- app_comm_cons. rewrite <- app_comm_cons in Hturns.
    cbn [length] in Hturns.
    set (rest := l ++ repeat "6" k) in *.
    assert (k <= length rest) as Hrest.
    { subst rest. rewrite length_app, repeat_length. lia. }
    assert (forall st1 rest',
              kept st st1 -> rest' `suffix_of` rest ->
              length rest <= length rest' + 10 ->
              exists st' rest'',
                main_loop LANGDETECT_AVAILABLE detect float env turns (S n) st1
                  rest'
                = (st', Some (Exited, rest''))) as Hnext.
    { intros st1 rest' Hkept Hsuffix Hlen.
      pose proof (suffix_length _ _ Hsuffix) as Hle.
      pose proof (kept_listed _ _ Hkept Hlisted) as Hlisted1.
      destruct (suffix_app_repeat _ _ _ _ Hsuffix) as [[l' ->]| ->].
      - apply IH; [done|lia|by left].
      - rewrite <- (app_nil_l (repeat _ _)). apply IH; [done| |right].
        + rewrite app_nil_l, repeat_length. lia.
        + split; [done|lia]. }
    assert (forall (A : Type) (m : flow A),
              keeps m -> reads 10 rest (m st rest) ->
              exists st' rest'',
                bind m (fun _ => main_loop LANGDETECT_AVAILABLE detect float
                                   env turns (S n)) st rest
                = (st', Some (Exited, rest''))) as Hflow.
    { intros A m Hkeeps Hreads. unfold bind. specialize (Hkeeps st rest).
      destruct (m st rest) as [st1 [[x rest']|]]; simpl in Hreads, Hkeeps.
      - destruct Hreads as [Hs Hl]. by apply Hnext.
      - lia. }
    destruct (String.eqb _ "1").
    { apply Hflow; [apply keeps_translate|].
      apply (reads_le 2); [lia|apply runs_translate]. }
    destruct (String.eqb _ "2").
    { unfold bind at 1, get_state.
      rewrite show_providers_listed by apply Hlisted.
      unfold bind at 1, ret at 1.
      apply Hnext; [apply kept_refl|done|lia]. }
    destruct (String.eqb _ "3").
    { apply Hflow; [apply book_service_flow_kept|].
      by apply reads_book_service_flow. }
    destruct (String.eqb _ "4").
    { apply Hnext; [apply kept_refl|done|lia]. }
    destruct (String.eqb _ "5").
    { apply Hflow; [apply keeps_admin|].
      apply (reads_le 2); [lia|by apply reads_admin]. }
    destruct (String.eqb _ "6"); [by eexists _, _|].
    apply Hnext; [apply kept_refl|done|lia].
Qed.

(** X28. With at least one provider, and the key "language" in every
    provider, no exception but the end of the input leaves the main loop:
    a session whose input ends with eleven lines "6" exits by the option 6,
    whatever is typed before, whatever [float] and [detect] do. Eleven,
    because a turn reads at most that many lines: the option and the ten
    of a booking. The lines are taken to be ASCII and of at most 4300
    characters: a selection made of digits of another script, or of more
    digits, passes [isdigit] and makes [int] raise a [ValueError] that
    nothing catches. *)
Theorem main_exits (st : state) (lines : list string) :
  listed st ->
  Forall (fun line => typed line = true) lines ->
  snd (main LANGDETECT_AVAILABLE detect float env st
         (lines ++ repeat "6" 11))
  = Exited.
Proof.
  intros Hlisted _. unfold main.
  destruct (main_loop_exits (S (length (lines ++ repeat "6" 11))) 0
              (save_state st) lines 11) as (st' & rest & ->);
    [done|lia|by left|done].
Qed.
End SessionEnd.

Lemma main_exits_witness :
  listed initial_state /\
  snd (main false (fun _ => Raises) (fun _ => NotAFloat)
         (fun _ => mkreadings "0123456789ab" 10%Z 20%Z 30%Z 40%Z 50%Z)
         initial_state
         (["3"; "Ann"; ""; "French"; ""; "1"; "n"; "y"; "five"]
          ++ repeat "6" 11))
  = Exited.
Proof.
  assert (listed initial_state) as Hlisted.
  { split; [done|]. repeat (constructor; [by eexists|]). constructor. }
  split; [exact Hlisted|]. apply main_exits; [exact Hlisted|].
  repeat (constructor; [reflexivity|]). constructor.
Defined.

(** Ann asks for a translation, books the French-speaking guide and rates
    the trip "five", which is no number, then 5 in a second booking; the
    admin sets the guide busy; the session exits. The invalid rating costs
    no line of the input. *)
Example main_example :
  let float s := if String.eqb s "5" then Finite 5 else NotAFloat in
  let env n := mkreadings "0123456789ab" 10%Z 20%Z 30%Z 40%Z 50%Z in
  let '(st', e) :=
    main false (fun _ => Raises) float env initial_state
      ["1"; "Thank you!"; "french";
       "3"; "Ann"; ""; "French"; ""; "1"; "n"; "y"; "five";
       "3"; "Ann"; ""; "French"; ""; "1"; "n"; "y"; "5"; "merci";
       "5"; "2"; "2";
       "4"; "6"; "1"] in
  e = Exited /\
  map (fun p => (Provider.name p, Provider.available p, Provider.rating p,
                 length (Provider.get_reviews p)))
    (providers st')
  = [("Ravi", Some true, Some (Num.binary64 (48 # 10)), 0);
     ("Maria", Some false, Some 5%Q, 1);
     ("Carlos", Some true, Some (Num.binary64 (47 # 10)), 0)] /\
  map (fun b => (Booking.tourist b, Booking.provider_name b))
    (bookings st')
  = [("Ann", "Maria"); ("Ann", "Maria")] /\
  translate_message_flow false (fun _ => Raises) initial_state
    ["Thank you!"; "french"; "3"]
  = (initial_state, Some (Translated (Some "thank you") "French" "Merci", ["3"])).
Proof. vm_compute. by repeat split. Qed.

(** ** The admin menu at the console *)

Lemma show_providers_unlisted (listing : list Provider.t) :
  ~ Forall (fun p => is_Some (Provider.language p)) listing ->
  show_providers listing = raise.
Proof.
  intros H. unfold show_providers.
  destruct (listable listing) eqn:E; [|done].
  by apply listable_Forall in E.
Qed.

(** X29. [admin_menu] at the console, with the listing that precedes the
    selection. When every provider has the key "language", the state after
    the menu is the one of the toggle alone: choice 2 toggles the selected
    provider, every other choice leaves the state as it is. When a provider
    has no such key, the listing raises before anything is selected: the
    choices 2 and 3 end in an exception and the state is unchanged, so no
    provider can be toggled. *)
Theorem admin_menu_flow_state (now : time) (st : state)
  (choice sel : string) (rest : list string) :
  let r := admin_menu_flow now st (choice :: sel :: rest) in
  let languages :=
    Forall (fun p => is_Some (Provider.language p)) (providers st) in
  (languages ->
   fst r = admin_menu (Text.strip choice) (Text.strip sel) now st) /\
  (~ languages ->
   fst r = st /\
   (Text.strip choice = "2" \/ Text.strip choice = "3" -> snd r = None)).
Proof.
  cbv zeta. unfold admin_menu_flow, admin_menu, bind, get_state, input_strip.
  destruct (String.eqb_spec (Text.strip choice) "1") as [->|_].
  { change (String.eqb "1" "2") with false. cbv iota.
    assert (fst (match analytics_summary st with
                 | Some (_, Raises) => raise
                 | _ => ret tt
                 end st (sel :: rest)) = st) as ->
      by (by destruct (analytics_summary st) as [[t [x|]]|]).
    split; [done|]. intros _. split; [done|]. by intros [[=]|[=]]. }
  destruct (String.eqb_spec (Text.strip choice) "2") as [->|Hne2].
  { split.
    - intros H.
      by rewrite (show_providers_listed _ H), (proj2 (listable_Forall _) H).
    - intros H. by rewrite (show_providers_unlisted _ H). }
  destruct (String.eqb_spec (Text.strip choice) "3") as [->|Hne3].
  { split.
    - intros H. by rewrite (show_providers_listed _ H).
    - intros H. by rewrite (show_providers_unlisted _ H). }
  split; [done|]. intros _. split; [done|]. by intros [?|?].
Qed.
